(** * Arkane's Q-Chem log reader ([arkane/qchem.py], class [QchemLog])

    A shallow embedding of the methods of [QchemLog], the properties
    of them that the specification states, and further properties read
    off the code.

    Conventions of the embedding.

    - The log file is its text, a [string]; [readlines] is what repeated
      [f.readline()] returns (each line with its terminating newline, so
      no line is empty), [splitlines] is [f.read().splitlines()].
      [readline] returns [''] exactly at end of file, so a loop
      [line = f.readline(); while line != '': ...; line = f.readline()]
      is a recursion on the list of lines that are still unread.
    - A call ends in an [outcome]: it returns, raises, or never returns
      (a [while] that keeps reading [''] at end of file).  A loop that
      holds another loop is bounded by the number of lines left to
      read; [OutOfFuel] is the outcome of a bound that was too small,
      and no method ends in it (see [has_fuel]).
    - Python floats are exact rationals ([Q]); rounding, infinities and
      NaN are outside the model.  The built-in [float()], [numpy.sqrt],
      [math.pi], the constants of [rmgpy.constants] and the helpers of
      [arkane.common] are parameters of the development. *)

From Stdlib Require Import Strings.String Strings.Ascii Lists.List.
From Stdlib Require Import ZArith QArith Qround Qabs Lia Lqa Bool Arith.
Import ListNotations.

(* ================================================================== *)
(** ** Outcomes of a call *)

Inductive exn : Type :=
| InputError (msg : string)      (* rmgpy.exceptions.InputError *)
| ValueError
| IndexError
| UnboundLocalError
| ZeroDivisionError
| OtherError (msg : string).     (* raised by a collaborator *)

Inductive outcome (A : Type) : Type :=
| Ret (a : A)
| Raise (e : exn)
| Diverge
| OutOfFuel.

Arguments Ret {A} a.
Arguments Raise {A} e.
Arguments Diverge {A}.
Arguments OutOfFuel {A}.

Definition bind {A B : Type} (m : outcome A) (k : A -> outcome B) : outcome B :=
  match m with
  | Ret a => k a
  | Raise e => Raise e
  | Diverge => Diverge
  | OutOfFuel => OutOfFuel
  end.

Declare Scope py_scope.
Delimit Scope py_scope with py.
Notation "x <- m ;; k" := (bind m (fun x => k))
  (at level 61, m at next level, right associativity) : py_scope.
Notation "' pat <- m ;; k" := (bind m (fun x => match x with pat => k end))
  (at level 61, pat pattern, m at next level, right associativity) : py_scope.
Open Scope py_scope.

(** [[g(x) for x in l]] where [g] may raise. *)
Fixpoint mapM {A B : Type} (g : A -> outcome B) (l : list A) : outcome (list B) :=
  match l with
  | [] => Ret []
  | x :: l' => y <- g x ;; ys <- mapM g l' ;; Ret (y :: ys)
  end.

(** [for i in range(n): body], threading the loop's variables. *)
Fixpoint for_range_from {St : Type} (i n : nat) (body : nat -> St -> outcome St)
         (s : St) : outcome St :=
  match n with
  | O => Ret s
  | S n' => s' <- body i s ;; for_range_from (S i) n' body s'
  end.

Definition for_range {St : Type} (n : nat) (body : nat -> St -> outcome St)
           (s : St) : outcome St :=
  for_range_from 0 n body s.

(** [l[i]] for [i >= 0]. *)
Definition index {A : Type} (l : list A) (i : nat) : outcome A :=
  match nth_error l i with
  | Some x => Ret x
  | None => Raise IndexError
  end.

(** [l[-1]]. *)
Definition index_last {A : Type} (l : list A) : outcome A :=
  match l with
  | [] => Raise IndexError
  | _ => index l (length l - 1)
  end.

(** [l[-n:]]. *)
Definition lastn {A : Type} (n : nat) (l : list A) : list A :=
  skipn (length l - n) l.

(* ================================================================== *)
(** ** Text *)

Definition LF : ascii := "010"%char.
Definition CR : ascii := "013"%char.

(** The characters [str.split()] splits at. *)
Definition isspace (c : ascii) : bool :=
  let n := nat_of_ascii c in
  (n =? 32)%nat || ((9 <=? n)%nat && (n <=? 13)%nat).

(** [line.split()]: the maximal runs of characters that are not white
    space. *)
Fixpoint split (s : string) : list string :=
  match s with
  | EmptyString => []
  | String c s' =>
      if isspace c then split s'
      else match s' with
           | EmptyString => [String c EmptyString]
           | String c' _ =>
               if isspace c' then String c EmptyString :: split s'
               else match split s' with
                    | [] => [String c EmptyString]
                    | t :: ts => String c t :: ts
                    end
           end
  end.

(** [needle in hay]. *)
Fixpoint contains (needle hay : string) : bool :=
  prefix needle hay ||
  match hay with
  | EmptyString => false
  | String _ hay' => contains needle hay'
  end.

(** The lines [f.readline()] returns one after the other: each ends
    after its line feed, the last one at the end of the text. *)
Fixpoint readlines (text : string) : list string :=
  match text with
  | EmptyString => []
  | String c text' =>
      if Ascii.eqb c LF then String c EmptyString :: readlines text'
      else match readlines text' with
           | [] => [String c EmptyString]
           | l :: ls => String c l :: ls
           end
  end.

(** [text.splitlines()] of a Python 2 [str]: lines end at a line feed,
    a carriage return, or a carriage return and a line feed; the line
    ends are not kept. *)
Fixpoint splitlines (text : string) : list string :=
  match text with
  | EmptyString => []
  | String c text' =>
      if Ascii.eqb c LF then EmptyString :: splitlines text'
      else if Ascii.eqb c CR then
        match text' with
        | EmptyString => [EmptyString]
        | String c' text'' =>
            if Ascii.eqb c' LF then EmptyString :: splitlines text''
            else EmptyString :: splitlines text'
        end
      else match splitlines text' with
           | [] => [String c EmptyString]
           | l :: ls => String c l :: ls
           end
  end.

(** A line with no line feed and no carriage return in it. *)
Fixpoint clean (s : string) : bool :=
  match s with
  | EmptyString => true
  | String c s' => negb (Ascii.eqb c LF) && negb (Ascii.eqb c CR) && clean s'
  end.

(** A line as [readline] returns it, with its line feed. *)
Definition eol (l : string) : string := (l ++ String LF EmptyString)%string.

(** The file whose lines are [ls], each ended by a line feed. *)
Fixpoint unlines (ls : list string) : string :=
  match ls with
  | [] => EmptyString
  | l :: ls' => (l ++ String LF (unlines ls'))%string
  end.

(* ================================================================== *)
(** ** Numbers *)

(** [int(x)] of a float: truncation towards zero. *)
Definition py_int (x : Q) : Z := Z.quot (Qnum x) (Z.pos (Qden x)).

(** [math.ceil]. *)
Definition math_ceil (x : Q) : Z := Qceiling x.

(** [numpy.min] of a one-dimensional array; a [ValueError] on an empty
    one. *)
Fixpoint Qmin_list (m : Q) (l : list Q) : Q :=
  match l with
  | [] => m
  | x :: l' => Qmin_list (if Qle_bool x m then x else m) l'
  end.

Definition numpy_min (l : list Q) : outcome Q :=
  match l with
  | [] => Raise ValueError
  | x :: l' => Ret (Qmin_list x l')
  end.

(** [numpy.arange(start, stop, step)]: [ceil((stop - start) / step)]
    values from [start] on, [step] apart. *)
Definition numpy_arange (start stop step : Q) : list Q :=
  map (fun i => start + inject_Z (Z.of_nat i) * step)
      (seq 0 (Z.to_nat (math_ceil ((stop - start) / step)))).

(** *** A reader of decimal numerals

    The decimal numerals [float()] accepts: an optional sign, digits
    with an optional point, an optional exponent.  It instantiates the
    parameter [float_of] on concrete logs. *)

Definition digit_of (c : ascii) : option Z :=
  let n := nat_of_ascii c in
  if (48 <=? n)%nat && (n <=? 57)%nat then Some (Z.of_nat (n - 48)) else None.

(** Reads the digits at the front of [s]: their value after [acc],
    how many there were, and what follows them. *)
Fixpoint read_digits (acc : Z) (cnt : nat) (s : string) : Z * nat * string :=
  match s with
  | EmptyString => (acc, cnt, s)
  | String c s' =>
      match digit_of c with
      | Some d => read_digits (10 * acc + d) (S cnt) s'
      | None => (acc, cnt, s)
      end
  end.

Definition read_sign (s : string) : bool * string :=
  match s with
  | String "-"%char s' => (true, s')
  | String "+"%char s' => (false, s')
  | _ => (false, s)
  end.

Definition pow10 (e : Z) : Q :=
  if (0 <=? e)%Z then inject_Z (10 ^ e) else 1 / inject_Z (10 ^ (- e)).

Definition read_exponent (s : string) : option Z :=
  match s with
  | EmptyString => Some 0%Z
  | String c s' =>
      if Ascii.eqb c "e"%char || Ascii.eqb c "E"%char then
        let '(neg, s1) := read_sign s' in
        let '(e, n, rest) := read_digits 0 0 s1 in
        match n, rest with
        | S _, EmptyString => Some (if neg then (- e)%Z else e)
        | _, _ => None
        end
      else None
  end.

Definition parse_decimal (s : string) : option Q :=
  let '(neg, s1) := read_sign s in
  let '(ip, n1, s2) := read_digits 0 0 s1 in
  let '(m, n2, s3) :=
    match s2 with
    | String "."%char s2' => read_digits ip 0 s2'
    | _ => (ip, 0%nat, s2)
    end in
  match (n1 + n2)%nat with
  | O => None
  | _ =>
      match read_exponent s3 with
      | Some e =>
          let v := inject_Z m * pow10 (e - Z.of_nat n2) in
          Some (if neg then - v else v)
      | None => None
      end
  end.

Definition Qlt_bool (x y : Q) : bool := negb (Qle_bool y x).

(** [f.readline()]: the next line and the lines left; [''] at the end
    of the file. *)
Definition readline (f : list string) : string * list string :=
  match f with
  | [] => (EmptyString, [])
  | line :: f' => (line, f')
  end.

(** [l[i] = v] on a list, [None] when [i] is out of range. *)
Fixpoint list_set {A : Type} (l : list A) (i : nat) (v : A) : option (list A) :=
  match l, i with
  | [], _ => None
  | _ :: l', O => Some (v :: l')
  | x :: l', S i' =>
      match list_set l' i' v with
      | Some l'' => Some (x :: l'')
      | None => None
      end
  end.

Definition setitem {A : Type} (l : list A) (i : nat) (v : A) : outcome (list A) :=
  match list_set l i v with
  | Some l' => Ret l'
  | None => Raise IndexError
  end.

(** [l.remove(x)] on a list of floats: the first item equal to [x]
    goes; a [ValueError] when there is none. *)
Fixpoint list_remove (x : Q) (l : list Q) : outcome (list Q) :=
  match l with
  | [] => Raise ValueError
  | y :: l' =>
      if Qeq_bool y x then Ret l'
      else l'' <- list_remove x l' ;; Ret (y :: l'')
  end.

(** *** Two-dimensional arrays *)

Definition matrix : Type := list (list Q).

(** [numpy.zeros((n, m))]. *)
Definition numpy_zeros (n m : nat) : matrix := repeat (repeat 0 m) n.

(** [F[j, c] = v]; an [IndexError] outside the array. *)
Definition matrix_set (F : matrix) (j c : nat) (v : Q) : outcome matrix :=
  row <- index F j ;;
  row' <- setitem row c v ;;
  setitem F j row'.

(** [F *= k]. *)
Definition matrix_scale (k : Q) (F : matrix) : matrix :=
  map (map (fun x => x * k)) F.

(** [numpy.array(rows, numpy.float64)] of a list of lists: the rows
    must have one length. *)
Definition numpy_array2 (rows : list (list Q)) : outcome matrix :=
  match rows with
  | [] => Ret []
  | r :: rows' =>
      if forallb (fun r' => (length r' =? length r)%nat) rows' then Ret rows
      else Raise ValueError
  end.

(** The square matrices of dimension [n]. *)
Definition square (n : nat) (F : matrix) : Prop :=
  length F = n /\ Forall (fun row => length row = n) F.

(* ================================================================== *)
(** ** The records of [rmgpy.statmech] the reader builds *)

Inductive mode : Type :=
| IdealGasTranslation (mass : Q)                       (* amu *)
| LinearRotor (inertia : Q) (symmetry : Z)             (* amu*angstrom^2 *)
| NonlinearRotor (inertia : list Q) (symmetry : Z)     (* amu*angstrom^2 *)
| HarmonicOscillator (frequencies : list Q).           (* cm^-1 *)

Record Conformer : Type := mkConformer {
  E0 : Q * string;
  modes : list mode;
  spinMultiplicity : Z;
  opticalIsomers : Z
}.

Definition is_rotor (m : mode) : bool :=
  match m with
  | LinearRotor _ _ | NonlinearRotor _ _ => true
  | _ => false
  end.

(** The variables of [loadConformer] that live across its loops. *)
Record cstate : Type := mkCstate {
  c_freq : list mode;
  c_mmass : list mode;
  c_rot : list mode;
  c_inertia : list Q;
  c_symmetry : option Z;
  c_spin : Z
}.

(** The variables of the geometry search of [loadGeometry]:
    [atom], [coord] and [geometry_flag]. *)
Definition gstate : Type := (list string * list (list Q) * bool)%type.

(* ================================================================== *)
(** ** The banners the reader looks for *)

Open Scope string_scope.

Definition geometry_banner : string := "Standard Nuclear Orientation".
Definition dashes52 : string :=
  "----------------------------------------------------".
Definition dashes12 : string := "------------".
Definition dashes17 : string := "-----------------".
Definition completion_banner : string := "Total job time:".
Definition frequency_marker : string := " Frequency:".

Definition is_hessian_banner (line : string) : bool :=
  contains "Final Hessian." line || contains "Hessian of the SCF Energy" line.

Definition msg_incomplete : string :=
  "Could not find a successfully completed Qchem job in Qchem output file ".
Definition msg_no_atoms : string :=
  "Unable to read atoms from Qchem geometry output file ".
Definition msg_no_energy : string :=
  "Unable to find energy in Qchem output file.".
Definition msg_no_zpe : string :=
  "Unable to find zero-point energy in Qchem output file.".
Definition msg_no_imaginary : string :=
  "Unable to find imaginary frequency in QChem output file ".

Close Scope string_scope.

(* ================================================================== *)
(** ** Concrete collaborators

    Values for the parameters of the development, to run the methods
    on concrete logs. *)

(** A square root that is exact on the squares of rationals. *)
Definition sqrt_exact (x : Q) : Q :=
  Z.sqrt (Qnum (Qred x)) # Pos.sqrt (Qden (Qred x)).

(** The values of [rmgpy.constants]. *)
Definition rmg_a0 : Q := 5.2917721092e-11.
Definition rmg_E_h : Q := 4.35974434e-18.
Definition rmg_Na : Q := 6.02214179e23.
Definition float_pi : Q := 3.141592653589793.

Open Scope string_scope.

(** A periodic table with three elements. *)
Definition element_table (symbol : string) : outcome (Q * Z) :=
  if symbol =? "H" then Ret (1.00782503224, 1%Z)
  else if symbol =? "C" then Ret (12.0, 6%Z)
  else if symbol =? "O" then Ret (15.99491461957, 8%Z)
  else Raise (OtherError symbol).

Close Scope string_scope.

(** A check that accepts every scan. *)
Definition accept_scan (Vlist : list Q) (path : string) : outcome unit :=
  Ret tt.

(* ================================================================== *)
(** ** The methods of [QchemLog] *)

Section QchemLog.

Set Default Proof Using "Type".

(** Python's built-in [float()] on a token; [None] is its
    [ValueError]. *)
Variable float_of : string -> option Q.

(** [rmgpy.constants]: the Bohr radius (m), the Hartree energy (J) and
    Avogadro's number. *)
Variables a0 E_h Na : Q.

Variable math_pi : Q.
Variable numpy_sqrt : Q -> Q.

(** [arkane.common.get_element_mass]: the mass and the atomic number of
    an element symbol. *)
Variable get_element_mass : string -> outcome (Q * Z).

(** [arkane.common.check_conformer_energy]: the check of a scan against
    its first point. *)
Variable check_conformer_energy : list Q -> string -> outcome unit.

Definition float (tok : string) : outcome Q :=
  match float_of tok with
  | Some v => Ret v
  | None => Raise ValueError
  end.

(** *** [getNumberOfAtoms] (lines 56-77) *)

(** The loop of lines 70-72, entered with [line] read and [f] unread:
    every line without the delimiter counts as an atom.  At the end of
    the file [readline] keeps returning [''], which holds no delimiter. *)
Fixpoint count_atom_rows (Natoms : nat) (line : string) (f : list string)
  : outcome (nat * list string) :=
  if contains dashes52 line then Ret (Natoms, f)
  else match f with
       | [] => Diverge
       | line' :: f' => count_atom_rows (S Natoms) line' f'
       end.

(** The loop of lines 66-73; [f] holds the lines from [line] on. *)
Fixpoint getNumberOfAtoms_loop (fuel : nat) (Natoms : nat) (f : list string)
  : outcome nat :=
  match fuel with
  | O => OutOfFuel
  | S fuel' =>
      match f with
      | [] => Ret Natoms
      | line :: f =>
          if negb (Natoms =? 0)%nat then Ret Natoms
          else if contains geometry_banner line && (Natoms =? 0)%nat then
            let (line, f) := readline (skipn 2 f) in
            '(Natoms, f) <- count_atom_rows Natoms line f ;;
            getNumberOfAtoms_loop fuel' Natoms f
          else getNumberOfAtoms_loop fuel' Natoms f
      end
  end.

Definition getNumberOfAtoms (text : string) : outcome nat :=
  let f := readlines text in
  getNumberOfAtoms_loop (S (length f)) 0 f.

(** *** [loadForceConstantMatrix] (lines 79-113) *)

Definition hessian_factor : Q := 4.35974417e-18 / 5.291772108e-11 ^ 2.

(** Lines 103-105: the values of one row of a band, after its row
    number, go to columns [i*6], [i*6+1], ... of row [j]. *)
Definition read_hessian_row (i j : nat) (data : list string) (F : matrix)
  : outcome matrix :=
  for_range (length data - 1)
    (fun k F =>
       tok <- index data (k + 1) ;;
       v <- float tok ;;
       matrix_set F j (i * 6 + k) v)
    F.

(** Lines 97-105: a fresh matrix, then per band of six columns one
    header line and [Nrows] data lines. *)
Definition fill_hessian (Nrows : nat) (f : list string)
  : outcome (matrix * list string) :=
  for_range (Z.to_nat (math_ceil (inject_Z (Z.of_nat Nrows) / 6.0)))
    (fun i '(F, f) =>
       let (_, f) := readline f in
       for_range Nrows
         (fun j '(F, f) =>
            let (line, f) := readline f in
            F' <- read_hessian_row i j (split line) F ;;
            Ret (F', f))
         (F, f))
    (numpy_zeros Nrows Nrows, f).

(** Lines 97-108: the block after a banner, in J/m^2. *)
Definition read_hessian (Nrows : nat) (f : list string)
  : outcome (matrix * list string) :=
  '(F, f) <- fill_hessian Nrows f ;;
  Ret (matrix_scale hessian_factor F, f).

(** The loop of lines 94-109. *)
Fixpoint hessian_loop (fuel : nat) (Nrows : nat) (F : option matrix)
         (f : list string) : outcome (option matrix) :=
  match fuel with
  | O => OutOfFuel
  | S fuel' =>
      match f with
      | [] => Ret F
      | line :: f =>
          if is_hessian_banner line then
            '(F', f) <- read_hessian Nrows f ;;
            hessian_loop fuel' Nrows (Some F') f
          else hessian_loop fuel' Nrows F f
      end
  end.

Definition loadForceConstantMatrix (text : string) : outcome (option matrix) :=
  Natoms <- getNumberOfAtoms text ;;
  let Nrows := (Natoms * 3)%nat in
  let f := readlines text in
  hessian_loop (S (length f)) Nrows None f.

(** *** [loadGeometry] (lines 115-167) *)

(** Lines 147-149: the symbol and the coordinates of a row.  A row
    that raises leaves nothing behind: the lists it would extend are
    local to the call. *)
Definition parse_atom_row (line : string) : outcome (string * list Q) :=
  let data := split line in
  a <- index data 1 ;;
  c <- mapM float (skipn 2 data) ;;
  Ret (a, c).

(** Lines 145-152: the rows after the header of a geometry block. *)
Fixpoint read_atoms (rows : list string) (st : gstate) : outcome gstate :=
  match rows with
  | [] => Ret st
  | line :: rows' =>
      if negb (contains dashes12 line) then
        let '(atom, coord, _) := st in
        '(a, c) <- parse_atom_row line ;;
        read_atoms rows' (atom ++ [a], coord ++ [c], true)
      else Ret st
  end.

(** Lines 142-154: [i] runs from [n - 1] down to [0]. *)
Fixpoint find_geometry (log : list string) (n : nat) (st : gstate)
  : outcome gstate :=
  match n with
  | O => Ret st
  | S i =>
      let line := nth i log EmptyString in
      if contains geometry_banner line then
        st' <- read_atoms (skipn (i + 3) log) st ;;
        let '(_, _, geometry_flag) := st' in
        if geometry_flag then Ret st' else find_geometry log i st'
      else find_geometry log i st
  end.

(** Lines 157-160. *)
Fixpoint element_masses (atom : list string) (mass : list Q) (number : list Z)
  : outcome (list Q * list Z) :=
  match atom with
  | [] => Ret (mass, number)
  | atom1 :: atom' =>
      '(mass1, num1) <- get_element_mass atom1 ;;
      element_masses atom' (mass ++ [mass1]) (number ++ [num1])
  end.

Definition loadGeometry (path text : string)
  : outcome (matrix * list Z * list Q) :=
  let log := splitlines text in
  let completed_job := existsb (contains completion_banner) (rev log) in
  if negb completed_job then Raise (InputError (msg_incomplete ++ path))
  else
    '(atom, coord, _) <- find_geometry log (length log) ([], [], false) ;;
    '(mass, number) <- element_masses atom [] [] ;;
    coord <- numpy_array2 coord ;;
    if (length number =? 0)%nat || (length coord =? 0)%nat
       || (length mass =? 0)%nat
    then Raise (InputError (msg_no_atoms ++ path))
    else Ret (coord, number, mass).

(** *** [loadConformer] (lines 169-263) *)

Definition add_freq (st : cstate) (m : mode) : cstate :=
  mkCstate (c_freq st ++ [m]) (c_mmass st) (c_rot st) (c_inertia st)
           (c_symmetry st) (c_spin st).
Definition add_mmass (st : cstate) (m : mode) : cstate :=
  mkCstate (c_freq st) (c_mmass st ++ [m]) (c_rot st) (c_inertia st)
           (c_symmetry st) (c_spin st).
Definition set_inertia (st : cstate) (inertia : list Q) : cstate :=
  mkCstate (c_freq st) (c_mmass st) (c_rot st) inertia
           (c_symmetry st) (c_spin st).
Definition set_symmetry (st : cstate) (symmetry : Z) : cstate :=
  mkCstate (c_freq st) (c_mmass st) (c_rot st) (c_inertia st)
           (Some symmetry) (c_spin st).
Definition set_spin (st : cstate) (spin : Z) : cstate :=
  mkCstate (c_freq st) (c_mmass st) (c_rot st) (c_inertia st)
           (c_symmetry st) spin.
(** Lines 250/256 and 258: the rotor is appended, [inertia] is reset,
    and [symmetry] keeps the value line 241 gave it. *)
Definition add_rot (st : cstate) (m : mode) (symmetry : Z) : cstate :=
  mkCstate (c_freq st) (c_mmass st) (c_rot st ++ [m]) []
           (Some symmetry) (c_spin st).

(** Lines 201-207: a line with the frequency marker and two, three or
    four tokens gives its last one, two or three numbers. *)
Definition frequency_line (line : string) (frequencies : list Q)
  : outcome (list Q) :=
  if contains frequency_marker line then
    let toks := split line in
    if (length toks =? 4)%nat then
      vs <- mapM float (lastn 3 toks) ;; Ret (frequencies ++ vs)
    else if (length toks =? 3)%nat then
      vs <- mapM float (lastn 2 toks) ;; Ret (frequencies ++ vs)
    else if (length toks =? 2)%nat then
      vs <- mapM float (lastn 1 toks) ;; Ret (frequencies ++ vs)
    else Ret frequencies
  else Ret frequencies.

(** The loop of lines 200-208, entered on [line] with [f] unread.  At
    the end of the file [readline] keeps returning [''], which holds no
    banner and no marker. *)
Fixpoint frequency_block (frequencies : list Q) (line : string)
         (f : list string) : outcome (list Q * list string) :=
  if contains "STANDARD THERMODYNAMIC QUANTITIES AT" line
  then Ret (frequencies, f)
  else
    frequencies' <- frequency_line line frequencies ;;
    match f with
    | [] => Diverge
    | line' :: f' => frequency_block frequencies' line' f'
    end.

(** Lines 211-212. *)
Definition strip_imaginary (frequencies : list Q) : outcome (list Q) :=
  x <- index frequencies 0 ;;
  if Qlt_bool x 0.0 then Ret (skipn 1 frequencies) else Ret frequencies.

(** The loop of lines 191-234, entered after line 190; it returns with
    the lines that are unread when the loop is left. *)
Fixpoint section_loop (fuel : nat) (symfromlog : bool) (st : cstate)
         (f : list string) : outcome (cstate * list string) :=
  match fuel with
  | O => OutOfFuel
  | S fuel' =>
      match f with
      | [] => Ret (st, [])
      | line :: f =>
          if contains "Thank you very much for using Q-Chem." line then
            Ret (st, f)
          else if contains "VIBRATIONAL FREQUENCIES (CM**-1)" line then
            '(frequencies, f) <- frequency_block [] line f ;;
            let (_, f) := readline f in
            frequencies <- strip_imaginary frequencies ;;
            section_loop fuel' symfromlog
                         (add_freq st (HarmonicOscillator frequencies)) f
          else if contains "Molecular Mass:" line then
            tok <- index (split line) 2 ;;
            mass <- float tok ;;
            section_loop fuel' symfromlog
                         (add_mmass st (IdealGasTranslation mass)) f
          else if contains "Eigenvalues --" line then
            inertia <- mapM float (lastn 3 (split line)) ;;
            section_loop fuel' symfromlog (set_inertia st inertia) f
          else if contains "Rotational Symmetry Number is" line && symfromlog
          then
            tok <- index_last (split line) ;;
            v <- float tok ;;
            section_loop fuel' symfromlog (set_symmetry st (py_int v)) f
          else section_loop fuel' symfromlog st f
      end
  end.

(** [(constants.a0 / 1e-10) ** 2]: Bohr^2 to angstrom^2. *)
Definition inertia_factor : Q := (a0 / 1e-10) ^ 2.

(** [for i in range(n): inertia[i] *= (constants.a0 / 1e-10) ** 2]. *)
Definition convert_inertia (n : nat) (inertia : list Q) : outcome (list Q) :=
  for_range n
    (fun i inertia =>
       x <- index inertia i ;;
       setitem inertia i (x * inertia_factor))
    inertia.

(** Lines 239-258: the rotor of the eigenvalues recorded last. *)
Definition classify_rotor (st : cstate) : outcome cstate :=
  let inertia := c_inertia st in
  if (length inertia =? 0)%nat then Ret st
  else
    let symmetry := match c_symmetry st with
                    | None => 1%Z
                    | Some s => s
                    end in
    i0 <- index inertia 0 ;;
    if Qeq_bool i0 0.0 then
      inertia <- list_remove 0.0 inertia ;;
      inertia <- convert_inertia 2 inertia ;;
      x0 <- index inertia 0 ;;
      x1 <- index inertia 1 ;;
      Ret (add_rot st (LinearRotor (numpy_sqrt (x0 * x1)) symmetry) symmetry)
    else
      inertia <- convert_inertia 3 inertia ;;
      Ret (add_rot st (NonlinearRotor inertia symmetry) symmetry).

(** The loop of lines 180-258. *)
Fixpoint conformer_loop (fuel : nat) (symfromlog : bool) (st : cstate)
         (f : list string) : outcome cstate :=
  match fuel with
  | O => OutOfFuel
  | S fuel' =>
      match f with
      | [] => Ret st
      | line :: f =>
          '(st, f) <-
            (if contains "$molecule" line && (c_spin st =? 0)%Z then
               let (line, f) := readline f in
               if (length (split line) =? 2)%nat then
                 tok <- index (split line) 1 ;;
                 v <- float tok ;;
                 Ret (set_spin st (py_int v), f)
               else Ret (st, f)
             else if contains "VIBRATIONAL ANALYSIS" line then
               section_loop fuel' symfromlog st f
             else Ret (st, f)) ;;
          st <- classify_rotor st ;;
          conformer_loop fuel' symfromlog st f
      end
  end.

Definition loadConformer (text : string) (symmetry : option Z)
           (spinMultiplicity : Z) (opticalIsomers : Z) (symfromlog : bool)
           (label : string) : outcome Conformer :=
  let E0 := 0.0 in
  let f := readlines text in
  st <- conformer_loop (S (length f)) symfromlog
          (mkCstate [] [] [] [] symmetry spinMultiplicity) f ;;
  Ret (mkConformer (E0 * 0.001, "kJ/mol"%string)
                   (c_mmass st ++ c_rot st ++ c_freq st)
                   (c_spin st) opticalIsomers).

(** *** [loadEnergy] (lines 265-295) and [loadZeroPointEnergy]
    (lines 297-325) *)

Fixpoint loadEnergy_loop (E0 : option Q) (f : list string)
  : outcome (option Q) :=
  match f with
  | [] => Ret E0
  | line :: f' =>
      if contains "Final energy is" line then
        tok <- index (split line) 3 ;;
        v <- float tok ;;
        loadEnergy_loop (Some (v * E_h * Na)) f'
      else loadEnergy_loop E0 f'
  end.

Definition loadEnergy (text : string) (frequencyScaleFactor : Q) : outcome Q :=
  E0 <- loadEnergy_loop None (readlines text) ;;
  match E0 with
  | Some E0 => Ret E0
  | None => Raise (InputError msg_no_energy)
  end.

Fixpoint loadZeroPointEnergy_loop (ZPE : option Q) (f : list string)
  : outcome (option Q) :=
  match f with
  | [] => Ret ZPE
  | line :: f' =>
      if contains "Zero point vibrational energy" line then
        tok <- index (split line) 4 ;;
        v <- float tok ;;
        loadZeroPointEnergy_loop (Some (v * 4184)) f'
      else loadZeroPointEnergy_loop ZPE f'
  end.

Definition loadZeroPointEnergy (text : string) (frequencyScaleFactor : Q)
  : outcome Q :=
  ZPE <- loadZeroPointEnergy_loop None (readlines text) ;;
  match ZPE with
  | Some ZPE => Ret ZPE
  | None => Raise (InputError msg_no_zpe)
  end.

(** *** [loadScanEnergies] (lines 327-365) *)

(** The loop of lines 340-347, entered on [line] with [f] unread.  At
    the end of the file the next line is [''], whose [values] are
    empty, so [values[0]] raises. *)
Fixpoint scan_rows (Vlist angle : list Q) (line : string) (f : list string)
  : outcome (list Q * list Q * list string) :=
  if contains dashes17 line then Ret (Vlist, angle, f)
  else
    values <- mapM float (split line) ;;
    a <- index values 0 ;;
    v <- index values 1 ;;
    match f with
    | [] => Raise IndexError
    | line' :: f' => scan_rows (Vlist ++ [v]) (angle ++ [a]) line' f'
    end.

(** The loop of lines 336-351, entered on [line] with [f] unread; the
    line read at line 348 is tested for the failure marker before the
    loop's own test. *)
Fixpoint scan_loop (fuel : nat) (Vlist angle : list Q) (line : string)
         (f : list string) : outcome (list Q * list Q) :=
  match fuel with
  | O => OutOfFuel
  | S fuel' =>
      '(Vlist, angle, f) <-
        (if contains "Summary of potential scan:" line then
           let (line, f) := readline f in
           scan_rows Vlist angle line f
         else Ret (Vlist, angle, f)) ;;
      match f with
      | [] => Ret (Vlist, angle)
      | line :: f =>
          if contains "SCF failed to converge" line then Ret (Vlist, angle)
          else scan_loop fuel' Vlist angle line f
      end
  end.

(** Lines 332-354: the energies and the angles read. *)
Definition read_scan (text : string) : outcome (list Q * list Q) :=
  match readlines text with
  | [] => Ret ([], [])
  | line :: f => scan_loop (S (length f)) [] [] line f
  end.

(** Lines 362-363: the energies relative to the least of them, in
    J/mol. *)
Definition normalize_energies (Vlist : list Q) : outcome (list Q) :=
  Vmin <- numpy_min Vlist ;;
  let Vlist := map (fun v => v - Vmin) Vlist in
  Ret (map (fun v => v * (E_h * Na)) Vlist).

(** Line 364: the angles, evenly spaced; the step divides by
    [len(Vlist) - 1]. *)
Definition scan_angles (n : nat) : outcome (list Q) :=
  if (n - 1 =? 0)%nat then Raise ZeroDivisionError
  else Ret (numpy_arange 0.0 (2 * math_pi + 0.00001)
                         (2 * math_pi / inject_Z (Z.of_nat (n - 1)))).

Definition loadScanEnergies (path text : string) : outcome (list Q * list Q) :=
  '(Vlist, angle) <- read_scan text ;;
  _ <- check_conformer_energy Vlist path ;;
  Vlist <- normalize_energies Vlist ;;
  angle <- scan_angles (length Vlist) ;;
  Ret (Vlist, angle).

(** *** [loadNegativeFrequency] (lines 367-387) *)

(** The loop of lines 375-380: [frequency] is bound at the first line
    with the marker, and stays unbound when there is none. *)
Fixpoint first_frequency (f : list string) : outcome (option Q) :=
  match f with
  | [] => Ret None
  | line :: f' =>
      if contains frequency_marker line then
        tok <- index (split line) 1 ;;
        v <- float tok ;;
        Ret (Some v)
      else first_frequency f'
  end.

Definition loadNegativeFrequency (path text : string) : outcome Q :=
  frequency <- first_frequency (readlines text) ;;
  match frequency with
  | None => Raise UnboundLocalError
  | Some frequency =>
      if Qlt_bool frequency 0 then Ret frequency
      else Raise (InputError (msg_no_imaginary ++ path))
  end.


(* ================================================================== *)
(** ** Sample logs *)

Open Scope string_scope.

(** A transition-state log and a stable-species log, for
    [loadNegativeFrequency]. *)
Definition ts_log : string :=
  unlines [ " Mode:                 1                      2";
            " Frequency:      -513.25                 204.10";
            " Frequency:       310.77" ].

Definition stable_log : string :=
  unlines [ " Mode:                 1                      2";
            " Frequency:       204.10                 310.77" ].

(** A frequency job on a linear molecule, with one imaginary mode. *)
Definition linear_log : string :=
  unlines [ "$molecule";
            "0 2";
            "$end";
            " VIBRATIONAL ANALYSIS";
            " VIBRATIONAL FREQUENCIES (CM**-1) AND NORMAL MODES";
            " Mode:                 1                      2                      3";
            " Frequency:      -513.25                 204.10                 310.77";
            " Mode:                 4";
            " Frequency:      2100.50";
            " STANDARD THERMODYNAMIC QUANTITIES AT   298.15 K  AND     1.00 ATM";
            "";
            "   This Molecule has  1 Imaginary Frequencies";
            "   Molecular Mass:        28.006148 amu";
            "   Eigenvalues --        0.00000  30.25000  30.25000";
            "   Rotational Symmetry Number is   2";
            " Thank you very much for using Q-Chem.  Have a nice day." ].

(** The same section with eigenvalues that are not in ascending
    order. *)
Definition unsorted_inertia_log : string :=
  unlines [ " VIBRATIONAL ANALYSIS";
            "   Eigenvalues --        1.0  0.0  2.0";
            " Thank you very much for using Q-Chem.  Have a nice day." ].

(** A linear rotor whose two equal eigenvalues are negative. *)
Definition negative_inertia_log : string :=
  unlines [ " VIBRATIONAL ANALYSIS";
            "   Eigenvalues --        0.0  -1.0  -1.0";
            " Thank you very much for using Q-Chem.  Have a nice day." ].

(** A frequency block with two imaginary modes. *)
Definition two_imaginary_log : string :=
  unlines [ " VIBRATIONAL ANALYSIS";
            " VIBRATIONAL FREQUENCIES (CM**-1) AND NORMAL MODES";
            " Frequency:      -500.0                 -100.0                 200.0";
            " STANDARD THERMODYNAMIC QUANTITIES AT   298.15 K  AND     1.00 ATM";
            "";
            "   Molecular Mass:        28.006148 amu";
            " Thank you very much for using Q-Chem.  Have a nice day." ].

(** A potential energy scan of three points. *)
Definition scan_log : string :=
  unlines [ " Summary of potential scan:";
            "    0.0000   -154.5020";
            "  180.0000   -154.5000";
            "  360.0000   -154.5010";
            " -----------------";
            " Total job time:  10.00s(wall), 9.00s(cpu)" ].

(** A scan of a single point. *)
Definition single_point_scan_log : string :=
  unlines [ " Summary of potential scan:";
            "    0.0000   -154.5020";
            " -----------------";
            " Total job time:  10.00s(wall), 9.00s(cpu)" ].

(** The geometry block of water, and a finished job that holds it once. *)
Definition water_block : list string :=
  [ "             Standard Nuclear Orientation (Angstroms)";
    "    I     Atom           X                Y                Z";
    " ----------------------------------------------------------------";
    "    1      O       0.0000000000     0.0000000000     0.1173";
    "    2      H       0.0000000000     0.7572000000    -0.4692";
    "    3      H       0.0000000000    -0.7572000000    -0.4692";
    " ----------------------------------------------------------------" ].

Definition water_log : string :=
  unlines (water_block ++ [ " Total job time:  10.00s(wall), 9.00s(cpu)" ]).

(** A file of two jobs: a hydrogen atom, then water. *)
Definition two_job_log : string :=
  unlines ([ "             Standard Nuclear Orientation (Angstroms)";
             "    I     Atom           X                Y                Z";
             " ----------------------------------------------------------------";
             "    1      H       0.0000000000     0.0000000000     0.0000000000";
             " ----------------------------------------------------------------" ]
           ++ water_block
           ++ [ " Total job time:  10.00s(wall), 9.00s(cpu)" ]).

(** A log that stops inside its geometry block. *)
Definition truncated_log : string :=
  unlines [ "             Standard Nuclear Orientation (Angstroms)";
            "    I     Atom           X                Y                Z";
            " ----------------------------------------------------------------";
            "    1      O       0.0000000000     0.0000000000     0.1173" ].

(** A finished job with the Hessian of a single atom, computed twice. *)
Definition hessian_log : string :=
  unlines [ "             Standard Nuclear Orientation (Angstroms)";
            "    I     Atom           X                Y                Z";
            " ----------------------------------------------------------------";
            "    1      H       0.0000000000     0.0000000000     0.0000000000";
            " ----------------------------------------------------------------";
            " Hessian of the SCF Energy";
            "            1           2           3";
            "    1   0.5000000   0.0000000   0.0000000";
            "    2   0.0000000   0.5000000   0.0000000";
            "    3   0.0000000   0.0000000   0.5000000";
            " Final Hessian.";
            "            1           2           3";
            "    1   0.2500000   0.0000000   0.0000000";
            "    2   0.0000000   0.2500000   0.1000000";
            "    3   0.0000000   0.1000000   0.7500000";
            " Total job time:  10.00s(wall), 9.00s(cpu)" ].

(** A job with two energies and a zero-point energy. *)
Definition energy_log : string :=
  unlines [ " Final energy is   -154.5020";
            " Final energy is   -154.6000";
            " Zero point vibrational energy:       20.5   kcal/mol";
            " Total job time:  10.00s(wall), 9.00s(cpu)" ].

(** An energy line cut after its marker, before a complete one. *)
Definition malformed_energy_log : string :=
  unlines [ " Final energy is";
            " Final energy is   -154.5020" ].

(** A Hessian with no geometry block before it. *)
Definition hessian_only_log : string :=
  unlines [ " Final Hessian.";
            "            1           2           3";
            "    1   0.2500000   0.0000000   0.0000000";
            " Total job time:  10.00s(wall), 9.00s(cpu)" ].

(** A frequency job that stops inside its frequency block. *)
Definition open_frequency_log : string :=
  unlines [ " VIBRATIONAL ANALYSIS";
            " VIBRATIONAL FREQUENCIES (CM**-1) AND NORMAL MODES";
            " Mode:                 1                      2";
            " Frequency:       204.10                 310.77" ].

(** A frequency block with no frequency line. *)
Definition empty_frequency_log : string :=
  unlines [ " VIBRATIONAL ANALYSIS";
            " VIBRATIONAL FREQUENCIES (CM**-1) AND NORMAL MODES";
            " STANDARD THERMODYNAMIC QUANTITIES AT   298.15 K  AND     1.00 ATM";
            "";
            " Thank you very much for using Q-Chem.  Have a nice day." ].

(** A frequency line cut after its marker, and one whose value is not
    a number. *)
Definition malformed_frequency_log : string :=
  unlines [ " Mode:                 1";
            " Frequency:";
            " Frequency:       204.10" ].

Definition starred_frequency_log : string :=
  unlines [ " Mode:                 1";
            " Frequency:      *******";
            " Frequency:       204.10" ].

(** A scan whose job fails after a first table of two points; a
    second table follows the failure. *)
Definition scf_failure_log : string :=
  unlines [ " Summary of potential scan:";
            "    0.0000   -154.5020";
            "  360.0000   -154.5000";
            " -----------------";
            " SCF failed to converge";
            " Summary of potential scan:";
            "    0.0000   -1.0000";
            " -----------------" ].

(** A geometry optimization of water in two steps: two geometry
    blocks of three rows each. *)
Definition optimization_log : string :=
  unlines (water_block
           ++ [ "             Standard Nuclear Orientation (Angstroms)";
                "    I     Atom           X                Y                Z";
                " ----------------------------------------------------------------";
                "    1      O       0.0000000000     0.0000000000     0.1200";
                "    2      H       0.0000000000     0.7600000000    -0.4700";
                "    3      H       0.0000000000    -0.7600000000    -0.4700";
                " ----------------------------------------------------------------";
                " Total job time:  10.00s(wall), 9.00s(cpu)" ]).

Close Scope string_scope.


(* ================================================================== *)
(** ** The vocabulary of the properties *)

(** [atom] and [coord] grow together. *)
Definition aligned (st : gstate) : Prop :=
  let '(atom, coord, _) := st in length atom = length coord.

(** [f] is what is left of [log] after some lines were read. *)
Definition suffix_of (f log : list string) : Prop := exists pre, log = pre ++ f.

(** The rotor lines 242-256 make of three eigenvalues. *)
Definition rotor_of (i0 i1 i2 : Q) (symmetry : Z) : mode :=
  if Qeq_bool i0 0.0 then
    LinearRotor (numpy_sqrt (i1 * inertia_factor * (i2 * inertia_factor)))
                symmetry
  else
    NonlinearRotor [i0 * inertia_factor; i1 * inertia_factor;
                    i2 * inertia_factor] symmetry.

(** [inertia] was read from an eigenvalue line of the log. *)
Definition recorded (log : list string) (inertia : list Q) : Prop :=
  exists line, In line log /\ contains "Eigenvalues --" line = true
               /\ mapM float (lastn 3 (split line)) = Ret inertia.

(** [raw] are the frequencies a block of the log accumulates. *)
Definition accumulated (log : list string) (raw : list Q) : Prop :=
  exists line f f',
    suffix_of (line :: f) log
    /\ contains "VIBRATIONAL FREQUENCIES (CM**-1)" line = true
    /\ frequency_block [] line f = Ret (raw, f').

Definition freq_ok (log : list string) (m : mode) : Prop :=
  exists raw fs, m = HarmonicOscillator fs /\ accumulated log raw
                 /\ strip_imaginary raw = Ret fs.

Definition rot_ok (log : list string) (m : mode) : Prop :=
  exists i0 i1 i2 sym, m = rotor_of i0 i1 i2 sym /\ recorded log [i0; i1; i2].

Definition mmass_ok (m : mode) : Prop := exists mass, m = IdealGasTranslation mass.

(** What holds of the variables of [loadConformer] all along. *)
Definition cinv (log : list string) (st : cstate) : Prop :=
  Forall (freq_ok log) (c_freq st)
  /\ Forall mmass_ok (c_mmass st)
  /\ Forall (rot_ok log) (c_rot st)
  /\ (c_inertia st = [] \/ recorded log (c_inertia st)).

(** How lines 242-256 classify the eigenvalues [i0], [i1], [i2] into
    the rotor [m]: linear exactly when the first one is zero, with the
    square root of the product of the other two, converted, as its
    moment (the common converted value when these two are one
    non-negative number); nonlinear with the three converted values
    otherwise. *)
Definition classified (i0 i1 i2 : Q) (symmetry : Z) (m : mode) : Prop :=
  (i0 == 0
   /\ m = LinearRotor (numpy_sqrt (i1 * inertia_factor * (i2 * inertia_factor)))
                      symmetry
   /\ (i1 = i2 -> 0 <= i1 ->
       numpy_sqrt (i1 * inertia_factor * (i2 * inertia_factor))
       == i1 * inertia_factor))
  \/ (~ i0 == 0
      /\ m = NonlinearRotor [i0 * inertia_factor; i1 * inertia_factor;
                             i2 * inertia_factor] symmetry).

(** Lines 211-212 on the accumulated frequencies [raw]. *)
Definition finalized (raw : list Q) : list Q :=
  if Qlt_bool (hd 0 raw) 0.0 then tl raw else raw.

(** The outcome is one of Python's: the bound on the iterations of the
    model's loops was not what ended the call. *)
Definition has_fuel {A : Type} (o : outcome A) : Prop := o <> OutOfFuel.

(** The line holds the marker [marker] and a number as its token
    [i]. *)
Definition well_marked (marker : string) (i : nat) (line : string) : Prop :=
  contains marker line = true ->
  exists tok v, nth_error (split line) i = Some tok /\ float_of tok = Some v.

(** The symmetry number of a rotor. *)
Definition rotor_symmetry (m : mode) : option Z :=
  match m with
  | LinearRotor _ s | NonlinearRotor _ s => Some s
  | _ => None
  end.

(** Line 241: the symmetry number when none was given or read. *)
Definition default_symmetry (symmetry : option Z) : Z :=
  match symmetry with
  | None => 1%Z
  | Some s => s
  end.

(** What holds of the symmetry number while [symfromlog] is not set:
    it stands for [dflt], and the rotors built so far carry [dflt]. *)
Definition sym_inv (dflt : Z) (st : cstate) : Prop :=
  default_symmetry (c_symmetry st) = dflt
  /\ Forall (fun m => rotor_symmetry m = Some dflt) (c_rot st).

(** A line the loop of lines 180-258 passes over: it does not start a
    molecule block that would be read ([spin] being 0) and does not
    start a vibrational analysis. *)
Definition outer_plain (spin : Z) (line : string) : bool :=
  negb (contains "$molecule" line && (spin =? 0)%Z)
  && negb (contains "VIBRATIONAL ANALYSIS" line).

(** A line the loop of lines 191-234 passes over: it holds none of the
    banners of lines 194-229. *)
Definition section_plain (symfromlog : bool) (line : string) : bool :=
  negb (contains "Thank you very much for using Q-Chem." line)
  && negb (contains "VIBRATIONAL FREQUENCIES (CM**-1)" line)
  && negb (contains "Molecular Mass:" line)
  && negb (contains "Eigenvalues --" line)
  && negb (contains "Rotational Symmetry Number is" line && symfromlog).

(** Lines 201-207 over the lines of a frequency block: the
    frequencies they add to [frequencies]. *)
Fixpoint frequencies_of (frequencies : list Q) (block : list string)
  : outcome (list Q) :=
  match block with
  | [] => Ret frequencies
  | line :: block' =>
      frequencies' <- frequency_line line frequencies ;;
      frequencies_of frequencies' block'
  end.

(** Fuel left against lines left, in the proofs that run the loops. *)
Ltac fuel_arith :=
  repeat (rewrite length_app; cbn [length]); cbn [length]; lia.

(** A row of the table of a potential scan: its first two numbers are
    [fst av], the angle, and [snd av], the energy. *)
Definition scan_row (row : string) (av : Q * Q) : Prop :=
  contains dashes17 row = false
  /\ exists values, mapM float (split row) = Ret values
                    /\ nth_error values 0 = Some (fst av)
                    /\ nth_error values 1 = Some (snd av).

(** What may follow the rows of a geometry block: a line with a run
    of twelve dashes, or the end of the log. *)
Definition closed_or_end (closing : list string) : Prop :=
  match closing with
  | [] => True
  | d :: _ => contains dashes12 d = true
  end.

(** [F[j, c]], read. *)
Definition matrix_get (F : matrix) (j c : nat) : option Q :=
  match nth_error F j with
  | Some row => nth_error row c
  | None => None
  end.

(** The value of the token [n] of a data line of a Hessian block; a
    line too short for it leaves the zero of the fresh matrix. *)
Definition tok_value (data : list string) (n : nat) : option Q :=
  match nth_error data n with
  | Some tok => float_of tok
  | None => Some 0
  end.

(** The number of bands of six columns of a Hessian of [Nrows] rows
    (line 98). *)
Definition hessian_bands (Nrows : nat) : nat :=
  Z.to_nat (math_ceil (inject_Z (Z.of_nat Nrows) / 6.0)).

(** Where the entry of row [j] and column [c] of a Hessian of [Nrows]
    rows stands in the lines [block] after the banner: each band of
    six columns takes a header line and [Nrows] data lines; the entry
    is in the band [c / 6], on its data line [j], after the row number
    and [c mod 6] other values. *)
Definition hessian_entry (Nrows : nat) (block : list string) (j c : nat)
  : option Q :=
  tok_value (split (nth ((c / 6) * (Nrows + 1) + 1 + j) block EmptyString))
            (c mod 6 + 1).

(** Case analysis on the comparisons of a goal. *)
Ltac nat_cases :=
  repeat match goal with
         | |- context [(?a =? ?b)%nat] => destruct (Nat.eqb_spec a b)
         | |- context [(?a <=? ?b)%nat] => destruct (Nat.leb_spec a b)
         | |- context [(?a <? ?b)%nat] => destruct (Nat.ltb_spec a b)
         end; cbn [andb]; try reflexivity; try lia.

(* ================================================================== *)
(** ** Text: a line is a piece of the file *)

Lemma append_assoc3 (a b c : string) :
  ((a ++ b) ++ c = a ++ b ++ c)%string.
Proof.
  induction a as [|x a IH]; simpl; [reflexivity | now rewrite IH].
Qed.

Lemma prefix_spec (s h : string) :
  prefix s h = true <-> exists b, h = (s ++ b)%string.
Proof.
  revert h; induction s as [|x s IH]; intros h; simpl.
  - split; [intros _; now exists h | intros _; now destruct h].
  - destruct h as [|y h]; simpl.
    + split; [discriminate | intros [b Hb]; discriminate].
    + destruct (ascii_dec x y) as [->|Hxy].
      * rewrite IH. split; intros [b Hb]; exists b; [now rewrite Hb | now inversion Hb].
      * split; [discriminate | intros [b Hb]; congruence].
Qed.

Lemma contains_eq (s h : string) :
  contains s h =
  prefix s h || match h with
                | EmptyString => false
                | String _ h' => contains s h'
                end.
Proof. destruct h; reflexivity. Qed.

Lemma contains_spec (s h : string) :
  contains s h = true <-> exists a b, h = (a ++ s ++ b)%string.
Proof.
  split.
  - induction h as [|c h IH]; rewrite contains_eq, orb_true_iff; intros [Hp|Hc].
    + apply prefix_spec in Hp. destruct Hp as [b Hb]. now exists EmptyString, b.
    + discriminate.
    + apply prefix_spec in Hp. destruct Hp as [b Hb]. now exists EmptyString, b.
    + destruct (IH Hc) as (a & b & ->). now exists (String c a), b.
  - intros (a & b & ->). induction a as [|c a IH].
    + rewrite contains_eq, orb_true_iff. left. apply prefix_spec. now exists b.
    + rewrite contains_eq. cbn [append]. rewrite IH. apply orb_true_r.
Qed.

Lemma contains_piece (s l a b : string) :
  contains s l = true -> contains s (a ++ l ++ b) = true.
Proof.
  rewrite !contains_spec. intros (a' & b' & ->).
  exists (a ++ a')%string, (b' ++ b)%string.
  now rewrite !append_assoc3.
Qed.

Lemma readlines_head (text l : string) (ls : list string) :
  readlines text = l :: ls -> exists b, text = (l ++ b)%string.
Proof.
  revert l ls; induction text as [|c t IH]; intros l ls; simpl; [discriminate|].
  destruct (Ascii.eqb c LF).
  - intros [= <- _]. now exists t.
  - destruct (readlines t) as [|l0 ls0] eqn:E.
    + intros [= <- _]. now exists t.
    + intros [= <- _]. destruct (IH _ _ eq_refl) as [b ->]. now exists b.
Qed.

Lemma readlines_piece (text l : string) :
  In l (readlines text) -> exists a b, text = (a ++ l ++ b)%string.
Proof.
  revert l; induction text as [|c t IH]; intros l; simpl; [intros []|].
  assert (Htail : In l (readlines t) ->
                  exists a b, String c t = (a ++ l ++ b)%string).
  { intros H. destruct (IH _ H) as (a & b & ->). now exists (String c a), b. }
  destruct (Ascii.eqb c LF).
  - intros [<-|H]; [now exists EmptyString, t | auto].
  - destruct (readlines t) as [|l0 ls0] eqn:E.
    + intros [<-|[]]. now exists EmptyString, t.
    + intros [<-|H]; [| apply Htail; now right].
      destruct (readlines_head _ _ _ E) as [b ->]. now exists EmptyString, b.
Qed.

Lemma splitlines_head (text l : string) (ls : list string) :
  splitlines text = l :: ls -> exists b, text = (l ++ b)%string.
Proof.
  revert l ls; induction text as [|c t IH]; intros l ls; simpl; [discriminate|].
  destruct (Ascii.eqb c LF); [intros [= <- _]; now eexists|].
  destruct (Ascii.eqb c CR).
  - destruct t as [|c' t']; [intros [= <- _]; now eexists|].
    destruct (Ascii.eqb c' LF); intros [= <- _]; now eexists.
  - destruct (splitlines t) as [|l0 ls0] eqn:E.
    + intros [= <- _]. now exists t.
    + intros [= <- _]. destruct (IH _ _ eq_refl) as [b ->]. now exists b.
Qed.

Lemma splitlines_piece_bounded (n : nat) (text l : string) :
  (String.length text <= n)%nat ->
  In l (splitlines text) -> exists a b, text = (a ++ l ++ b)%string.
Proof.
  revert text l; induction n as [|n IH]; intros text l Hn.
  - destruct text; [simpl; intros [] | simpl in Hn; lia].
  - destruct text as [|c t]; simpl; [intros []|]. simpl in Hn.
    assert (Htail : forall t', (String.length t' <= n)%nat ->
              (exists p, String c t = (p ++ t')%string) ->
              In l (splitlines t') ->
              exists a b, String c t = (a ++ l ++ b)%string).
    { intros t' Ht' [p Hp] H. destruct (IH _ _ Ht' H) as (a & b & ->).
      exists (p ++ a)%string, b. now rewrite Hp, append_assoc3. }
    assert (Hempty : exists a b, String c t = (a ++ EmptyString ++ b)%string)
      by now exists EmptyString, (String c t).
    assert (Ht : (String.length t <= n)%nat) by lia.
    assert (Hp1 : exists p, String c t = (p ++ t)%string)
      by now exists (String c EmptyString).
    destruct (Ascii.eqb c LF); [intros [<-|H]; eauto|].
    destruct (Ascii.eqb c CR).
    + destruct t as [|c' t']; [intros [<-|[]]; eauto|].
      simpl in Ht.
      destruct (Ascii.eqb c' LF); (intros [<-|H]; [exact Hempty|]).
      * apply (Htail t'); [lia | | exact H].
        now exists (String c (String c' EmptyString)).
      * now apply (Htail (String c' t')).
    + destruct (splitlines t) as [|l0 ls0] eqn:E.
      * intros [<-|[]]. now exists EmptyString, t.
      * intros [<-|H].
        -- destruct (splitlines_head _ _ _ E) as [b ->]. now exists EmptyString, b.
        -- apply (Htail t); auto. rewrite E. now right.
Qed.

Lemma splitlines_piece (text l : string) :
  In l (splitlines text) -> exists a b, text = (a ++ l ++ b)%string.
Proof. apply (splitlines_piece_bounded (String.length text)); lia. Qed.

(** A banner that is nowhere in the text is in none of its lines. *)
Lemma absent_readlines (s text : string) :
  contains s text = false ->
  Forall (fun l => contains s l = false) (readlines text).
Proof.
  intros H. apply Forall_forall. intros l Hl.
  destruct (contains s l) eqn:E; [|reflexivity].
  destruct (readlines_piece _ _ Hl) as (a & b & ->).
  now rewrite (contains_piece s l a b E) in H.
Qed.

Lemma absent_splitlines (s text : string) :
  contains s text = false ->
  Forall (fun l => contains s l = false) (splitlines text).
Proof.
  intros H. apply Forall_forall. intros l Hl.
  destruct (contains s l) eqn:E; [|reflexivity].
  destruct (splitlines_piece _ _ Hl) as (a & b & ->).
  now rewrite (contains_piece s l a b E) in H.
Qed.

(** [readline] never returns [''] before the end of the file. *)
Lemma readlines_nonempty (text : string) :
  Forall (fun l => l <> EmptyString) (readlines text).
Proof.
  induction text as [|c t IH]; simpl; [constructor|].
  destruct (Ascii.eqb c LF); [constructor; [discriminate | exact IH]|].
  destruct (readlines t) as [|l ls]; constructor; try discriminate.
  - constructor.
  - now inversion IH.
Qed.

Lemma contains_empty (s : string) :
  s <> EmptyString -> contains s EmptyString = false.
Proof. destruct s; [congruence | reflexivity]. Qed.

Lemma prefix_contains (s h : string) : prefix s h = true -> contains s h = true.
Proof. intros H. rewrite contains_eq, H. reflexivity. Qed.

(** A banner at the front of the text is at the front of its first
    line. *)
Lemma prefix_first_line (s text : string) :
  clean s = true -> s <> EmptyString -> prefix s text = true ->
  exists l0 ls, splitlines text = l0 :: ls /\ prefix s l0 = true.
Proof.
  revert text; induction s as [|x s IH]; intros text Hs Hne Hp; [congruence|].
  destruct text as [|y t]; [discriminate|]. simpl in Hp.
  destruct (ascii_dec x y) as [<-|]; [|discriminate].
  simpl in Hs. apply andb_true_iff in Hs. destruct Hs as [Hx Hs].
  apply andb_true_iff in Hx. destruct Hx as [Hlf Hcr].
  apply negb_true_iff in Hlf, Hcr.
  cbn [splitlines]. rewrite Hlf, Hcr.
  destruct s as [|x' s].
  - destruct (splitlines t) as [|l0 ls]; eexists; eexists;
      (split; [reflexivity|]); apply prefix_spec; eexists; reflexivity.
  - destruct (IH t Hs ltac:(discriminate) Hp) as (l0 & ls & -> & Hl0).
    exists (String x l0), ls. split; [reflexivity|].
    cbn [prefix]. now destruct (ascii_dec x x).
Qed.

(** A banner that is in the text is in one of its lines. *)
Lemma present_splitlines (s text : string) :
  clean s = true -> s <> EmptyString -> contains s text = true ->
  Exists (fun l => contains s l = true) (splitlines text).
Proof.
  intros Hs Hne. induction text as [|c t IH]; intros H.
  - now rewrite contains_empty in H.
  - rewrite contains_eq in H. apply orb_true_iff in H. destruct H as [H|H].
    + destruct (prefix_first_line _ _ Hs Hne H) as (l0 & ls & -> & Hl0).
      apply Exists_cons_hd. now apply prefix_contains.
    + specialize (IH H). cbn [splitlines].
      destruct (Ascii.eqb c LF); [now apply Exists_cons_tl|].
      destruct (Ascii.eqb c CR).
      * destruct t as [|c' t']; [inversion IH|].
        destruct (Ascii.eqb c' LF) eqn:E; [|now apply Exists_cons_tl].
        cbn [splitlines] in IH. rewrite E in IH.
        inversion IH as [? ? H0|? ? H0]; subst.
        -- now rewrite contains_empty in H0.
        -- now apply Exists_cons_tl.
      * destruct (splitlines t) as [|l0 ls]; [inversion IH|].
        inversion IH as [? ? H0|? ? H0]; subst.
        -- apply Exists_cons_hd. rewrite contains_eq, H0. apply orb_true_r.
        -- now apply Exists_cons_tl.
Qed.

(* ================================================================== *)
(** ** [loadNegativeFrequency] *)

Lemma first_frequency_none (f : list string) :
  Forall (fun l => contains frequency_marker l = false) f ->
  first_frequency f = Ret None.
Proof.
  induction 1 as [|l f Hl _ IH]; simpl; [reflexivity|].
  now rewrite Hl.
Qed.

Lemma first_frequency_skip (pre f : list string) :
  Forall (fun l => contains frequency_marker l = false) pre ->
  first_frequency (pre ++ f) = first_frequency f.
Proof.
  induction 1 as [|l pre Hl _ IH]; simpl; [reflexivity|].
  now rewrite Hl.
Qed.

Lemma Qlt_bool_iff (x y : Q) : Qlt_bool x y = true <-> x < y.
Proof.
  unfold Qlt_bool. rewrite negb_true_iff.
  destruct (Qle_bool y x) eqn:E.
  - apply Qle_bool_iff in E. split; [discriminate | intros H; exfalso].
    apply (Qlt_irrefl x). now apply Qlt_le_trans with y.
  - split; [intros _ | reflexivity].
    apply Qnot_le_lt. intros H. apply Qle_bool_iff in H. congruence.
Qed.

Lemma Qlt_bool_false_iff (x y : Q) : Qlt_bool x y = false <-> y <= x.
Proof.
  unfold Qlt_bool. rewrite negb_false_iff. apply Qle_bool_iff.
Qed.

(** C5. [loadNegativeFrequency] reads the second token of the first
    line with the frequency marker; when that token is the number [v],
    the call raises the "no imaginary frequency" [InputError] exactly
    when [v] is not negative, and returns [v] when it is negative. *)
Theorem loadNegativeFrequency_first_marker
        (path text : string) (pre post : list string) (line tok : string)
        (v : Q) :
  readlines text = pre ++ line :: post ->
  Forall (fun l => contains frequency_marker l = false) pre ->
  contains frequency_marker line = true ->
  nth_error (split line) 1 = Some tok ->
  float_of tok = Some v ->
  (loadNegativeFrequency path text
   = Raise (InputError (msg_no_imaginary ++ path)) <-> 0 <= v)
  /\ (v < 0 -> loadNegativeFrequency path text = Ret v).
Proof.
  intros Hlines Hpre Hline Htok Hv.
  assert (Hrun : loadNegativeFrequency path text
                 = if Qlt_bool v 0 then Ret v
                   else Raise (InputError (msg_no_imaginary ++ path))).
  { unfold loadNegativeFrequency. rewrite Hlines, first_frequency_skip by assumption.
    simpl. rewrite Hline. unfold index. rewrite Htok. simpl.
    unfold float. now rewrite Hv. }
  rewrite Hrun. destruct (Qlt_bool v 0) eqn:E.
  - apply Qlt_bool_iff in E. split; [|reflexivity].
    split; [discriminate | intros H; exfalso].
    apply (Qlt_irrefl v). now apply Qlt_le_trans with 0.
  - apply Qlt_bool_false_iff in E. split; [split; auto|].
    intros H; exfalso. apply (Qlt_irrefl v). now apply Qlt_le_trans with 0.
Qed.

(** C10. When no line of the log holds the frequency marker,
    [frequency] is never bound and the test of line 384 raises
    [UnboundLocalError], not the [InputError] of line 387. *)
Theorem loadNegativeFrequency_no_marker (path text : string) :
  contains frequency_marker text = false ->
  loadNegativeFrequency path text = Raise UnboundLocalError
  /\ loadNegativeFrequency path text
     <> Raise (InputError (msg_no_imaginary ++ path)).
Proof.
  intros H. unfold loadNegativeFrequency.
  rewrite first_frequency_none by now apply absent_readlines.
  split; [reflexivity | discriminate].
Qed.

(* ================================================================== *)
(** ** [loadEnergy] and [loadZeroPointEnergy] *)

(** C8. [loadEnergy] and [loadZeroPointEnergy] give the same outcome,
    a value or an error, whatever [frequencyScaleFactor] is. *)
Theorem energies_ignore_frequencyScaleFactor (text : string) (s1 s2 : Q) :
  loadEnergy text s1 = loadEnergy text s2
  /\ loadZeroPointEnergy text s1 = loadZeroPointEnergy text s2.
Proof.
  unfold loadEnergy, loadZeroPointEnergy.
  split.
  - destruct (loadEnergy_loop None (readlines text)); reflexivity.
  - destruct (loadZeroPointEnergy_loop None (readlines text)); reflexivity.
Qed.

(* ================================================================== *)
(** ** [loadScanEnergies] *)

Lemma Qmin_list_le_init (l : list Q) (m : Q) : Qmin_list m l <= m.
Proof.
  revert m; induction l as [|x l IH]; intros m; simpl; [apply Qle_refl|].
  destruct (Qle_bool x m) eqn:E.
  - apply Qle_bool_iff in E. apply Qle_trans with x; auto.
  - apply IH.
Qed.

Lemma Qmin_list_le (l : list Q) (m x : Q) : In x l -> Qmin_list m l <= x.
Proof.
  revert m; induction l as [|y l IH]; intros m; simpl; [intros []|].
  intros [->|H]; [|now apply IH].
  destruct (Qle_bool x m) eqn:E; [apply Qmin_list_le_init|].
  apply Qle_trans with m; [apply Qmin_list_le_init|].
  apply Qlt_le_weak, Qnot_le_lt. intros H. apply Qle_bool_iff in H. congruence.
Qed.

Lemma Qmin_list_in (l : list Q) (m : Q) :
  Qmin_list m l = m \/ In (Qmin_list m l) l.
Proof.
  revert m; induction l as [|x l IH]; intros m; simpl; [now left|].
  destruct (IH (if Qle_bool x m then x else m)) as [H|H]; [|now right; right].
  rewrite H. destruct (Qle_bool x m); [right; now left | now left].
Qed.

Lemma numpy_min_spec (l : list Q) (m : Q) :
  numpy_min l = Ret m -> In m l /\ Forall (fun x => m <= x) l.
Proof.
  destruct l as [|x l]; simpl; [discriminate|]. intros [= <-]. split.
  - destruct (Qmin_list_in l x) as [->|H]; [now left | now right].
  - apply Forall_forall. intros y [<-|H];
      [apply Qmin_list_le_init | now apply Qmin_list_le].
Qed.

(** Lines 362-363 on energies that are not empty. *)
Lemma normalize_energies_spec (raw : list Q) :
  0 <= E_h -> 0 <= Na -> raw <> [] ->
  exists Vlist,
    normalize_energies raw = Ret Vlist
    /\ length Vlist = length raw
    /\ Forall (fun v => 0 <= v) Vlist
    /\ Exists (fun v => v == 0) Vlist.
Proof.
  intros HE HN Hraw. unfold normalize_energies.
  destruct (numpy_min raw) as [Vmin| | |] eqn:E;
    try (destruct raw; [congruence | discriminate]).
  destruct (numpy_min_spec _ _ E) as [Hin Hmin].
  assert (Hc : 0 <= E_h * Na) by now apply Qmult_le_0_compat.
  cbn [bind]. eexists. split; [reflexivity|]. split; [|split].
  - now rewrite !length_map.
  - rewrite map_map. apply Forall_forall. intros y Hy.
    apply in_map_iff in Hy. destruct Hy as (x & <- & Hx).
    rewrite Forall_forall in Hmin. specialize (Hmin _ Hx).
    apply Qmult_le_0_compat; [lra | exact Hc].
  - rewrite map_map. apply Exists_exists.
    exists ((Vmin - Vmin) * (E_h * Na)). split; [|ring].
    apply in_map_iff. now exists Vmin.
Qed.

(** C6. Lines 362-363 turn energies that are not empty into energies
    none of which is negative and one of which is zero (the constants
    being positive); the energies [loadScanEnergies] returns are the
    energies it read, which are not empty, normalized this way. *)
Theorem loadScanEnergies_normalized (path text : string) :
  0 <= E_h -> 0 <= Na ->
  (forall raw,
      raw <> [] ->
      exists Vlist,
        normalize_energies raw = Ret Vlist
        /\ length Vlist = length raw
        /\ Forall (fun v => 0 <= v) Vlist
        /\ Exists (fun v => v == 0) Vlist)
  /\ (forall Vlist angle,
         loadScanEnergies path text = Ret (Vlist, angle) ->
         exists raw angle0,
           read_scan text = Ret (raw, angle0)
           /\ raw <> []
           /\ normalize_energies raw = Ret Vlist
           /\ Forall (fun v => 0 <= v) Vlist
           /\ Exists (fun v => v == 0) Vlist).
Proof.
  intros HE HN. split; [intros raw; now apply normalize_energies_spec|].
  intros Vlist angle. unfold loadScanEnergies.
  destruct (read_scan text) as [[raw angle0]| | |]; cbn [bind];
    try discriminate.
  destruct (check_conformer_energy raw path); cbn [bind]; try discriminate.
  destruct (normalize_energies raw) as [V| | |] eqn:En; cbn [bind];
    try discriminate.
  destruct (scan_angles (length V)); cbn [bind]; try discriminate.
  intros [= <- _].
  assert (Hraw : raw <> []) by (intros ->; discriminate).
  destruct (normalize_energies_spec raw HE HN Hraw) as (V' & HV' & _ & H1 & H2).
  rewrite En in HV'. injection HV' as <-.
  now exists raw, angle0.
Qed.

(** A table with a single row makes line 364 divide by zero. *)
Lemma loadScanEnergies_single_row (path text : string) (v : Q)
      (angle0 : list Q) :
  read_scan text = Ret ([v], angle0) ->
  check_conformer_energy [v] path = Ret tt ->
  loadScanEnergies path text = Raise ZeroDivisionError.
Proof.
  intros Hr Hc. unfold loadScanEnergies. rewrite Hr. cbn [bind].
  rewrite Hc. reflexivity.
Qed.

(* ================================================================== *)
(** ** [loadConformer]: the energy *)

(** C9. The conformer [loadConformer] returns has the energy
    [0.0 * 0.001] kJ/mol, that is 0, whatever the log and the
    arguments are. *)
Theorem loadConformer_E0_zero
        (text : string) (symmetry : option Z) (spin optical : Z)
        (symfromlog : bool) (label : string) (c : Conformer) :
  loadConformer text symmetry spin optical symfromlog label = Ret c ->
  E0 c = (0.0 * 0.001, "kJ/mol"%string) /\ fst (E0 c) == 0.
Proof.
  unfold loadConformer.
  destruct (conformer_loop _ _ _ _); simpl; try discriminate.
  intros [= <-]. simpl. split; reflexivity.
Qed.

(* ================================================================== *)
(** ** [loadGeometry]: the two errors *)

Lemma read_atoms_aligned (rows : list string) (st st' : gstate) :
  aligned st -> read_atoms rows st = Ret st' -> aligned st'.
Proof.
  revert st; induction rows as [|line rows IH]; intros st Hst; simpl.
  - now intros [= <-].
  - destruct (contains dashes12 line); simpl; [now intros [= <-]|].
    destruct st as [[atom coord] flag].
    destruct (parse_atom_row line) as [[a c]| | |]; simpl; try discriminate.
    apply IH. simpl in *. rewrite !length_app. simpl. lia.
Qed.

Lemma find_geometry_aligned (log : list string) (n : nat) (st st' : gstate) :
  aligned st -> find_geometry log n st = Ret st' -> aligned st'.
Proof.
  revert st; induction n as [|i IH]; intros st Hst; simpl.
  - now intros [= <-].
  - destruct (contains geometry_banner (nth i log EmptyString)); [|now apply IH].
    destruct (read_atoms (skipn (i + 3) log) st) as [st1| | |] eqn:E; simpl;
      try discriminate.
    pose proof (read_atoms_aligned _ _ _ Hst E) as H1.
    destruct st1 as [[atom coord] flag].
    destruct flag; [now intros [= <-] | now apply IH].
Qed.

(** Without a geometry banner the search leaves its variables as they
    were. *)
Lemma find_geometry_no_banner (log : list string) (n : nat) (st : gstate) :
  Forall (fun l => contains geometry_banner l = false) log ->
  find_geometry log n st = Ret st.
Proof.
  intros Hlog. induction n as [|i IH]; simpl; [reflexivity|].
  assert (H : contains geometry_banner (nth i log EmptyString) = false).
  { destruct (nth_in_or_default i log EmptyString) as [Hin| ->];
      [|reflexivity].
    rewrite Forall_forall in Hlog. now apply Hlog. }
  now rewrite H.
Qed.

Lemma completed_job_iff (log : list string) :
  existsb (contains completion_banner) (rev log) = true <->
  Exists (fun l => contains completion_banner l = true) log.
Proof.
  rewrite existsb_exists, Exists_exists.
  split; intros (l & Hl & H); exists l; split; auto;
    [now apply in_rev | now apply in_rev in Hl].
Qed.

Lemma not_completed_job (log : list string) :
  Forall (fun l => contains completion_banner l = false) log ->
  existsb (contains completion_banner) (rev log) = false.
Proof.
  intros H. destruct (existsb _ _) eqn:E; [|reflexivity].
  apply completed_job_iff, Exists_exists in E. destruct E as (l & Hl & Hc).
  rewrite Forall_forall in H. now rewrite (H _ Hl) in Hc.
Qed.

(** C2. A log without the completion banner makes [loadGeometry] raise
    the "no completed job" [InputError], with the path in its message,
    whatever geometry blocks the log holds; a log with the banner in
    which the search of lines 142-154 ends with no atom (as it does
    when the log holds no geometry banner) makes it raise the "unable
    to read atoms" [InputError]. *)
Theorem loadGeometry_errors (path text : string) :
  (contains completion_banner text = false ->
   loadGeometry path text = Raise (InputError (msg_incomplete ++ path)))
  /\ (contains completion_banner text = true ->
      (forall coord flag,
          find_geometry (splitlines text) (length (splitlines text))
                        ([], [], false) = Ret ([], coord, flag) ->
          loadGeometry path text = Raise (InputError (msg_no_atoms ++ path)))
      /\ (contains geometry_banner text = false ->
          loadGeometry path text = Raise (InputError (msg_no_atoms ++ path)))).
Proof.
  unfold loadGeometry. split.
  - intros H. rewrite not_completed_job by now apply absent_splitlines.
    reflexivity.
  - intros H.
    apply (present_splitlines completion_banner text eq_refl) in H;
      [|discriminate].
    apply completed_job_iff in H. rewrite H. simpl.
    assert (Hzero : forall coord flag,
      find_geometry (splitlines text) (length (splitlines text))
                    ([], [], false) = Ret ([], coord, flag) ->
      ('(atom, coord, _) <- find_geometry (splitlines text)
                              (length (splitlines text)) ([], [], false) ;;
       '(mass, number) <- element_masses atom [] [] ;;
       coord <- numpy_array2 coord ;;
       if (length number =? 0)%nat || (length coord =? 0)%nat
          || (length mass =? 0)%nat
       then Raise (InputError (msg_no_atoms ++ path))
       else Ret (coord, number, mass))
      = Raise (InputError (msg_no_atoms ++ path))).
    { intros coord flag E. rewrite E. simpl.
      assert (Hal : aligned ([], coord, flag))
        by (apply (find_geometry_aligned _ _ ([], [], false) _ eq_refl E)).
      simpl in Hal. destruct coord; [reflexivity | discriminate]. }
    split; [exact Hzero|].
    intros Hg. apply (Hzero [] false).
    apply find_geometry_no_banner. now apply absent_splitlines.
Qed.

(* ================================================================== *)
(** ** [loadConformer]: where the modes come from *)

Lemma suffix_refl (log : list string) : suffix_of log log.
Proof. now exists []. Qed.

Lemma suffix_tail (x : string) (f log : list string) :
  suffix_of (x :: f) log -> suffix_of f log.
Proof. intros [pre ->]. exists (pre ++ [x]). now rewrite <- app_assoc. Qed.

Lemma suffix_in (x : string) (f log : list string) :
  suffix_of (x :: f) log -> In x log.
Proof. intros [pre ->]. apply in_or_app. right. now left. Qed.

Lemma suffix_trans (f' f log : list string) :
  suffix_of f' f -> suffix_of f log -> suffix_of f' log.
Proof. intros [p ->] [q ->]. exists (q ++ p). now rewrite app_assoc. Qed.

Lemma suffix_readline (f log : list string) :
  suffix_of f log -> suffix_of (snd (readline f)) log.
Proof.
  destruct f as [|x f]; simpl; [auto | apply suffix_tail].
Qed.

Lemma suffix_length (f log : list string) :
  suffix_of f log -> (length f <= length log)%nat.
Proof. intros [pre ->]. rewrite length_app. lia. Qed.

Lemma frequency_block_suffix (f : list string) (fr : list Q) (line : string)
      (raw : list Q) (f' : list string) :
  frequency_block fr line f = Ret (raw, f') -> suffix_of f' f.
Proof.
  revert fr line; induction f as [|x f IH]; intros fr line; simpl;
    destruct (contains _ line).
  - intros [= _ <-]. apply suffix_refl.
  - destruct (frequency_line line fr); discriminate.
  - intros [= _ <-]. apply suffix_refl.
  - destruct (frequency_line line fr) as [fr'| | |]; simpl; try discriminate.
    intros H. apply IH in H. destruct H as [pre ->]. now exists (x :: pre).
Qed.

Lemma mapM_length {A B : Type} (g : A -> outcome B) (l : list A) (l' : list B) :
  mapM g l = Ret l' -> length l' = length l.
Proof.
  revert l'; induction l as [|x l IH]; intros l'; simpl.
  - now intros [= <-].
  - destruct (g x); simpl; try discriminate.
    destruct (mapM g l) as [ys| | |]; simpl; try discriminate.
    intros [= <-]. simpl. now rewrite (IH ys eq_refl).
Qed.

Lemma lastn_length {A : Type} (n : nat) (l : list A) :
  (length (lastn n l) <= n)%nat.
Proof. unfold lastn. rewrite length_skipn. lia. Qed.

Lemma section_loop_cinv (log : list string) (fuel : nat) (symfromlog : bool)
      (st : cstate) (f : list string) (st' : cstate) (f' : list string) :
  suffix_of f log -> cinv log st ->
  section_loop fuel symfromlog st f = Ret (st', f') ->
  cinv log st' /\ suffix_of f' log.
Proof.
  revert st f; induction fuel as [|fuel IH]; intros st f Hf Hst; simpl;
    [discriminate|].
  destruct f as [|line f]; [intros [= <- <-]; auto|].
  pose proof (suffix_tail _ _ _ Hf) as Hf1.
  destruct Hst as (Hfr & Hmm & Hrot & Hin).
  destruct (contains "Thank you very much for using Q-Chem." line);
    [intros [= <- <-]; repeat split; auto|].
  destruct (contains "VIBRATIONAL FREQUENCIES (CM**-1)" line) eqn:Evf.
  { destruct (frequency_block [] line f) as [[raw f1]| | |] eqn:Eb; simpl;
      try discriminate.
    pose proof (frequency_block_suffix _ _ _ _ _ Eb) as Hs1.
    destruct (readline f1) as [l2 f2] eqn:Er.
    destruct (strip_imaginary raw) as [fs| | |] eqn:Es; simpl; try discriminate.
    apply IH.
    - replace f2 with (snd (readline f1)) by now rewrite Er.
      apply suffix_readline. now apply suffix_trans with f.
    - repeat split; simpl; auto.
      apply Forall_app; split; auto. constructor; [|constructor].
      exists raw, fs. repeat split; auto. now exists line, f, f1. }
  destruct (contains "Molecular Mass:" line).
  { destruct (index (split line) 2) as [tok| | |]; simpl; try discriminate.
    destruct (float tok) as [mass| | |]; simpl; try discriminate.
    apply IH; auto. repeat split; simpl; auto.
    apply Forall_app; split; auto. constructor; [|constructor]. now exists mass. }
  destruct (contains "Eigenvalues --" line) eqn:Eev.
  { destruct (mapM float (lastn 3 (split line))) as [inertia| | |] eqn:Em; simpl;
      try discriminate.
    apply IH; auto. repeat split; simpl; auto.
    right. exists line. repeat split; auto. now apply suffix_in with f. }
  destruct (contains "Rotational Symmetry Number is" line && symfromlog).
  { destruct (index_last (split line)) as [tok| | |]; simpl; try discriminate.
    destruct (float tok) as [v| | |]; simpl; try discriminate.
    apply IH; auto. repeat split; simpl; auto. }
  apply IH; auto. repeat split; auto.
Qed.

Lemma classify_rotor_three (st : cstate) (i0 i1 i2 : Q) :
  c_inertia st = [i0; i1; i2] ->
  let symmetry := match c_symmetry st with None => 1%Z | Some s => s end in
  classify_rotor st = Ret (add_rot st (rotor_of i0 i1 i2 symmetry) symmetry).
Proof.
  intros H. unfold classify_rotor, rotor_of. rewrite H.
  cbn [length Nat.eqb index nth_error bind].
  destruct (Qeq_bool i0 0.0) eqn:E.
  - cbn [list_remove]. rewrite E. reflexivity.
  - reflexivity.
Qed.

Lemma classify_rotor_returns (st st' : cstate) :
  (length (c_inertia st) <= 3)%nat ->
  classify_rotor st = Ret st' ->
  (c_inertia st = [] /\ st' = st)
  \/ exists i0 i1 i2, c_inertia st = [i0; i1; i2].
Proof.
  unfold classify_rotor.
  destruct (c_inertia st) as [|x [|y [|z [|w l]]]];
    cbn [length Nat.eqb index nth_error bind]; intros Hlen.
  - intros [= <-]. now left.
  - destruct (Qeq_bool x 0.0) eqn:E; [cbn [list_remove]; rewrite E|];
      discriminate.
  - destruct (Qeq_bool x 0.0) eqn:E; [cbn [list_remove]; rewrite E|];
      discriminate.
  - intros _. right. now exists x, y, z.
  - lia.
Qed.

Lemma classify_rotor_cinv (log : list string) (st st' : cstate) :
  cinv log st -> classify_rotor st = Ret st' -> cinv log st'.
Proof.
  intros (Hfr & Hmm & Hrot & Hin) H.
  assert (Hlen : (length (c_inertia st) <= 3)%nat).
  { destruct Hin as [-> | (line & _ & _ & Hm)]; [simpl; lia|].
    rewrite (mapM_length _ _ _ Hm). apply lastn_length. }
  destruct (classify_rotor_returns _ _ Hlen H) as [[_ ->] | (i0 & i1 & i2 & E)].
  - repeat split; auto.
  - rewrite (classify_rotor_three _ _ _ _ E) in H. injection H as <-.
    repeat split; simpl; auto.
    apply Forall_app; split; auto. constructor; [|constructor].
    destruct Hin as [Hin|Hin]; [congruence|]. rewrite E in Hin.
    now exists i0, i1, i2, (match c_symmetry st with None => 1%Z | Some s => s end).
Qed.

Lemma conformer_loop_cinv (log : list string) (fuel : nat) (symfromlog : bool)
      (st : cstate) (f : list string) (st' : cstate) :
  suffix_of f log -> cinv log st ->
  conformer_loop fuel symfromlog st f = Ret st' -> cinv log st'.
Proof.
  revert st f; induction fuel as [|fuel IH]; intros st f Hf Hst; simpl;
    [discriminate|].
  destruct f as [|line f]; [now intros [= <-]|].
  pose proof (suffix_tail _ _ _ Hf) as Hf1.
  assert (Hstep : forall st1 f1, cinv log st1 -> suffix_of f1 log ->
            (st2 <- classify_rotor st1 ;; conformer_loop fuel symfromlog st2 f1)
            = Ret st' -> cinv log st').
  { intros st1 f1 H1 Hs1.
    destruct (classify_rotor st1) as [st2| | |] eqn:Ec; simpl; try discriminate.
    apply IH; auto. now apply classify_rotor_cinv with st1. }
  destruct (contains "$molecule" line && (c_spin st =? 0)%Z).
  { destruct (readline f) as [l2 f2] eqn:Er.
    assert (Hf2 : suffix_of f2 log).
    { replace f2 with (snd (readline f)) by now rewrite Er.
      now apply suffix_readline. }
    destruct (length (split l2) =? 2)%nat; simpl; [|now apply Hstep].
    destruct (index (split l2) 1) as [tok| | |]; simpl; try discriminate.
    destruct (float tok) as [v| | |]; simpl; try discriminate.
    apply Hstep; auto; destruct Hst as (? & ? & ? & ?); repeat split; auto. }
  destruct (contains "VIBRATIONAL ANALYSIS" line); [|now apply Hstep].
  destruct (section_loop fuel symfromlog st f) as [[st1 f1]| | |] eqn:Es; simpl;
    try discriminate.
  destruct (section_loop_cinv _ _ _ _ _ _ _ Hf1 Hst Es). now apply Hstep.
Qed.

Lemma loadConformer_cinv (text : string) (symmetry : option Z)
      (spin optical : Z) (symfromlog : bool) (label : string) (c : Conformer) :
  loadConformer text symmetry spin optical symfromlog label = Ret c ->
  exists st, cinv (readlines text) st
             /\ modes c = c_mmass st ++ c_rot st ++ c_freq st.
Proof.
  unfold loadConformer.
  destruct (conformer_loop _ _ _ _) as [st| | |] eqn:E; simpl; try discriminate.
  intros [= <-]. exists st. split; [|reflexivity].
  apply (conformer_loop_cinv _ _ _ _ _ _ (suffix_refl _)) in E; auto.
  repeat split; simpl; auto.
Qed.

Lemma inertia_factor_nonneg : 0 <= inertia_factor.
Proof.
  unfold inertia_factor.
  setoid_replace ((a0 / 1e-10) ^ 2) with ((a0 / 1e-10) * (a0 / 1e-10))
    by (simpl; reflexivity).
  generalize (a0 / 1e-10). intros q. nra.
Qed.

Lemma rotor_of_classified (i0 i1 i2 : Q) (sym : Z) :
  (forall x, 0 <= x -> numpy_sqrt (x * x) == x) ->
  classified i0 i1 i2 sym (rotor_of i0 i1 i2 sym).
Proof.
  intros Hsqrt. unfold classified, rotor_of.
  destruct (Qeq_bool i0 0.0) eqn:E.
  - left. apply Qeq_bool_eq in E. split; [rewrite E; reflexivity|].
    split; [reflexivity|]. intros <- Hpos. apply Hsqrt.
    apply Qmult_le_0_compat; [exact Hpos | apply inertia_factor_nonneg].
  - right. apply Qeq_bool_neq in E. split; [|reflexivity].
    intros H. apply E. rewrite H. reflexivity.
Qed.

Lemma rotor_of_is_rotor (i0 i1 i2 : Q) (sym : Z) :
  is_rotor (rotor_of i0 i1 i2 sym) = true.
Proof. unfold rotor_of. now destruct (Qeq_bool i0 0.0). Qed.

(** The rotors of a state are in [c_rot], its oscillators in
    [c_freq]. *)
Lemma cinv_rotor (log : list string) (st : cstate) (m : mode) :
  cinv log st -> In m (c_mmass st ++ c_rot st ++ c_freq st) ->
  is_rotor m = true -> rot_ok log m.
Proof.
  intros (Hfr & Hmm & Hrot & _) Hin Hm.
  rewrite Forall_forall in Hfr, Hmm, Hrot.
  apply in_app_or in Hin. destruct Hin as [Hin|Hin].
  - destruct (Hmm _ Hin) as [mass ->]. discriminate.
  - apply in_app_or in Hin. destruct Hin as [Hin|Hin]; [now apply Hrot|].
    destruct (Hfr _ Hin) as (raw & fs & -> & _). discriminate.
Qed.

Lemma cinv_oscillator (log : list string) (st : cstate) (fs : list Q) :
  cinv log st ->
  In (HarmonicOscillator fs) (c_mmass st ++ c_rot st ++ c_freq st) ->
  exists raw, accumulated log raw /\ strip_imaginary raw = Ret fs.
Proof.
  intros (Hfr & Hmm & Hrot & _) Hin.
  rewrite Forall_forall in Hfr, Hmm, Hrot.
  apply in_app_or in Hin. destruct Hin as [Hin|Hin].
  - destruct (Hmm _ Hin) as [mass H]. discriminate.
  - apply in_app_or in Hin. destruct Hin as [Hin|Hin].
    + destruct (Hrot _ Hin) as (i0 & i1 & i2 & sym & H & _).
      pose proof (rotor_of_is_rotor i0 i1 i2 sym) as Hr. rewrite <- H in Hr.
      discriminate.
    + destruct (Hfr _ Hin) as (raw & fs' & [= ->] & Ha & Hs). now exists raw.
Qed.

Lemma strip_imaginary_spec (raw fs : list Q) :
  strip_imaginary raw = Ret fs -> raw <> [] /\ fs = finalized raw.
Proof.
  unfold strip_imaginary, finalized.
  destruct raw as [|x r]; cbn [index nth_error bind hd tl skipn];
    [discriminate|].
  destruct (Qlt_bool x 0.0); intros [= <-]; split; auto; discriminate.
Qed.

(** C1, as amended.  Lines 239-258 turn three recorded eigenvalues into
    one rotor, with symmetry number 1 when none was given or read:
    linear exactly when the first eigenvalue is zero, nonlinear with
    the three converted values otherwise.  Every rotor of a conformer
    that [loadConformer] returns is the rotor of the three numbers at
    the end of an eigenvalue line of the log, classified this way; for
    eigenvalues [0.0, a, a] with [a] not negative its moment is [a]
    times the conversion factor. *)
Theorem loadConformer_rotor_classification
        (text : string) (symmetry : option Z) (spin optical : Z)
        (symfromlog : bool) (label : string) :
  (forall x, 0 <= x -> numpy_sqrt (x * x) == x) ->
  (forall st i0 i1 i2,
      c_inertia st = [i0; i1; i2] ->
      exists m,
        classify_rotor st
        = Ret (add_rot st m (match c_symmetry st with
                             | None => 1%Z
                             | Some s => s
                             end))
        /\ classified i0 i1 i2 (match c_symmetry st with
                                | None => 1%Z
                                | Some s => s
                                end) m)
  /\ (forall c m,
         loadConformer text symmetry spin optical symfromlog label = Ret c ->
         In m (modes c) -> is_rotor m = true ->
         exists i0 i1 i2 sym,
           recorded (readlines text) [i0; i1; i2]
           /\ classified i0 i1 i2 sym m).
Proof.
  intros Hsqrt. split.
  - intros st i0 i1 i2 H. eexists. split.
    + apply (classify_rotor_three _ _ _ _ H).
    + now apply rotor_of_classified.
  - intros c m Hc Hin Hm.
    destruct (loadConformer_cinv _ _ _ _ _ _ _ Hc) as (st & Hinv & Hmodes).
    rewrite Hmodes in Hin.
    destruct (cinv_rotor _ _ _ Hinv Hin Hm) as (i0 & i1 & i2 & sym & -> & Hrec).
    exists i0, i1, i2, sym. split; [exact Hrec | now apply rotor_of_classified].
Qed.

(** C4, as amended.  Every frequency set of a conformer that
    [loadConformer] returns is what lines 211-212 make of the values a
    frequency block of the log accumulated: these values without the
    first one when it is negative, all of them otherwise.  The set has
    no negative value when no accumulated value after the first is
    negative. *)
Theorem loadConformer_frequencies
        (text : string) (symmetry : option Z) (spin optical : Z)
        (symfromlog : bool) (label : string) (c : Conformer) (fs : list Q) :
  loadConformer text symmetry spin optical symfromlog label = Ret c ->
  In (HarmonicOscillator fs) (modes c) ->
  exists raw,
    accumulated (readlines text) raw
    /\ raw <> []
    /\ fs = finalized raw
    /\ (Forall (fun x => 0 <= x) (tl raw) -> Forall (fun x => 0 <= x) fs).
Proof.
  intros Hc Hin.
  destruct (loadConformer_cinv _ _ _ _ _ _ _ Hc) as (st & Hinv & Hmodes).
  rewrite Hmodes in Hin.
  destruct (cinv_oscillator _ _ _ Hinv Hin) as (raw & Hacc & Hs).
  destruct (strip_imaginary_spec _ _ Hs) as [Hne ->].
  exists raw. repeat split; auto.
  unfold finalized. destruct raw as [|x r]; [congruence|]. cbn [hd tl].
  destruct (Qlt_bool x 0.0) eqn:E; [auto|].
  intros H. constructor; [|exact H].
  apply Qlt_bool_false_iff in E. lra.
Qed.

(* ================================================================== *)
(** ** Files given by their lines *)

Lemma clean_cons (c : ascii) (s : string) :
  clean (String c s) = true ->
  Ascii.eqb c LF = false /\ Ascii.eqb c CR = false /\ clean s = true.
Proof.
  simpl. rewrite !andb_true_iff, !negb_true_iff. intros [[H1 H2] H3]. auto.
Qed.

Lemma prefix_eol (s l : string) :
  clean s = true -> prefix s (eol l) = prefix s l.
Proof.
  revert l; induction s as [|x s IH]; intros l Hs.
  - now destruct l.
  - apply clean_cons in Hs. destruct Hs as (Hx & _ & Hs).
    destruct l as [|y l]; simpl.
    + destruct (ascii_dec x LF) as [->|_]; [|reflexivity].
      now rewrite Ascii.eqb_refl in Hx.
    + destruct (ascii_dec x y); [now apply IH | reflexivity].
Qed.

Lemma contains_eol (s l : string) :
  clean s = true -> contains s (eol l) = contains s l.
Proof.
  intros Hs. induction l as [|y l IH].
  - rewrite (contains_eq s (eol EmptyString)), (prefix_eol _ _ Hs).
    cbn [eol append]. rewrite (contains_eq s EmptyString).
    now destruct (prefix s EmptyString).
  - rewrite (contains_eq s (eol (String y l))), (prefix_eol _ _ Hs).
    cbn [eol append]. fold (eol l). rewrite IH.
    now rewrite (contains_eq s (String y l)).
Qed.

Lemma readlines_line (l text : string) :
  clean l = true ->
  readlines (l ++ String LF text) = eol l :: readlines text.
Proof.
  induction l as [|c l IH]; intros Hl; [reflexivity|].
  apply clean_cons in Hl. destruct Hl as (Hc & _ & Hl).
  cbn [append readlines]. rewrite Hc, (IH Hl). reflexivity.
Qed.

Lemma readlines_unlines (ls : list string) :
  Forall (fun l => clean l = true) ls ->
  readlines (unlines ls) = map eol ls.
Proof.
  induction 1 as [|l ls Hl _ IH]; [reflexivity|].
  cbn [unlines map]. now rewrite (readlines_line _ _ Hl), IH.
Qed.

Lemma splitlines_line (l text : string) :
  clean l = true ->
  splitlines (l ++ String LF text) = l :: splitlines text.
Proof.
  induction l as [|c l IH]; intros Hl; [reflexivity|].
  apply clean_cons in Hl. destruct Hl as (Hc & Hc' & Hl).
  cbn [append splitlines]. rewrite Hc, Hc', (IH Hl). reflexivity.
Qed.

Lemma splitlines_unlines (ls : list string) :
  Forall (fun l => clean l = true) ls ->
  splitlines (unlines ls) = ls.
Proof.
  induction 1 as [|l ls Hl _ IH]; [reflexivity|].
  cbn [unlines]. now rewrite (splitlines_line _ _ Hl), IH.
Qed.

Lemma Forall_eol (s : string) (b : bool) (ls : list string) :
  clean s = true ->
  Forall (fun l => contains s l = b) ls ->
  Forall (fun l => contains s l = b) (map eol ls).
Proof.
  intros Hs H. apply Forall_map. revert H. apply Forall_impl.
  intros l Hl. now rewrite contains_eol.
Qed.

(** The delimiter of [getNumberOfAtoms] is one of [loadGeometry]. *)
Lemma dashes52_dashes12 (l : string) :
  contains dashes52 l = true -> contains dashes12 l = true.
Proof.
  rewrite !contains_spec. intros (a & b & ->).
  exists a, ("----------------------------------------" ++ b)%string.
  reflexivity.
Qed.

(* ================================================================== *)
(** ** [getNumberOfAtoms] on a closed geometry block *)

Lemma count_atom_rows_block (d : string) (post rows : list string) :
  contains dashes52 d = true ->
  Forall (fun l => contains dashes52 l = false) rows ->
  forall (N : nat) (line : string) (f : list string),
    line :: f = rows ++ d :: post ->
    count_atom_rows N line f = Ret ((N + length rows)%nat, post).
Proof.
  intros Hd Hrows. induction Hrows as [|r rows Hr _ IH]; intros N line f E.
  - injection E as -> ->. destruct post; simpl; rewrite Hd;
      now rewrite Nat.add_0_r.
  - injection E as -> ->.
    destruct (rows ++ d :: post) as [|line' f'] eqn:E'.
    + now destruct rows.
    + simpl. rewrite Hr. rewrite (IH (S N) line' f' eq_refl).
      do 2 f_equal. simpl. lia.
Qed.

Lemma getNumberOfAtoms_loop_skip (pre rest : list string) (fuel : nat) :
  Forall (fun l => contains geometry_banner l = false) pre ->
  getNumberOfAtoms_loop (length pre + fuel) 0 (pre ++ rest)
  = getNumberOfAtoms_loop fuel 0 rest.
Proof.
  induction 1 as [|l pre Hl _ IH]; [reflexivity|].
  cbn [length Nat.add app getNumberOfAtoms_loop Nat.eqb negb].
  now rewrite Hl.
Qed.

Lemma getNumberOfAtoms_single_block
      (pre post rows : list string) (b h1 h2 d : string) :
  Forall (fun l => contains geometry_banner l = false) pre ->
  contains geometry_banner b = true ->
  Forall (fun l => contains dashes52 l = false) rows ->
  contains dashes52 d = true ->
  rows <> [] ->
  let f := pre ++ b :: h1 :: h2 :: rows ++ d :: post in
  getNumberOfAtoms_loop (S (length f)) 0 f = Ret (length rows).
Proof.
  intros Hpre Hb Hrows Hd Hne f. subst f.
  replace (S (length (pre ++ b :: h1 :: h2 :: rows ++ d :: post)))
    with (length pre + S (length (b :: h1 :: h2 :: rows ++ d :: post)))%nat
    by (rewrite length_app; lia).
  rewrite (getNumberOfAtoms_loop_skip _ _ _ Hpre).
  cbn [getNumberOfAtoms_loop Nat.eqb negb]. rewrite Hb.
  cbn [andb skipn].
  destruct rows as [|r rows]; [congruence|].
  cbn [app readline].
  rewrite (count_atom_rows_block d post (r :: rows) Hd Hrows 0 r
             (rows ++ d :: post) eq_refl).
  cbn [bind length Nat.add getNumberOfAtoms_loop].
  destruct post; reflexivity.
Qed.

(* ================================================================== *)
(** ** [loadGeometry]: the search and the arrays *)

Lemma find_geometry_skip_back (front back : list string) (st : gstate) :
  Forall (fun l => contains geometry_banner l = false) back ->
  forall m, (m <= length back)%nat ->
  find_geometry (front ++ back) (length front + m) st
  = find_geometry (front ++ back) (length front) st.
Proof.
  intros Hback. induction m as [|m IH]; intros Hm.
  - now rewrite Nat.add_0_r.
  - rewrite Nat.add_succ_r. cbn [find_geometry].
    rewrite app_nth2_plus.
    assert (H : contains geometry_banner (nth m back EmptyString) = false).
    { rewrite Forall_forall in Hback. apply Hback, nth_In. lia. }
    rewrite H. apply IH. lia.
Qed.

Lemma element_masses_spec (atom : list string) (elems : list (Q * Z)) :
  mapM get_element_mass atom = Ret elems ->
  forall mass number,
    element_masses atom mass number
    = Ret (mass ++ map fst elems, number ++ map snd elems).
Proof.
  revert elems; induction atom as [|a atom IH]; intros elems.
  - intros [= <-] mass number. simpl. now rewrite !app_nil_r.
  - cbn [mapM element_masses].
    destruct (get_element_mass a) as [[m z]| | |]; cbn [bind]; try discriminate.
    destruct (mapM get_element_mass atom) as [es| | |]; cbn [bind];
      try discriminate.
    intros [= <-] mass number. rewrite (IH es eq_refl).
    cbn [map fst snd]. now rewrite <- !app_assoc.
Qed.

Lemma numpy_array2_rectangular (n : nat) (rows : list (list Q)) :
  Forall (fun r => length r = n) rows -> numpy_array2 rows = Ret rows.
Proof.
  destruct 1 as [|r rows Hr Hrows]; [reflexivity|]. unfold numpy_array2.
  assert (H : forallb (fun r' => (length r' =? length r)%nat) rows = true).
  { apply forallb_forall. rewrite Forall_forall in Hrows. intros r' Hr'.
    apply Nat.eqb_eq. rewrite Hr. now apply Hrows. }
  now rewrite H.
Qed.

(* ================================================================== *)
(** ** [loadForceConstantMatrix] *)

Lemma for_range_from_inv {St : Type} (P : St -> Prop)
      (body : nat -> St -> outcome St) :
  (forall i s s', P s -> body i s = Ret s' -> P s') ->
  forall n i s s', P s -> for_range_from i n body s = Ret s' -> P s'.
Proof.
  intros Hbody. induction n as [|n IH]; intros i s s' Hs; simpl.
  - now intros [= <-].
  - destruct (body i s) as [s1| | |] eqn:E; simpl; try discriminate.
    apply IH. now apply (Hbody i s).
Qed.

Lemma list_set_length {A : Type} (l : list A) (i : nat) (v : A) (l' : list A) :
  list_set l i v = Some l' -> length l' = length l.
Proof.
  revert i l'; induction l as [|x l IH]; intros i l'; simpl; [discriminate|].
  destruct i as [|i]; [now intros [= <-]|].
  destruct (list_set l i v) as [l1|] eqn:E; [|discriminate].
  intros [= <-]. simpl. now rewrite (IH _ _ E).
Qed.

Lemma list_set_Forall {A : Type} (P : A -> Prop) (l : list A) (i : nat) (v : A)
      (l' : list A) :
  Forall P l -> P v -> list_set l i v = Some l' -> Forall P l'.
Proof.
  intros Hl Hv. revert i l'; induction Hl as [|x l Hx Hl IH]; intros i l';
    simpl; [discriminate|].
  destruct i as [|i]; [intros [= <-]; now constructor|].
  destruct (list_set l i v) as [l1|] eqn:E; [|discriminate].
  intros [= <-]. constructor; [exact Hx | now apply (IH i)].
Qed.

Lemma matrix_set_square (n : nat) (F F' : matrix) (j c : nat) (v : Q) :
  square n F -> matrix_set F j c v = Ret F' -> square n F'.
Proof.
  intros [Hlen Hrows]. unfold matrix_set, index, setitem.
  destruct (nth_error F j) as [row|] eqn:Ej; simpl; [|discriminate].
  destruct (list_set row c v) as [row'|] eqn:Er; simpl; [|discriminate].
  destruct (list_set F j row') as [F1|] eqn:EF; simpl; [|discriminate].
  intros [= <-]. split.
  - now rewrite (list_set_length _ _ _ _ EF).
  - apply (list_set_Forall _ F j row' F1 Hrows); [|exact EF].
    rewrite (list_set_length _ _ _ _ Er).
    rewrite Forall_forall in Hrows. apply Hrows.
    now apply nth_error_In with j.
Qed.

Lemma numpy_zeros_square (n : nat) : square n (numpy_zeros n n).
Proof.
  unfold square, numpy_zeros. split; [apply repeat_length|].
  apply Forall_forall. intros row H. apply repeat_spec in H. subst.
  apply repeat_length.
Qed.

Lemma matrix_scale_square (n : nat) (k : Q) (F : matrix) :
  square n F -> square n (matrix_scale k F).
Proof.
  intros [Hlen Hrows]. unfold square, matrix_scale. split.
  - now rewrite length_map.
  - apply Forall_map. revert Hrows. apply Forall_impl.
    intros row H. now rewrite length_map.
Qed.

(** What holds of the matrix and the file position while a block is
    read. *)
Lemma fill_hessian_inv (Nrows : nat) (f : list string) (F : matrix)
      (f' : list string) :
  fill_hessian Nrows f = Ret (F, f') -> square Nrows F /\ suffix_of f' f.
Proof.
  unfold fill_hessian, for_range. intros H.
  apply (for_range_from_inv
           (fun s : matrix * list string =>
              square Nrows (fst s) /\ suffix_of (snd s) f)) in H;
    [exact H | | split; [apply numpy_zeros_square | apply suffix_refl]].
  clear. intros i [F f0] s' [HF Hf0] H. cbn [fst snd] in *.
  destruct (readline f0) as [hd f1] eqn:Er.
  assert (Hf1 : suffix_of f1 f).
  { replace f1 with (snd (readline f0)) by now rewrite Er.
    now apply suffix_readline. }
  apply (for_range_from_inv
           (fun s : matrix * list string =>
              square Nrows (fst s) /\ suffix_of (snd s) f)) in H;
    [exact H | | now split].
  clear - float_of. intros j [F1 f2] s1 [HF1 Hf2] H. cbn [fst snd] in *.
  destruct (readline f2) as [line f3] eqn:Er.
  destruct (read_hessian_row i j (split line) F1) as [F2| | |] eqn:Erow;
    cbn [bind] in H; try discriminate.
  injection H as <-. cbn [fst snd]. split.
  - unfold read_hessian_row, for_range in Erow.
    apply (for_range_from_inv (square Nrows)) in Erow; [exact Erow | | exact HF1].
    intros k F3 F4 HF3 Hk.
    destruct (index (split line) (k + 1)) as [tok| | |]; cbn [bind] in Hk;
      try discriminate.
    destruct (float tok) as [v| | |]; cbn [bind] in Hk; try discriminate.
    now apply (matrix_set_square Nrows F3 F4 j (i * 6 + k) v).
  - replace f3 with (snd (readline f2)) by now rewrite Er.
    now apply suffix_readline.
Qed.

Lemma hessian_loop_no_banner (f : list string) (Nrows : nat) (F : option matrix) :
  Forall (fun l => is_hessian_banner l = false) f ->
  forall fuel, (length f < fuel)%nat -> hessian_loop fuel Nrows F f = Ret F.
Proof.
  induction 1 as [|l f Hl _ IH]; intros fuel Hfuel.
  - destruct fuel; [lia | reflexivity].
  - destruct fuel as [|fuel]; [lia|]. simpl in *. rewrite Hl. apply IH. lia.
Qed.

(** The matrix the loop ends with is the one it began with, no banner
    having been met, or the block after a banner that no banner
    follows. *)
Lemma hessian_loop_last (Nrows fuel : nat) (F0 : option matrix)
      (f : list string) (R : option matrix) :
  hessian_loop fuel Nrows F0 f = Ret R ->
  (R = F0 /\ Forall (fun l => is_hessian_banner l = false) f)
  \/ exists pre b post F rest,
      f = pre ++ b :: post
      /\ is_hessian_banner b = true
      /\ fill_hessian Nrows post = Ret (F, rest)
      /\ R = Some (matrix_scale hessian_factor F)
      /\ Forall (fun l => is_hessian_banner l = false) rest.
Proof.
  revert F0 f; induction fuel as [|fuel IH]; intros F0 f; simpl;
    [discriminate|].
  destruct f as [|line f]; [intros [= <-]; now left|].
  destruct (is_hessian_banner line) eqn:Eb.
  - unfold read_hessian.
    destruct (fill_hessian Nrows f) as [[F f1]| | |] eqn:Ef; cbn [bind];
      try discriminate.
    intros H. right. destruct (IH _ _ H) as [[-> Hno] | Hlater].
    + now exists [], line, f, F, f1.
    + destruct Hlater as (pre & b & post & F' & rest & -> & Hb & Hf & -> & Hno).
      destruct (fill_hessian_inv _ _ _ _ Ef) as [_ [p ->]].
      exists (line :: p ++ pre), b, post, F', rest.
      repeat split; auto. cbn [app]. now rewrite <- app_assoc.
  - intros H. destruct (IH _ _ H) as [[-> Hno] | Hlater].
    + left. split; [reflexivity | now constructor].
    + right.
      destruct Hlater as (pre & b & post & F' & rest & -> & Hb & Hf & -> & Hno).
      now exists (line :: pre), b, post, F', rest.
Qed.

Lemma loadForceConstantMatrix_square (text : string) (N : nat) (F : matrix) :
  getNumberOfAtoms text = Ret N ->
  loadForceConstantMatrix text = Ret (Some F) ->
  square (N * 3) F.
Proof.
  unfold loadForceConstantMatrix. intros ->. cbn [bind]. intros H.
  destruct (hessian_loop_last _ _ _ _ _ H) as [[[=] _] | Hlast].
  destruct Hlast as (pre & b & post & F' & rest & _ & _ & Hf & [= ->] & _).
  apply matrix_scale_square. now destruct (fill_hessian_inv _ _ _ _ Hf).
Qed.

(** The parts of C3 that hold: on a log whose atoms [getNumberOfAtoms]
    counts, [loadForceConstantMatrix] returns [None] when no line holds
    a Hessian banner, and a matrix it returns is the block after the
    last banner of the file (no banner follows that block), read into
    a fresh matrix and multiplied by the conversion factor. *)
Theorem loadForceConstantMatrix_last_block (text : string) (N : nat) :
  getNumberOfAtoms text = Ret N ->
  (contains "Final Hessian." text = false ->
   contains "Hessian of the SCF Energy" text = false ->
   loadForceConstantMatrix text = Ret None)
  /\ (forall M,
         loadForceConstantMatrix text = Ret (Some M) ->
         exists pre b post F rest,
           readlines text = pre ++ b :: post
           /\ is_hessian_banner b = true
           /\ fill_hessian (N * 3) post = Ret (F, rest)
           /\ M = matrix_scale hessian_factor F
           /\ Forall (fun l => is_hessian_banner l = false) rest).
Proof.
  intros HN. unfold loadForceConstantMatrix. rewrite HN. cbn [bind]. split.
  - intros H1 H2. apply hessian_loop_no_banner; [|lia].
    apply absent_readlines in H1, H2. rewrite Forall_forall in *.
    intros l Hl. unfold is_hessian_banner. now rewrite (H1 _ Hl), (H2 _ Hl).
  - intros M H.
    destruct (hessian_loop_last _ _ _ _ _ H) as [[[=] _] | Hlast].
    destruct Hlast as (pre & b & post & F & rest & E & Hb & Hf & [= ->] & Hno).
    now exists pre, b, post, F, rest.
Qed.

(** C3 on a log that stops inside its geometry block: the log holds no
    Hessian banner, and the call never returns, because the loop of
    lines 70-72 of [getNumberOfAtoms] has no test for the end of the
    file. *)
Theorem loadForceConstantMatrix_truncated_log :
  contains "Final Hessian." truncated_log = false
  /\ contains "Hessian of the SCF Energy" truncated_log = false
  /\ getNumberOfAtoms truncated_log = Diverge
  /\ loadForceConstantMatrix truncated_log = Diverge.
Proof. repeat split; vm_compute; reflexivity. Qed.

(* ================================================================== *)
(** ** The loops never run out of fuel

    The loops that call other loops are bounded by the number of lines
    left to read; the bound is never what ends them. *)

Lemma bind_has_fuel {A B : Type} (m : outcome A) (k : A -> outcome B) :
  has_fuel m -> (forall a, m = Ret a -> has_fuel (k a)) -> has_fuel (bind m k).
Proof.
  unfold has_fuel. destruct m; simpl; intros Hm Hk; try discriminate.
  - now apply Hk.
  - congruence.
Qed.

Lemma mapM_has_fuel {A B : Type} (g : A -> outcome B) (l : list A) :
  (forall x, has_fuel (g x)) -> has_fuel (mapM g l).
Proof.
  intros Hg. induction l as [|x l IH]; simpl; [discriminate|].
  apply bind_has_fuel; [apply Hg | intros y _].
  apply bind_has_fuel; [exact IH | discriminate].
Qed.

Lemma for_range_from_has_fuel {St : Type} (body : nat -> St -> outcome St) :
  (forall i s, has_fuel (body i s)) ->
  forall n i s, has_fuel (for_range_from i n body s).
Proof.
  intros Hb. induction n as [|n IH]; intros i s; simpl; [discriminate|].
  apply bind_has_fuel; [apply Hb | intros; apply IH].
Qed.

Lemma float_has_fuel (tok : string) : has_fuel (float tok).
Proof. unfold float. destruct (float_of tok); discriminate. Qed.

Lemma index_has_fuel {A : Type} (l : list A) (i : nat) : has_fuel (index l i).
Proof. unfold index. destruct (nth_error l i); discriminate. Qed.

Lemma index_last_has_fuel {A : Type} (l : list A) : has_fuel (index_last l).
Proof. destruct l; [discriminate | apply index_has_fuel]. Qed.

Lemma setitem_has_fuel {A : Type} (l : list A) (i : nat) (v : A) :
  has_fuel (setitem l i v).
Proof. unfold setitem. destruct (list_set l i v); discriminate. Qed.

Lemma list_remove_has_fuel (x : Q) (l : list Q) : has_fuel (list_remove x l).
Proof.
  induction l as [|y l IH]; simpl; [discriminate|].
  destruct (Qeq_bool y x); [discriminate|].
  apply bind_has_fuel; [exact IH | discriminate].
Qed.

Lemma readline_length (f : list string) :
  (length (snd (readline f)) <= length f)%nat.
Proof. destruct f; simpl; lia. Qed.

Lemma count_atom_rows_fuel (f : list string) (N : nat) (line : string) :
  has_fuel (count_atom_rows N line f)
  /\ forall N' f', count_atom_rows N line f = Ret (N', f') ->
                   (length f' <= length f)%nat.
Proof.
  revert N line; induction f as [|x f IH]; intros N line; simpl;
    destruct (contains dashes52 line); split; try discriminate.
  - intros N' f' [= _ <-]. simpl. lia.
  - intros N' f' [= _ <-]. simpl. lia.
  - apply IH.
  - intros N' f' H. apply IH in H. lia.
Qed.

Lemma getNumberOfAtoms_loop_fuel (fuel N : nat) (f : list string) :
  (length f < fuel)%nat -> has_fuel (getNumberOfAtoms_loop fuel N f).
Proof.
  revert N f; induction fuel as [|fuel IH]; intros N f Hf; [lia|].
  destruct f as [|line f]; cbn [getNumberOfAtoms_loop]; [discriminate|].
  simpl in Hf.
  destruct (negb (N =? 0)%nat); [discriminate|].
  destruct (contains geometry_banner line && (N =? 0)%nat);
    [|apply IH; lia].
  destruct (readline (skipn 2 f)) as [l2 f2] eqn:Er.
  assert (Hf2 : (length f2 <= length f)%nat).
  { replace f2 with (snd (readline (skipn 2 f))) by now rewrite Er.
    pose proof (readline_length (skipn 2 f)). rewrite length_skipn in *. lia. }
  destruct (count_atom_rows_fuel f2 N l2) as [H1 H2].
  apply bind_has_fuel; [exact H1|]. intros [N' f'] E.
  apply IH. specialize (H2 _ _ E). lia.
Qed.

Lemma getNumberOfAtoms_has_fuel (text : string) :
  has_fuel (getNumberOfAtoms text).
Proof. apply getNumberOfAtoms_loop_fuel. lia. Qed.

Lemma fill_hessian_has_fuel (Nrows : nat) (f : list string) :
  has_fuel (fill_hessian Nrows f).
Proof.
  unfold fill_hessian, for_range. apply for_range_from_has_fuel.
  intros i [F f0]. destruct (readline f0) as [hd f1].
  apply for_range_from_has_fuel. intros j [F1 f2].
  destruct (readline f2) as [line f3].
  apply bind_has_fuel; [|discriminate].
  unfold read_hessian_row, for_range. apply for_range_from_has_fuel.
  intros k F2. apply bind_has_fuel; [apply index_has_fuel | intros tok _].
  apply bind_has_fuel; [apply float_has_fuel | intros v _].
  unfold matrix_set.
  apply bind_has_fuel; [apply index_has_fuel | intros row _].
  apply bind_has_fuel; [apply setitem_has_fuel | intros row' _].
  apply setitem_has_fuel.
Qed.

Lemma hessian_loop_fuel (fuel Nrows : nat) (F : option matrix) (f : list string) :
  (length f < fuel)%nat -> has_fuel (hessian_loop fuel Nrows F f).
Proof.
  revert F f; induction fuel as [|fuel IH]; intros F f Hf; [lia|].
  destruct f as [|line f]; simpl; [discriminate|]. simpl in Hf.
  destruct (is_hessian_banner line); [|apply IH; lia].
  unfold read_hessian.
  destruct (fill_hessian Nrows f) as [[F1 f1]| | |] eqn:E; cbn [bind];
    try discriminate.
  - apply IH. destruct (fill_hessian_inv _ _ _ _ E) as [_ Hs].
    apply suffix_length in Hs. lia.
  - pose proof (fill_hessian_has_fuel Nrows f) as H. now rewrite E in H.
Qed.

Lemma loadForceConstantMatrix_has_fuel (text : string) :
  has_fuel (loadForceConstantMatrix text).
Proof.
  unfold loadForceConstantMatrix.
  apply bind_has_fuel; [apply getNumberOfAtoms_has_fuel | intros N _].
  apply hessian_loop_fuel. lia.
Qed.

Lemma frequency_line_has_fuel (line : string) (fr : list Q) :
  has_fuel (frequency_line line fr).
Proof.
  unfold frequency_line. destruct (contains frequency_marker line);
    [|discriminate].
  repeat match goal with
         | |- has_fuel (if ?c then _ else _) => destruct c
         | |- has_fuel (bind _ _) =>
             apply bind_has_fuel;
             [apply mapM_has_fuel, float_has_fuel | discriminate]
         end; discriminate.
Qed.

Lemma frequency_block_has_fuel (f : list string) (fr : list Q) (line : string) :
  has_fuel (frequency_block fr line f).
Proof.
  revert fr line; induction f as [|x f IH]; intros fr line; simpl;
    destruct (contains _ line); try discriminate;
    (apply bind_has_fuel; [apply frequency_line_has_fuel | intros fr' _]);
    [discriminate | apply IH].
Qed.

Lemma strip_imaginary_has_fuel (raw : list Q) : has_fuel (strip_imaginary raw).
Proof.
  unfold strip_imaginary.
  apply bind_has_fuel; [apply index_has_fuel | intros x _].
  destruct (Qlt_bool x 0.0); discriminate.
Qed.

Lemma section_loop_fuel (fuel : nat) (symfromlog : bool) (st : cstate)
      (f : list string) :
  (length f < fuel)%nat ->
  has_fuel (section_loop fuel symfromlog st f)
  /\ forall st' f', section_loop fuel symfromlog st f = Ret (st', f') ->
                    (length f' <= length f)%nat.
Proof.
  revert st f; induction fuel as [|fuel IH]; intros st f Hf; [lia|].
  destruct f as [|line f]; cbn [section_loop].
  { split; [discriminate | intros st' f' [= _ <-]; lia]. }
  simpl in Hf.
  assert (Hrec : forall st1 f1, (length f1 <= length f)%nat ->
            has_fuel (section_loop fuel symfromlog st1 f1)
            /\ forall st' f', section_loop fuel symfromlog st1 f1 = Ret (st', f') ->
                              (length f' <= length (line :: f))%nat).
  { intros st1 f1 H1. destruct (IH st1 f1) as [Ha Hb]; [lia|].
    split; [exact Ha|]. intros st' f' E. specialize (Hb _ _ E). simpl. lia. }
  destruct (contains "Thank you very much for using Q-Chem." line).
  { split; [discriminate | intros st' f' [= _ <-]; simpl; lia]. }
  destruct (contains "VIBRATIONAL FREQUENCIES (CM**-1)" line).
  { destruct (frequency_block [] line f) as [[raw f1]| | |] eqn:Eb; cbn [bind];
      try (split; discriminate).
    - pose proof (suffix_length _ _ (frequency_block_suffix _ _ _ _ _ Eb)) as H1.
      pose proof (readline_length f1) as H2.
      destruct (readline f1) as [l2 f2]. cbn [snd] in H2.
      destruct (strip_imaginary raw) as [fs| | |] eqn:Es; cbn [bind];
        try (split; discriminate).
      + apply Hrec. lia.
      + pose proof (strip_imaginary_has_fuel raw) as H. now rewrite Es in H.
    - pose proof (frequency_block_has_fuel f [] line) as H. now rewrite Eb in H. }
  destruct (contains "Molecular Mass:" line).
  { destruct (index (split line) 2) as [tok| | |] eqn:Ei; cbn [bind];
      try (split; discriminate);
      [|pose proof (index_has_fuel (split line) 2) as H; now rewrite Ei in H].
    destruct (float tok) as [mass| | |] eqn:Ef; cbn [bind];
      try (split; discriminate);
      [|pose proof (float_has_fuel tok) as H; now rewrite Ef in H].
    apply Hrec. lia. }
  destruct (contains "Eigenvalues --" line).
  { destruct (mapM float (lastn 3 (split line))) as [inertia| | |] eqn:Em;
      cbn [bind]; try (split; discriminate);
      [|pose proof (mapM_has_fuel float (lastn 3 (split line)) float_has_fuel)
          as H; now rewrite Em in H].
    apply Hrec. lia. }
  destruct (contains "Rotational Symmetry Number is" line && symfromlog).
  { destruct (index_last (split line)) as [tok| | |] eqn:Ei; cbn [bind];
      try (split; discriminate);
      [|pose proof (index_last_has_fuel (split line)) as H; now rewrite Ei in H].
    destruct (float tok) as [v| | |] eqn:Ef; cbn [bind];
      try (split; discriminate);
      [|pose proof (float_has_fuel tok) as H; now rewrite Ef in H].
    apply Hrec. lia. }
  apply Hrec. lia.
Qed.

Lemma convert_inertia_has_fuel (n : nat) (inertia : list Q) :
  has_fuel (convert_inertia n inertia).
Proof.
  unfold convert_inertia, for_range. apply for_range_from_has_fuel.
  intros i l. apply bind_has_fuel; [apply index_has_fuel | intros x _].
  apply setitem_has_fuel.
Qed.

Lemma classify_rotor_has_fuel (st : cstate) : has_fuel (classify_rotor st).
Proof.
  unfold classify_rotor. destruct (_ =? 0)%nat; [discriminate|].
  apply bind_has_fuel; [apply index_has_fuel | intros i0 _].
  destruct (Qeq_bool i0 0.0).
  - apply bind_has_fuel; [apply list_remove_has_fuel | intros l1 _].
    apply bind_has_fuel; [apply convert_inertia_has_fuel | intros l2 _].
    apply bind_has_fuel; [apply index_has_fuel | intros x0 _].
    apply bind_has_fuel; [apply index_has_fuel | discriminate].
  - apply bind_has_fuel; [apply convert_inertia_has_fuel | discriminate].
Qed.

Lemma conformer_loop_fuel (fuel : nat) (symfromlog : bool) (st : cstate)
      (f : list string) :
  (length f < fuel)%nat -> has_fuel (conformer_loop fuel symfromlog st f).
Proof.
  revert st f; induction fuel as [|fuel IH]; intros st f Hf; [lia|].
  destruct f as [|line f]; cbn [conformer_loop]; [discriminate|].
  simpl in Hf.
  assert (Hstep : forall st1 f1, (length f1 <= length f)%nat ->
            has_fuel (st2 <- classify_rotor st1 ;;
                      conformer_loop fuel symfromlog st2 f1)).
  { intros st1 f1 H1.
    apply bind_has_fuel; [apply classify_rotor_has_fuel | intros st2 _].
    apply IH. lia. }
  apply bind_has_fuel.
  - destruct (contains "$molecule" line && (c_spin st =? 0)%Z).
    + destruct (readline f) as [l2 f2].
      destruct (length (split l2) =? 2)%nat; [|discriminate].
      apply bind_has_fuel; [apply index_has_fuel | intros tok _].
      apply bind_has_fuel; [apply float_has_fuel | discriminate].
    + destruct (contains "VIBRATIONAL ANALYSIS" line); [|discriminate].
      apply section_loop_fuel. lia.
  - intros [st1 f1] E. apply Hstep.
    destruct (contains "$molecule" line && (c_spin st =? 0)%Z).
    + pose proof (readline_length f) as Hr.
      destruct (readline f) as [l2 f2]. cbn [snd] in Hr.
      destruct (length (split l2) =? 2)%nat; [|now injection E as _ <-].
      destruct (index (split l2) 1) as [tok| | |]; cbn [bind] in E;
        try discriminate.
      destruct (float tok) as [v| | |]; cbn [bind] in E; try discriminate.
      now injection E as _ <-.
    + destruct (contains "VIBRATIONAL ANALYSIS" line);
        [|injection E as _ <-; lia].
      destruct (section_loop_fuel fuel symfromlog st f) as [_ H]; [lia|].
      now apply (H st1 f1).
Qed.

Lemma loadConformer_has_fuel (text : string) (symmetry : option Z)
      (spin optical : Z) (symfromlog : bool) (label : string) :
  has_fuel (loadConformer text symmetry spin optical symfromlog label).
Proof.
  unfold loadConformer.
  apply bind_has_fuel; [apply conformer_loop_fuel; lia | discriminate].
Qed.

Lemma scan_rows_fuel (f : list string) (Vlist angle : list Q) (line : string) :
  has_fuel (scan_rows Vlist angle line f)
  /\ forall V a f', scan_rows Vlist angle line f = Ret (V, a, f') ->
                    (length f' <= length f)%nat.
Proof.
  revert Vlist angle line; induction f as [|x f IH]; intros Vlist angle line;
    cbn [scan_rows]; destruct (contains dashes17 line).
  - split; [discriminate | intros V a f' [= _ _ <-]; lia].
  - split.
    + apply bind_has_fuel; [apply mapM_has_fuel, float_has_fuel | intros vs _].
      apply bind_has_fuel; [apply index_has_fuel | intros a _].
      apply bind_has_fuel; [apply index_has_fuel | discriminate].
    + intros V a f'. destruct (mapM float (split line)) as [vs| | |];
        cbn [bind]; try discriminate.
      destruct (index vs 0); cbn [bind]; try discriminate.
      destruct (index vs 1); cbn [bind]; discriminate.
  - split; [discriminate | intros V a f' [= _ _ <-]; lia].
  - split.
    + apply bind_has_fuel; [apply mapM_has_fuel, float_has_fuel | intros vs _].
      apply bind_has_fuel; [apply index_has_fuel | intros a _].
      apply bind_has_fuel; [apply index_has_fuel | intros v _]. apply IH.
    + intros V a f'. destruct (mapM float (split line)) as [vs| | |];
        cbn [bind]; try discriminate.
      destruct (index vs 0); cbn [bind]; try discriminate.
      destruct (index vs 1); cbn [bind]; try discriminate.
      intros H. apply IH in H. simpl. lia.
Qed.

Lemma scan_loop_fuel (fuel : nat) (Vlist angle : list Q) (line : string)
      (f : list string) :
  (length f < fuel)%nat -> has_fuel (scan_loop fuel Vlist angle line f).
Proof.
  revert Vlist angle line f; induction fuel as [|fuel IH];
    intros Vlist angle line f Hf; [lia|].
  cbn [scan_loop].
  assert (Hnext : forall V a f1, (length f1 <= length f)%nat ->
            has_fuel (match f1 with
                      | [] => Ret (V, a)
                      | line :: f =>
                          if contains "SCF failed to converge" line
                          then Ret (V, a)
                          else scan_loop fuel V a line f
                      end)).
  { intros V a [|l1 f1] H1; [discriminate|].
    destruct (contains _ l1); [discriminate|]. apply IH. simpl in H1. lia. }
  destruct (contains "Summary of potential scan:" line).
  - pose proof (readline_length f) as Hr.
    destruct (readline f) as [l2 f2]. cbn [snd] in Hr.
    destruct (scan_rows_fuel f2 Vlist angle l2) as [H1 H2].
    apply bind_has_fuel; [exact H1|]. intros [[V a] f3] E.
    apply Hnext. specialize (H2 _ _ _ E). lia.
  - cbn [bind]. now apply Hnext.
Qed.

Lemma read_scan_has_fuel (text : string) : has_fuel (read_scan text).
Proof.
  unfold read_scan. destruct (readlines text) as [|line f]; [discriminate|].
  apply scan_loop_fuel. lia.
Qed.

(* ================================================================== *)
(** ** The concrete collaborators *)

#[local] Set Warnings "-deprecated".

Lemma Qred_coprime (n : Z) (d : positive) :
  Z.gcd n (Z.pos d) = 1%Z -> Qred (n # d) = n # d.
Proof.
  intros H. pose proof (gcd_Qred (n # d)) as Hg.
  pose proof (Qred_correct (n # d)) as Hc.
  destruct (Qred (n # d)) as [n' d']. unfold Qeq in Hc. simpl in Hg, Hc.
  destruct (Znumtheory.rel_prime_cross_prod n' (Z.pos d') n (Z.pos d))
    as [-> Hd]; try lia.
  - now apply Znumtheory.Zgcd_1_rel_prime.
  - now apply Znumtheory.Zgcd_1_rel_prime.
  - now injection Hd as ->.
Qed.

(** [sqrt_exact] undoes the squaring of a rational that is not
    negative. *)
Lemma sqrt_exact_square (x : Q) : 0 <= x -> sqrt_exact (x * x) == x.
Proof.
  intros Hx. unfold sqrt_exact.
  pose proof (gcd_Qred x) as Hg. pose proof (Qred_correct x) as Hr.
  assert (Hsq : Qred (x * x) = Qred (Qred x * Qred x))
    by (apply Qred_complete; now rewrite Hr).
  assert (Hx' : 0 <= Qred x) by now rewrite Hr.
  rewrite Hsq. apply Qeq_trans with (Qred x); [|exact Hr].
  clear Hr Hsq Hx.
  destruct (Qred x) as [p q]. cbn [Qnum Qden] in Hg.
  assert (Hp : (0 <= p)%Z) by (unfold Qle in Hx'; simpl in Hx'; lia).
  unfold Qmult. cbn [Qnum Qden].
  rewrite Qred_coprime.
  - cbn [Qnum Qden]. rewrite (Z.sqrt_square p Hp).
    assert (Hq : Pos.sqrt (q * q) = q).
    { assert (H : Z.sqrt (Z.pos q * Z.pos q) = Z.pos q)
        by (apply Z.sqrt_square; lia).
      simpl in H. now injection H. }
    rewrite Hq. reflexivity.
  - apply Znumtheory.Zgcd_1_rel_prime in Hg.
    apply Znumtheory.Zgcd_1_rel_prime.
    assert (H1 : Znumtheory.rel_prime p (Z.pos q * Z.pos q))
      by now apply Znumtheory.rel_prime_mult.
    apply Znumtheory.rel_prime_sym in H1.
    apply Znumtheory.rel_prime_sym.
    rewrite Pos2Z.inj_mul. now apply Znumtheory.rel_prime_mult.
Qed.

(* ================================================================== *)
(** ** More on [getNumberOfAtoms] and [loadForceConstantMatrix] *)

(** A log without a geometry banner has no atoms: [getNumberOfAtoms]
    returns 0 and raises nothing. *)
Theorem getNumberOfAtoms_no_block (text : string) :
  contains geometry_banner text = false -> getNumberOfAtoms text = Ret 0%nat.
Proof.
  intros H. apply absent_readlines in H. unfold getNumberOfAtoms.
  rewrite <- (app_nil_r (readlines text)) at 2.
  replace (S (length (readlines text)))
    with (length (readlines text) + 1)%nat by lia.
  now rewrite (getNumberOfAtoms_loop_skip _ _ _ H).
Qed.

(** The atom count is the number of rows of the first geometry block
    that has rows, whatever follows its delimiter. *)
Theorem getNumberOfAtoms_first_block
        (text : string) (pre post rows : list string) (b h1 h2 d : string) :
  readlines text = pre ++ b :: h1 :: h2 :: rows ++ d :: post ->
  Forall (fun l => contains geometry_banner l = false) pre ->
  contains geometry_banner b = true ->
  Forall (fun l => contains dashes52 l = false) rows ->
  contains dashes52 d = true ->
  rows <> [] ->
  getNumberOfAtoms text = Ret (length rows).
Proof.
  intros E Hpre Hb Hrows Hd Hne. unfold getNumberOfAtoms. rewrite E.
  now apply getNumberOfAtoms_single_block.
Qed.

Lemma count_atom_rows_open (f : list string) (N : nat) (line : string) :
  Forall (fun l => contains dashes52 l = false) (line :: f) ->
  count_atom_rows N line f = Diverge.
Proof.
  revert N line; induction f as [|x f IH]; intros N line H;
    inversion H as [|? ? Hl Hf]; subst; simpl; rewrite Hl; [reflexivity|].
  now apply IH.
Qed.

(** A log whose first geometry block is never closed (no line after
    its two header lines holds the delimiter of fifty-two dashes) makes
    [getNumberOfAtoms] loop for ever, and [loadForceConstantMatrix],
    which calls it first, with it. *)
Theorem getNumberOfAtoms_open_block
        (text : string) (pre rest : list string) (b : string) :
  readlines text = pre ++ b :: rest ->
  Forall (fun l => contains geometry_banner l = false) pre ->
  contains geometry_banner b = true ->
  Forall (fun l => contains dashes52 l = false) (skipn 2 rest) ->
  getNumberOfAtoms text = Diverge
  /\ loadForceConstantMatrix text = Diverge.
Proof.
  intros E Hpre Hb Hrest.
  assert (H : getNumberOfAtoms text = Diverge).
  { unfold getNumberOfAtoms. rewrite E.
    replace (S (length (pre ++ b :: rest)))
      with (length pre + S (length (b :: rest)))%nat
      by (rewrite length_app; lia).
    rewrite (getNumberOfAtoms_loop_skip _ _ _ Hpre).
    cbn [getNumberOfAtoms_loop Nat.eqb negb]. rewrite Hb. cbn [andb].
    destruct (skipn 2 rest) as [|r rows] eqn:Es; cbn [readline].
    - reflexivity.
    - now rewrite count_atom_rows_open. }
  split; [exact H|]. unfold loadForceConstantMatrix. now rewrite H.
Qed.

Lemma fill_hessian_zero (f : list string) : fill_hessian 0 f = Ret ([], f).
Proof. reflexivity. Qed.

Lemma hessian_loop_zero (f : list string) :
  forall (fuel : nat) (F : option matrix),
    (length f < fuel)%nat ->
    hessian_loop fuel 0 F f
    = Ret (if existsb is_hessian_banner f then Some [] else F).
Proof.
  induction f as [|line f IH]; intros fuel F Hfuel;
    (destruct fuel as [|fuel]; [simpl in Hfuel; lia|]); [reflexivity|].
  simpl in Hfuel. cbn [hessian_loop existsb].
  destruct (is_hessian_banner line); cbn [orb].
  - unfold read_hessian. rewrite fill_hessian_zero. cbn [bind matrix_scale map].
    rewrite IH by lia. now destruct (existsb is_hessian_banner f).
  - apply IH. lia.
Qed.

(** With no atom counted (no geometry block before the end of the
    log), a Hessian banner gives an empty matrix, not [None], and none
    of the values that follow the banner is read. *)
Theorem loadForceConstantMatrix_no_atoms (text line : string) :
  getNumberOfAtoms text = Ret 0%nat ->
  In line (readlines text) ->
  is_hessian_banner line = true ->
  loadForceConstantMatrix text = Ret (Some []).
Proof.
  intros HN Hin Hb. unfold loadForceConstantMatrix. rewrite HN. cbn [bind].
  cbn [Nat.mul]. rewrite hessian_loop_zero by lia.
  assert (H : existsb is_hessian_banner (readlines text) = true)
    by (apply existsb_exists; now exists line).
  now rewrite H.
Qed.

(* ================================================================== *)
(** ** More on [loadEnergy] and [loadZeroPointEnergy] *)

Lemma loadEnergy_loop_app (pre post : list string) (E : option Q) :
  loadEnergy_loop E (pre ++ post)
  = (E' <- loadEnergy_loop E pre ;; loadEnergy_loop E' post).
Proof.
  revert E; induction pre as [|l pre IH]; intros E; [reflexivity|].
  cbn [app loadEnergy_loop].
  destruct (contains "Final energy is" l); [|apply IH].
  destruct (index (split l) 3) as [tok| | |]; cbn [bind]; try reflexivity.
  destruct (float tok) as [v| | |]; cbn [bind]; try reflexivity. apply IH.
Qed.

Lemma loadEnergy_loop_well_marked (pre : list string) (E : option Q) :
  Forall (well_marked "Final energy is" 3) pre ->
  exists E', loadEnergy_loop E pre = Ret E'.
Proof.
  intros H. revert E; induction H as [|l pre Hl _ IH]; intros E;
    [now exists E|].
  cbn [loadEnergy_loop]. destruct (contains "Final energy is" l) eqn:Em;
    [|apply IH].
  destruct (Hl Em) as (tok & v & Ht & Hv).
  unfold index. rewrite Ht. cbn [bind]. unfold float. rewrite Hv. cbn [bind].
  apply IH.
Qed.

Lemma loadEnergy_loop_no_marker (post : list string) (E : option Q) :
  Forall (fun l => contains "Final energy is" l = false) post ->
  loadEnergy_loop E post = Ret E.
Proof.
  induction 1 as [|l post Hl _ IH]; [reflexivity|].
  cbn [loadEnergy_loop]. now rewrite Hl.
Qed.

(** [loadEnergy] returns the fourth token of the last line that holds
    "Final energy is", times [E_h] times [Na], the marked lines before
    it being well formed; without such a line it raises the "unable to
    find energy" [InputError]. *)
Theorem loadEnergy_last_match
        (text : string) (frequencyScaleFactor : Q) :
  (forall pre post line tok v,
      readlines text = pre ++ line :: post ->
      Forall (well_marked "Final energy is" 3) pre ->
      contains "Final energy is" line = true ->
      nth_error (split line) 3 = Some tok ->
      float_of tok = Some v ->
      Forall (fun l => contains "Final energy is" l = false) post ->
      loadEnergy text frequencyScaleFactor = Ret (v * E_h * Na))
  /\ (contains "Final energy is" text = false ->
      loadEnergy text frequencyScaleFactor = Raise (InputError msg_no_energy)).
Proof.
  unfold loadEnergy. split.
  - intros pre post line tok v E Hpre Hline Htok Hv Hpost.
    rewrite E, loadEnergy_loop_app.
    destruct (loadEnergy_loop_well_marked pre None Hpre) as [E1 ->].
    cbn [bind loadEnergy_loop]. rewrite Hline. unfold index. rewrite Htok.
    cbn [bind]. unfold float. rewrite Hv. cbn [bind].
    now rewrite (loadEnergy_loop_no_marker _ _ Hpost).
  - intros H. apply absent_readlines in H.
    now rewrite (loadEnergy_loop_no_marker _ _ H).
Qed.

(** A marked line that is not well formed makes [loadEnergy] raise,
    even when a well formed one follows: an [IndexError] when it has
    fewer than four tokens, a [ValueError] when the fourth is not a
    number. *)
Theorem loadEnergy_malformed_line
        (text : string) (frequencyScaleFactor : Q)
        (pre post : list string) (line : string) :
  readlines text = pre ++ line :: post ->
  Forall (well_marked "Final energy is" 3) pre ->
  contains "Final energy is" line = true ->
  ((length (split line) < 4)%nat ->
   loadEnergy text frequencyScaleFactor = Raise IndexError)
  /\ (forall tok, nth_error (split line) 3 = Some tok ->
                  float_of tok = None ->
                  loadEnergy text frequencyScaleFactor = Raise ValueError).
Proof.
  intros E Hpre Hline. unfold loadEnergy. rewrite E, loadEnergy_loop_app.
  destruct (loadEnergy_loop_well_marked pre None Hpre) as [E1 ->].
  cbn [bind loadEnergy_loop]. rewrite Hline. unfold index. split.
  - intros Hlen.
    assert (H : nth_error (split line) 3 = None) by (apply nth_error_None; lia).
    now rewrite H.
  - intros tok Htok Hv. rewrite Htok. cbn [bind]. unfold float. now rewrite Hv.
Qed.

Lemma loadZeroPointEnergy_loop_app (pre post : list string) (E : option Q) :
  loadZeroPointEnergy_loop E (pre ++ post)
  = (E' <- loadZeroPointEnergy_loop E pre ;; loadZeroPointEnergy_loop E' post).
Proof.
  revert E; induction pre as [|l pre IH]; intros E; [reflexivity|].
  cbn [app loadZeroPointEnergy_loop].
  destruct (contains "Zero point vibrational energy" l); [|apply IH].
  destruct (index (split l) 4) as [tok| | |]; cbn [bind]; try reflexivity.
  destruct (float tok) as [v| | |]; cbn [bind]; try reflexivity. apply IH.
Qed.

Lemma loadZeroPointEnergy_loop_well_marked (pre : list string) (E : option Q) :
  Forall (well_marked "Zero point vibrational energy" 4) pre ->
  exists E', loadZeroPointEnergy_loop E pre = Ret E'.
Proof.
  intros H. revert E; induction H as [|l pre Hl _ IH]; intros E;
    [now exists E|].
  cbn [loadZeroPointEnergy_loop].
  destruct (contains "Zero point vibrational energy" l) eqn:Em; [|apply IH].
  destruct (Hl Em) as (tok & v & Ht & Hv).
  unfold index. rewrite Ht. cbn [bind]. unfold float. rewrite Hv. cbn [bind].
  apply IH.
Qed.

Lemma loadZeroPointEnergy_loop_no_marker (post : list string) (E : option Q) :
  Forall (fun l => contains "Zero point vibrational energy" l = false) post ->
  loadZeroPointEnergy_loop E post = Ret E.
Proof.
  induction 1 as [|l post Hl _ IH]; [reflexivity|].
  cbn [loadZeroPointEnergy_loop]. now rewrite Hl.
Qed.

(** [loadZeroPointEnergy] returns the fifth token of the last line
    that holds "Zero point vibrational energy", times 4184, the marked
    lines before it being well formed; without such a line it raises
    the "unable to find zero-point energy" [InputError]. *)
Theorem loadZeroPointEnergy_last_match
        (text : string) (frequencyScaleFactor : Q) :
  (forall pre post line tok v,
      readlines text = pre ++ line :: post ->
      Forall (well_marked "Zero point vibrational energy" 4) pre ->
      contains "Zero point vibrational energy" line = true ->
      nth_error (split line) 4 = Some tok ->
      float_of tok = Some v ->
      Forall (fun l => contains "Zero point vibrational energy" l = false)
             post ->
      loadZeroPointEnergy text frequencyScaleFactor = Ret (v * 4184))
  /\ (contains "Zero point vibrational energy" text = false ->
      loadZeroPointEnergy text frequencyScaleFactor
      = Raise (InputError msg_no_zpe)).
Proof.
  unfold loadZeroPointEnergy. split.
  - intros pre post line tok v E Hpre Hline Htok Hv Hpost.
    rewrite E, loadZeroPointEnergy_loop_app.
    destruct (loadZeroPointEnergy_loop_well_marked pre None Hpre) as [E1 ->].
    cbn [bind loadZeroPointEnergy_loop]. rewrite Hline. unfold index.
    rewrite Htok. cbn [bind]. unfold float. rewrite Hv. cbn [bind].
    now rewrite (loadZeroPointEnergy_loop_no_marker _ _ Hpost).
  - intros H. apply absent_readlines in H.
    now rewrite (loadZeroPointEnergy_loop_no_marker _ _ H).
Qed.

(* ================================================================== *)
(** ** More on [loadConformer]: what the caller's arguments become *)

Lemma section_loop_frame (fuel : nat) (symfromlog : bool) (st : cstate)
      (f : list string) (st' : cstate) (f' : list string) :
  section_loop fuel symfromlog st f = Ret (st', f') ->
  c_spin st' = c_spin st
  /\ c_rot st' = c_rot st
  /\ (symfromlog = false -> c_symmetry st' = c_symmetry st).
Proof.
  revert st f; induction fuel as [|fuel IH]; intros st f; cbn [section_loop];
    [discriminate|].
  destruct f as [|line f]; [intros [= <- _]; auto|].
  destruct (contains "Thank you very much for using Q-Chem." line);
    [intros [= <- _]; auto|].
  destruct (contains "VIBRATIONAL FREQUENCIES (CM**-1)" line).
  { destruct (frequency_block [] line f) as [[raw f1]| | |]; cbn [bind];
      try discriminate.
    destruct (readline f1) as [l2 f2].
    destruct (strip_imaginary raw) as [fs| | |]; cbn [bind]; try discriminate.
    intros H. now apply IH in H. }
  destruct (contains "Molecular Mass:" line).
  { destruct (index (split line) 2) as [tok| | |]; cbn [bind]; try discriminate.
    destruct (float tok) as [mass| | |]; cbn [bind]; try discriminate.
    intros H. now apply IH in H. }
  destruct (contains "Eigenvalues --" line).
  { destruct (mapM float (lastn 3 (split line))) as [inertia| | |]; cbn [bind];
      try discriminate.
    intros H. now apply IH in H. }
  destruct symfromlog.
  - destruct (contains "Rotational Symmetry Number is" line); cbn [andb].
    + destruct (index_last (split line)) as [tok| | |]; cbn [bind];
        try discriminate.
      destruct (float tok) as [v| | |]; cbn [bind]; try discriminate.
      intros H. apply IH in H. cbn [set_symmetry c_spin c_rot] in H.
      destruct H as (H1 & H2 & _). repeat split; auto. discriminate.
    + intros H. apply IH in H. destruct H as (H1 & H2 & _).
      repeat split; auto. discriminate.
  - rewrite andb_false_r. intros H. now apply IH in H.
Qed.

Lemma classify_rotor_frame (st st' : cstate) :
  classify_rotor st = Ret st' ->
  c_spin st' = c_spin st
  /\ (st' = st
      \/ exists m, is_rotor m = true
                   /\ rotor_symmetry m = Some (default_symmetry (c_symmetry st))
                   /\ c_rot st' = c_rot st ++ [m]
                   /\ c_symmetry st' = Some (default_symmetry (c_symmetry st))).
Proof.
  unfold classify_rotor. fold (default_symmetry (c_symmetry st)).
  destruct (length (c_inertia st) =? 0)%nat; [intros [= <-]; auto|].
  destruct (index (c_inertia st) 0) as [i0| | |]; cbn [bind]; try discriminate.
  destruct (Qeq_bool i0 0.0).
  - destruct (list_remove 0.0 (c_inertia st)) as [l1| | |]; cbn [bind];
      try discriminate.
    destruct (convert_inertia 2 l1) as [l2| | |]; cbn [bind]; try discriminate.
    destruct (index l2 0) as [x0| | |]; cbn [bind]; try discriminate.
    destruct (index l2 1) as [x1| | |]; cbn [bind]; try discriminate.
    intros [= <-]. split; [reflexivity|]. right. eexists. now repeat split.
  - destruct (convert_inertia 3 (c_inertia st)) as [l3| | |]; cbn [bind];
      try discriminate.
    intros [= <-]. split; [reflexivity|]. right. eexists. now repeat split.
Qed.

(** One turn of the loop of lines 180-258, before the rotor is
    classified. *)
Lemma conformer_step_frame (fuel : nat) (symfromlog : bool) (st : cstate)
      (line : string) (f : list string) (st1 : cstate) (f1 : list string) :
  (if contains "$molecule" line && (c_spin st =? 0)%Z then
     let (line, f) := readline f in
     if (length (split line) =? 2)%nat then
       tok <- index (split line) 1 ;;
       v <- float tok ;;
       Ret (set_spin st (py_int v), f)
     else Ret (st, f)
   else if contains "VIBRATIONAL ANALYSIS" line then
     section_loop fuel symfromlog st f
   else Ret (st, f)) = Ret (st1, f1) ->
  (c_spin st <> 0%Z -> c_spin st1 = c_spin st)
  /\ c_rot st1 = c_rot st
  /\ (symfromlog = false -> c_symmetry st1 = c_symmetry st).
Proof.
  destruct (contains "$molecule" line && (c_spin st =? 0)%Z) eqn:Em.
  - apply andb_true_iff in Em. destruct Em as [_ Hz]. apply Z.eqb_eq in Hz.
    destruct (readline f) as [l2 f2].
    destruct (length (split l2) =? 2)%nat; [|intros [= <- _]; auto].
    destruct (index (split l2) 1) as [tok| | |]; cbn [bind]; try discriminate.
    destruct (float tok) as [v| | |]; cbn [bind]; try discriminate.
    intros [= <- _]. repeat split; auto. congruence.
  - destruct (contains "VIBRATIONAL ANALYSIS" line); [|intros [= <- _]; auto].
    intros H. apply section_loop_frame in H. destruct H as (H1 & H2 & H3).
    auto.
Qed.

Lemma conformer_loop_spin (fuel : nat) (symfromlog : bool) (st : cstate)
      (f : list string) (st' : cstate) :
  c_spin st <> 0%Z ->
  conformer_loop fuel symfromlog st f = Ret st' -> c_spin st' = c_spin st.
Proof.
  revert st f; induction fuel as [|fuel IH]; intros st f Hs;
    cbn [conformer_loop]; [discriminate|].
  destruct f as [|line f]; [now intros [= <-]|].
  match goal with
  | |- bind ?m _ = _ -> _ => destruct m as [[st1 f1]| | |] eqn:E
  end; cbn [bind]; try discriminate.
  apply conformer_step_frame in E. destruct E as (E1 & _ & _).
  destruct (classify_rotor st1) as [st2| | |] eqn:Ec; cbn [bind];
    try discriminate.
  apply classify_rotor_frame in Ec. destruct Ec as [Ec _].
  intros H. apply IH in H; [|rewrite Ec, E1; auto]. rewrite H, Ec. auto.
Qed.

(** The optical isomer count of the conformer is the caller's, and so
    is its spin multiplicity when the caller gave one that is not 0:
    the log is then never asked for it. *)
Theorem loadConformer_caller_arguments
        (text : string) (symmetry : option Z) (spin optical : Z)
        (symfromlog : bool) (label : string) (c : Conformer) :
  loadConformer text symmetry spin optical symfromlog label = Ret c ->
  opticalIsomers c = optical
  /\ (spin <> 0%Z -> spinMultiplicity c = spin).
Proof.
  unfold loadConformer.
  destruct (conformer_loop _ _ _ _) as [st| | |] eqn:E; cbn [bind];
    try discriminate.
  intros [= <-]. split; [reflexivity|]. intros Hs.
  now apply conformer_loop_spin in E.
Qed.

Lemma conformer_loop_sym_inv (dflt : Z) (fuel : nat) (st : cstate)
      (f : list string) (st' : cstate) :
  sym_inv dflt st ->
  conformer_loop fuel false st f = Ret st' -> sym_inv dflt st'.
Proof.
  revert st f; induction fuel as [|fuel IH]; intros st f Hs;
    cbn [conformer_loop]; [discriminate|].
  destruct f as [|line f]; [now intros [= <-]|].
  match goal with
  | |- bind ?m _ = _ -> _ => destruct m as [[st1 f1]| | |] eqn:E
  end; cbn [bind]; try discriminate.
  apply conformer_step_frame in E. destruct E as (_ & E2 & E3).
  specialize (E3 eq_refl).
  destruct (classify_rotor st1) as [st2| | |] eqn:Ec; cbn [bind];
    try discriminate.
  apply classify_rotor_frame in Ec.
  destruct Ec as [_ [-> | (m & _ & Hm & Hrot & Hsym)]].
  - apply IH. destruct Hs as [H1 H2]. split; [now rewrite E3 | now rewrite E2].
  - apply IH. destruct Hs as [H1 H2]. rewrite E3, H1 in Hm, Hsym. split.
    + now rewrite Hsym.
    + rewrite Hrot, E2. apply Forall_app. split; [exact H2|].
      now constructor.
Qed.

(** Without [symfromlog], every rotor of the conformer carries the
    symmetry number the caller gave, or 1 when the caller gave none:
    the symmetry number of the log is not read. *)
Theorem loadConformer_caller_symmetry
        (text : string) (symmetry : option Z) (spin optical : Z)
        (label : string) (c : Conformer) (m : mode) :
  loadConformer text symmetry spin optical false label = Ret c ->
  In m (modes c) -> is_rotor m = true ->
  rotor_symmetry m = Some (default_symmetry symmetry).
Proof.
  unfold loadConformer.
  destruct (conformer_loop _ _ _ _) as [st| | |] eqn:E; cbn [bind];
    try discriminate.
  intros [= <-]. cbn [modes]. intros Hin Hm.
  assert (Hinv : cinv (readlines text) st).
  { apply (conformer_loop_cinv _ _ _ _ _ _ (suffix_refl _)) in E; auto.
    repeat split; simpl; auto. }
  apply (conformer_loop_sym_inv (default_symmetry symmetry)) in E;
    [|split; [reflexivity | constructor]].
  destruct E as [_ Hrot]. rewrite Forall_forall in Hrot.
  destruct Hinv as (Hfr & Hmm & _ & _). rewrite Forall_forall in Hfr, Hmm.
  apply in_app_or in Hin. destruct Hin as [Hin|Hin].
  - destruct (Hmm _ Hin) as [mass ->]. discriminate.
  - apply in_app_or in Hin. destruct Hin as [Hin|Hin]; [now apply Hrot|].
    destruct (Hfr _ Hin) as (raw & fs & -> & _). discriminate.
Qed.

(* ================================================================== *)
(** ** More on [loadConformer]: the loops line by line *)

Lemma frequency_block_closed (std : string) (rest fl : list string) :
  contains "STANDARD THERMODYNAMIC QUANTITIES AT" std = true ->
  forall (fr : list Q) (line : string),
    Forall (fun l => contains "STANDARD THERMODYNAMIC QUANTITIES AT" l = false)
           (line :: fl) ->
    frequency_block fr line (fl ++ std :: rest)
    = (fr' <- frequencies_of fr (line :: fl) ;; Ret (fr', rest)).
Proof.
  intros Hstd. induction fl as [|l fl IH]; intros fr line H;
    inversion H as [|? ? Hl Hfl]; subst.
  - cbn [app frequency_block frequencies_of]. rewrite Hl.
    destruct (frequency_line line fr) as [fr'| | |]; cbn [bind]; try reflexivity.
    destruct rest; cbn [frequency_block]; now rewrite Hstd.
  - cbn [app frequency_block frequencies_of]. rewrite Hl.
    destruct (frequency_line line fr) as [fr'| | |]; cbn [bind]; try reflexivity.
    now rewrite (IH fr' l Hfl).
Qed.

Lemma frequency_block_open (fl : list string) :
  forall (fr fr' : list Q) (line : string),
    Forall (fun l => contains "STANDARD THERMODYNAMIC QUANTITIES AT" l = false)
           (line :: fl) ->
    frequencies_of fr (line :: fl) = Ret fr' ->
    frequency_block fr line fl = Diverge.
Proof.
  induction fl as [|l fl IH]; intros fr fr' line H;
    inversion H as [|? ? Hl Hfl]; subst;
    cbn [frequency_block frequencies_of]; rewrite Hl;
    destruct (frequency_line line fr) as [fr1| | |]; cbn [bind];
    try discriminate.
  - reflexivity.
  - intros E. now apply (IH fr1 fr' l).
Qed.

Lemma section_plain_false (symfromlog : bool) (line : string) :
  section_plain symfromlog line = true ->
  contains "Thank you very much for using Q-Chem." line = false
  /\ contains "VIBRATIONAL FREQUENCIES (CM**-1)" line = false
  /\ contains "Molecular Mass:" line = false
  /\ contains "Eigenvalues --" line = false
  /\ contains "Rotational Symmetry Number is" line && symfromlog = false.
Proof.
  unfold section_plain. rewrite !andb_true_iff, !negb_true_iff.
  intros [[[[H1 H2] H3] H4] H5]. auto.
Qed.

Lemma section_loop_skip (symfromlog : bool) (rest m : list string) :
  Forall (fun l => section_plain symfromlog l = true) m ->
  forall (fuel : nat) (st : cstate),
    (length m <= fuel)%nat ->
    section_loop fuel symfromlog st (m ++ rest)
    = section_loop (fuel - length m) symfromlog st rest.
Proof.
  induction 1 as [|l m Hl _ IH]; intros fuel st Hfuel.
  - now rewrite Nat.sub_0_r.
  - destruct fuel as [|fuel]; [simpl in Hfuel; lia|]. simpl in Hfuel.
    destruct (section_plain_false _ _ Hl) as (H1 & H2 & H3 & H4 & H5).
    cbn [app section_loop length Nat.sub]. rewrite H1, H2, H3, H4, H5.
    apply IH. lia.
Qed.

Lemma section_loop_thanks (fuel : nat) (symfromlog : bool) (st : cstate)
      (line : string) (f : list string) :
  (0 < fuel)%nat ->
  contains "Thank you very much for using Q-Chem." line = true ->
  section_loop fuel symfromlog st (line :: f) = Ret (st, f).
Proof.
  intros Hfuel H. destruct fuel; [lia|]. cbn [section_loop]. now rewrite H.
Qed.

Lemma section_loop_frequencies (fuel : nat) (symfromlog : bool) (st : cstate)
      (line : string) (f : list string) :
  (0 < fuel)%nat ->
  contains "Thank you very much for using Q-Chem." line = false ->
  contains "VIBRATIONAL FREQUENCIES (CM**-1)" line = true ->
  section_loop fuel symfromlog st (line :: f)
  = ('(frequencies, f) <- frequency_block [] line f ;;
     let (_, f) := readline f in
     frequencies <- strip_imaginary frequencies ;;
     section_loop (fuel - 1) symfromlog
                  (add_freq st (HarmonicOscillator frequencies)) f).
Proof.
  intros Hfuel H1 H2. destruct fuel; [lia|].
  cbn [section_loop Nat.sub]. rewrite H1, H2, Nat.sub_0_r. reflexivity.
Qed.

Lemma section_loop_mass (fuel : nat) (symfromlog : bool) (st : cstate)
      (line : string) (f : list string) (tok : string) (mass : Q) :
  (0 < fuel)%nat ->
  contains "Thank you very much for using Q-Chem." line = false ->
  contains "VIBRATIONAL FREQUENCIES (CM**-1)" line = false ->
  contains "Molecular Mass:" line = true ->
  nth_error (split line) 2 = Some tok ->
  float_of tok = Some mass ->
  section_loop fuel symfromlog st (line :: f)
  = section_loop (fuel - 1) symfromlog
                 (add_mmass st (IdealGasTranslation mass)) f.
Proof.
  intros Hfuel H1 H2 H3 Ht Hv. destruct fuel; [lia|].
  cbn [section_loop Nat.sub]. rewrite H1, H2, H3, Nat.sub_0_r.
  unfold index. rewrite Ht. cbn [bind]. unfold float. now rewrite Hv.
Qed.

Lemma section_loop_eigenvalues (fuel : nat) (symfromlog : bool) (st : cstate)
      (line : string) (f : list string) (inertia : list Q) :
  (0 < fuel)%nat ->
  contains "Thank you very much for using Q-Chem." line = false ->
  contains "VIBRATIONAL FREQUENCIES (CM**-1)" line = false ->
  contains "Molecular Mass:" line = false ->
  contains "Eigenvalues --" line = true ->
  mapM float (lastn 3 (split line)) = Ret inertia ->
  section_loop fuel symfromlog st (line :: f)
  = section_loop (fuel - 1) symfromlog (set_inertia st inertia) f.
Proof.
  intros Hfuel H1 H2 H3 H4 Hm. destruct fuel; [lia|].
  cbn [section_loop Nat.sub]. rewrite H1, H2, H3, H4, Hm, Nat.sub_0_r.
  reflexivity.
Qed.

Lemma section_loop_symmetry (fuel : nat) (symfromlog : bool) (st : cstate)
      (line : string) (f : list string) (tok : string) (v : Q) :
  (0 < fuel)%nat ->
  contains "Thank you very much for using Q-Chem." line = false ->
  contains "VIBRATIONAL FREQUENCIES (CM**-1)" line = false ->
  contains "Molecular Mass:" line = false ->
  contains "Eigenvalues --" line = false ->
  contains "Rotational Symmetry Number is" line = true ->
  index_last (split line) = Ret tok ->
  float_of tok = Some v ->
  section_loop fuel symfromlog st (line :: f)
  = section_loop (fuel - 1) symfromlog
                 (if symfromlog then set_symmetry st (py_int v) else st) f.
Proof.
  intros Hfuel H1 H2 H3 H4 H5 Ht Hv. destruct fuel; [lia|].
  cbn [section_loop Nat.sub]. rewrite H1, H2, H3, H4, H5, Nat.sub_0_r.
  destruct symfromlog; cbn [andb]; [|reflexivity].
  rewrite Ht. cbn [bind]. unfold float. now rewrite Hv.
Qed.

Lemma outer_plain_false (spin : Z) (line : string) :
  outer_plain spin line = true ->
  contains "$molecule" line && (spin =? 0)%Z = false
  /\ contains "VIBRATIONAL ANALYSIS" line = false.
Proof.
  unfold outer_plain. rewrite andb_true_iff, !negb_true_iff. auto.
Qed.

Lemma classify_rotor_idle (st : cstate) :
  c_inertia st = [] -> classify_rotor st = Ret st.
Proof. intros H. unfold classify_rotor. now rewrite H. Qed.

Lemma conformer_loop_skip (symfromlog : bool) (rest pre : list string)
      (st : cstate) :
  c_inertia st = [] ->
  Forall (fun l => outer_plain (c_spin st) l = true) pre ->
  forall fuel,
    (length pre <= fuel)%nat ->
    conformer_loop fuel symfromlog st (pre ++ rest)
    = conformer_loop (fuel - length pre) symfromlog st rest.
Proof.
  intros Hin. induction 1 as [|l pre Hl _ IH]; intros fuel Hfuel.
  - now rewrite Nat.sub_0_r.
  - destruct fuel as [|fuel]; [simpl in Hfuel; lia|]. simpl in Hfuel.
    destruct (outer_plain_false _ _ Hl) as [H1 H2].
    cbn [app conformer_loop length Nat.sub]. rewrite H1, H2. cbn [bind].
    rewrite (classify_rotor_idle _ Hin). cbn [bind]. apply IH. lia.
Qed.

Lemma conformer_loop_section (fuel : nat) (symfromlog : bool) (st : cstate)
      (line : string) (f : list string) :
  (0 < fuel)%nat ->
  contains "$molecule" line && (c_spin st =? 0)%Z = false ->
  contains "VIBRATIONAL ANALYSIS" line = true ->
  conformer_loop fuel symfromlog st (line :: f)
  = ('(st, f) <- section_loop (fuel - 1) symfromlog st f ;;
     st <- classify_rotor st ;;
     conformer_loop (fuel - 1) symfromlog st f).
Proof.
  intros Hfuel H1 H2. destruct fuel; [lia|].
  cbn [conformer_loop Nat.sub]. rewrite H1, H2, Nat.sub_0_r. reflexivity.
Qed.

Lemma conformer_loop_end (fuel : nat) (symfromlog : bool) (st : cstate) :
  (0 < fuel)%nat -> conformer_loop fuel symfromlog st [] = Ret st.
Proof. intros H. destruct fuel; [lia | reflexivity]. Qed.

(* ================================================================== *)
(** ** More on [loadConformer]: whole logs *)

(** The modes of a conformer come in three groups, whatever the order
    of the lines of the log: the translations, then the rotors, then
    the oscillators. *)
Theorem loadConformer_modes_grouped
        (text : string) (symmetry : option Z) (spin optical : Z)
        (symfromlog : bool) (label : string) (c : Conformer) :
  loadConformer text symmetry spin optical symfromlog label = Ret c ->
  exists translations rotors oscillators,
    modes c = translations ++ rotors ++ oscillators
    /\ Forall (fun m => exists mass, m = IdealGasTranslation mass) translations
    /\ Forall (fun m => is_rotor m = true) rotors
    /\ Forall (fun m => exists fs, m = HarmonicOscillator fs) oscillators.
Proof.
  intros Hc.
  destruct (loadConformer_cinv _ _ _ _ _ _ _ Hc)
    as (st & (Hfr & Hmm & Hrot & _) & Hmodes).
  exists (c_mmass st), (c_rot st), (c_freq st).
  split; [exact Hmodes|]. split; [exact Hmm|]. split.
  - revert Hrot. apply Forall_impl.
    intros m (i0 & i1 & i2 & sym & -> & _). apply rotor_of_is_rotor.
  - revert Hfr. apply Forall_impl.
    intros m (raw & fs & -> & _). now exists fs.
Qed.

Lemma conformer_loop_no_analysis (symfromlog : bool) (fuel : nat) :
  forall (f : list string) (st st' : cstate),
    Forall (fun l => contains "VIBRATIONAL ANALYSIS" l = false) f ->
    c_inertia st = [] ->
    conformer_loop fuel symfromlog st f = Ret st' ->
    c_freq st' = c_freq st /\ c_mmass st' = c_mmass st
    /\ c_rot st' = c_rot st.
Proof.
  induction fuel as [|fuel IH]; intros f st st' Hf Hin;
    cbn [conformer_loop]; [discriminate|].
  destruct f as [|line f]; [now intros [= <-]|].
  inversion Hf as [|? ? Hl Hf']; subst. rewrite Hl.
  destruct (contains "$molecule" line && (c_spin st =? 0)%Z).
  - assert (Hf2 : Forall (fun l => contains "VIBRATIONAL ANALYSIS" l = false)
                         (snd (readline f))).
    { destruct f as [|l2 f2]; cbn [readline snd]; [constructor|].
      now inversion Hf'. }
    destruct (readline f) as [l2 f2]. cbn [snd] in Hf2.
    destruct (length (split l2) =? 2)%nat.
    + destruct (index (split l2) 1) as [tok| | |]; cbn [bind];
        try discriminate.
      destruct (float tok) as [v| | |]; cbn [bind]; try discriminate.
      rewrite (classify_rotor_idle (set_spin st (py_int v)) Hin). cbn [bind].
      intros E. exact (IH _ (set_spin st (py_int v)) _ Hf2 Hin E).
    + cbn [bind]. rewrite (classify_rotor_idle st Hin). cbn [bind].
      now apply IH.
  - cbn [bind]. rewrite (classify_rotor_idle st Hin). cbn [bind].
    now apply IH.
Qed.

(** A log that holds no vibrational analysis gives a conformer with no
    modes; with a spin multiplicity given by the caller nothing of the
    log is used and no error is raised. *)
Theorem loadConformer_no_analysis
        (text : string) (symmetry : option Z) (spin optical : Z)
        (symfromlog : bool) (label : string) :
  contains "VIBRATIONAL ANALYSIS" text = false ->
  (forall c, loadConformer text symmetry spin optical symfromlog label = Ret c ->
             modes c = [])
  /\ (spin <> 0%Z ->
      loadConformer text symmetry spin optical symfromlog label
      = Ret (mkConformer (0.0 * 0.001, "kJ/mol"%string) [] spin optical)).
Proof.
  intros H. apply absent_readlines in H. split.
  - intros c. unfold loadConformer.
    destruct (conformer_loop _ _ _ _) as [st| | |] eqn:E; cbn [bind];
      try discriminate.
    intros [= <-]. cbn [modes].
    apply (conformer_loop_no_analysis _ _ _ _ _ H) in E; [|reflexivity].
    destruct E as (-> & -> & ->). reflexivity.
  - intros Hs. unfold loadConformer.
    rewrite <- (app_nil_r (readlines text)) at 2.
    rewrite conformer_loop_skip; [|reflexivity| |lia].
    + rewrite conformer_loop_end by lia. reflexivity.
    + revert H. apply Forall_impl. intros l Hl. unfold outer_plain.
      cbn [c_spin]. rewrite Hl. apply Z.eqb_neq in Hs. rewrite Hs.
      now rewrite andb_false_r.
Qed.

Lemma conformer_loop_enter (symfromlog : bool) (pre m1 f : list string)
      (vib fb : string) (st : cstate) (fuel : nat) :
  c_inertia st = [] ->
  Forall (fun l => outer_plain (c_spin st) l = true) pre ->
  contains "$molecule" vib && (c_spin st =? 0)%Z = false ->
  contains "VIBRATIONAL ANALYSIS" vib = true ->
  Forall (fun l => section_plain symfromlog l = true) m1 ->
  contains "Thank you very much for using Q-Chem." fb = false ->
  contains "VIBRATIONAL FREQUENCIES (CM**-1)" fb = true ->
  (length pre + length m1 + 2 <= fuel)%nat ->
  conformer_loop fuel symfromlog st (pre ++ vib :: m1 ++ fb :: f)
  = ('(st, f) <-
       ('(frequencies, f) <- frequency_block [] fb f ;;
        let (_, f) := readline f in
        frequencies <- strip_imaginary frequencies ;;
        section_loop (fuel - length pre - 1 - length m1 - 1) symfromlog
                     (add_freq st (HarmonicOscillator frequencies)) f) ;;
     st <- classify_rotor st ;;
     conformer_loop (fuel - length pre - 1) symfromlog st f).
Proof.
  intros Hin Hpre Hv1 Hv2 Hm1 Hf1 Hf2 Hfuel.
  rewrite (conformer_loop_skip _ _ _ _ Hin Hpre) by lia.
  rewrite conformer_loop_section by (auto; lia).
  rewrite (section_loop_skip _ _ _ Hm1) by lia.
  rewrite section_loop_frequencies by (auto; lia).
  reflexivity.
Qed.

(** A log that ends inside a frequency block, before the line of the
    standard thermodynamic quantities, is read for ever: the loop of
    lines 200-208 does not stop at the end of the file. *)
Theorem loadConformer_open_frequency_block
        (text : string) (symmetry : option Z) (spin optical : Z)
        (symfromlog : bool) (label : string)
        (pre m1 fl : list string) (vib fb : string) (raw : list Q) :
  readlines text = pre ++ vib :: m1 ++ fb :: fl ->
  Forall (fun l => outer_plain spin l = true) pre ->
  contains "$molecule" vib && (spin =? 0)%Z = false ->
  contains "VIBRATIONAL ANALYSIS" vib = true ->
  Forall (fun l => section_plain symfromlog l = true) m1 ->
  contains "Thank you very much for using Q-Chem." fb = false ->
  contains "VIBRATIONAL FREQUENCIES (CM**-1)" fb = true ->
  Forall (fun l => contains "STANDARD THERMODYNAMIC QUANTITIES AT" l = false)
         (fb :: fl) ->
  frequencies_of [] (fb :: fl) = Ret raw ->
  loadConformer text symmetry spin optical symfromlog label = Diverge.
Proof.
  intros E Hpre Hv1 Hv2 Hm1 Hf1 Hf2 Hopen Hraw. unfold loadConformer.
  rewrite E.
  rewrite conformer_loop_enter; auto; [|fuel_arith].
  rewrite (frequency_block_open _ _ _ _ Hopen Hraw). reflexivity.
Qed.

(** A frequency block that is closed but holds no frequency line
    raises IndexError at line 211, where the first frequency is
    looked at. *)
Theorem loadConformer_empty_frequency_block
        (text : string) (symmetry : option Z) (spin optical : Z)
        (symfromlog : bool) (label : string)
        (pre m1 fl rest : list string) (vib fb std : string) :
  readlines text = pre ++ vib :: m1 ++ fb :: fl ++ std :: rest ->
  Forall (fun l => outer_plain spin l = true) pre ->
  contains "$molecule" vib && (spin =? 0)%Z = false ->
  contains "VIBRATIONAL ANALYSIS" vib = true ->
  Forall (fun l => section_plain symfromlog l = true) m1 ->
  contains "Thank you very much for using Q-Chem." fb = false ->
  contains "VIBRATIONAL FREQUENCIES (CM**-1)" fb = true ->
  Forall (fun l => contains "STANDARD THERMODYNAMIC QUANTITIES AT" l = false)
         (fb :: fl) ->
  Forall (fun l => contains frequency_marker l = false) (fb :: fl) ->
  contains "STANDARD THERMODYNAMIC QUANTITIES AT" std = true ->
  loadConformer text symmetry spin optical symfromlog label = Raise IndexError.
Proof.
  intros E Hpre Hv1 Hv2 Hm1 Hf1 Hf2 Hopen Hnone Hstd. unfold loadConformer.
  rewrite E.
  rewrite conformer_loop_enter; auto; [|fuel_arith].
  rewrite (frequency_block_closed _ _ _ Hstd _ _ Hopen).
  assert (Hraw : forall block fr,
             Forall (fun l => contains frequency_marker l = false) block ->
             frequencies_of fr block = Ret fr).
  { induction block as [|l block IH]; intros fr Hb; [reflexivity|].
    inversion Hb as [|? ? Hl Hb']; subst. cbn [frequencies_of].
    unfold frequency_line. rewrite Hl. cbn [bind]. now apply IH. }
  rewrite (Hraw _ _ Hnone). cbn [bind].
  destruct (readline rest). reflexivity.
Qed.

Lemma strip_imaginary_finalized (raw : list Q) :
  raw <> [] -> strip_imaginary raw = Ret (finalized raw).
Proof.
  unfold strip_imaginary, finalized.
  destruct raw as [|x r]; [congruence|]. intros _.
  cbn [index nth_error bind hd tl skipn]. now destruct (Qlt_bool x 0.0).
Qed.

(** A log with one vibrational analysis laid out as Q-Chem prints it
    (a frequency block closed by the line of the standard
    thermodynamic quantities, then the molecular mass, the eigenvalues
    of the inertia tensor, the rotational symmetry number and the
    closing line) gives exactly three modes: the translation of the
    mass read, the rotor of the three eigenvalues, and the oscillator
    of the frequencies of the block.  The line after the line of the
    standard thermodynamic quantities is never looked at, and the
    symmetry number of the log is used only when [symfromlog] is
    set. *)
Theorem loadConformer_section_layout
        (text : string) (symmetry : option Z) (spin optical : Z)
        (symfromlog : bool) (label : string)
        (pre m1 fl m2 m3 m4 m5 post : list string)
        (vib fb std x mass eig rot thanks : string)
        (raw : list Q) (tmass tsym : string) (vmass vsym i0 i1 i2 : Q) :
  readlines text
  = pre ++ vib :: m1 ++ fb :: fl ++ std :: x :: m2 ++ mass :: m3
        ++ eig :: m4 ++ rot :: m5 ++ thanks :: post ->
  Forall (fun l => outer_plain spin l = true) (pre ++ post) ->
  Forall (fun l => section_plain symfromlog l = true)
         (m1 ++ m2 ++ m3 ++ m4 ++ m5) ->
  contains "$molecule" vib && (spin =? 0)%Z = false ->
  contains "VIBRATIONAL ANALYSIS" vib = true ->
  contains "Thank you very much for using Q-Chem." fb = false ->
  contains "VIBRATIONAL FREQUENCIES (CM**-1)" fb = true ->
  Forall (fun l => contains "STANDARD THERMODYNAMIC QUANTITIES AT" l = false)
         (fb :: fl) ->
  contains "STANDARD THERMODYNAMIC QUANTITIES AT" std = true ->
  frequencies_of [] (fb :: fl) = Ret raw -> raw <> [] ->
  contains "Thank you very much for using Q-Chem." mass = false ->
  contains "VIBRATIONAL FREQUENCIES (CM**-1)" mass = false ->
  contains "Molecular Mass:" mass = true ->
  nth_error (split mass) 2 = Some tmass -> float_of tmass = Some vmass ->
  contains "Thank you very much for using Q-Chem." eig = false ->
  contains "VIBRATIONAL FREQUENCIES (CM**-1)" eig = false ->
  contains "Molecular Mass:" eig = false ->
  contains "Eigenvalues --" eig = true ->
  mapM float (lastn 3 (split eig)) = Ret [i0; i1; i2] ->
  contains "Thank you very much for using Q-Chem." rot = false ->
  contains "VIBRATIONAL FREQUENCIES (CM**-1)" rot = false ->
  contains "Molecular Mass:" rot = false ->
  contains "Eigenvalues --" rot = false ->
  contains "Rotational Symmetry Number is" rot = true ->
  index_last (split rot) = Ret tsym -> float_of tsym = Some vsym ->
  contains "Thank you very much for using Q-Chem." thanks = true ->
  loadConformer text symmetry spin optical symfromlog label
  = Ret (mkConformer
           (0.0 * 0.001, "kJ/mol"%string)
           [IdealGasTranslation vmass;
            rotor_of i0 i1 i2 (if symfromlog then py_int vsym
                               else default_symmetry symmetry);
            HarmonicOscillator (finalized raw)]
           spin optical).
Proof.
  intros E Hout Hsec Hv1 Hv2 Hf1 Hf2 Hopen Hstd Hraw Hne
         Hm1 Hm2 Hm3 Hmt Hmv He1 He2 He3 He4 Hev
         Hr1 Hr2 Hr3 Hr4 Hr5 Hrt Hrv Hth.
  apply Forall_app in Hout. destruct Hout as [Hpre Hpost].
  apply Forall_app in Hsec. destruct Hsec as [Hs1 Hsec].
  apply Forall_app in Hsec. destruct Hsec as [Hs2 Hsec].
  apply Forall_app in Hsec. destruct Hsec as [Hs3 Hsec].
  apply Forall_app in Hsec. destruct Hsec as [Hs4 Hs5].
  unfold loadConformer. rewrite E.
  rewrite conformer_loop_enter; auto; [|fuel_arith].
  rewrite (frequency_block_closed _ _ _ Hstd _ _ Hopen), Hraw.
  cbn [bind readline]. rewrite (strip_imaginary_finalized _ Hne).
  cbn [bind].
  rewrite (section_loop_skip _ _ _ Hs2) by fuel_arith.
  rewrite (section_loop_mass _ _ _ _ _ tmass vmass) by (auto; fuel_arith).
  rewrite (section_loop_skip _ _ _ Hs3) by fuel_arith.
  rewrite (section_loop_eigenvalues _ _ _ _ _ [i0; i1; i2])
    by (auto; fuel_arith).
  rewrite (section_loop_skip _ _ _ Hs4) by fuel_arith.
  rewrite (section_loop_symmetry _ _ _ _ _ tsym vsym) by (auto; fuel_arith).
  rewrite (section_loop_skip _ _ _ Hs5) by fuel_arith.
  rewrite section_loop_thanks by (auto; fuel_arith).
  cbn [bind].
  destruct symfromlog.
  - rewrite (classify_rotor_three _ i0 i1 i2) by reflexivity.
    cbn [bind c_symmetry set_symmetry].
    rewrite <- (app_nil_r post) at 2.
    rewrite conformer_loop_skip; [|reflexivity|exact Hpost|fuel_arith].
    rewrite conformer_loop_end by fuel_arith. reflexivity.
  - rewrite (classify_rotor_three _ i0 i1 i2) by reflexivity.
    cbn [bind c_symmetry set_inertia add_mmass add_freq].
    rewrite <- (app_nil_r post) at 2.
    rewrite conformer_loop_skip; [|reflexivity|exact Hpost|fuel_arith].
    rewrite conformer_loop_end by fuel_arith. reflexivity.
Qed.

Lemma conformer_loop_molecule (fuel : nat) (symfromlog : bool) (st : cstate)
      (mol l2 : string) (f : list string) (tok : string) (v : Q) :
  (0 < fuel)%nat ->
  c_inertia st = [] -> c_spin st = 0%Z ->
  contains "$molecule" mol = true ->
  length (split l2) = 2%nat ->
  nth_error (split l2) 1 = Some tok -> float_of tok = Some v ->
  conformer_loop fuel symfromlog st (mol :: l2 :: f)
  = conformer_loop (fuel - 1) symfromlog (set_spin st (py_int v)) f.
Proof.
  intros Hfuel Hin Hs Hm Hlen Ht Hv. destruct fuel; [lia|].
  cbn [conformer_loop Nat.sub readline]. rewrite Hm, Hs, Hlen, Nat.sub_0_r.
  cbn [andb Z.eqb Nat.eqb]. unfold index. rewrite Ht. cbn [bind].
  unfold float. rewrite Hv. cbn [bind].
  now rewrite (classify_rotor_idle (set_spin st (py_int v)) Hin).
Qed.

(** Called with the spin multiplicity 0, [loadConformer] takes it from
    the first molecule block of the log: the integer part of the
    second of the two tokens of the line after the [$molecule] line.
    Once read (and not 0) it is kept to the end. *)
Theorem loadConformer_spin_from_log
        (text : string) (symmetry : option Z) (optical : Z)
        (symfromlog : bool) (label : string)
        (pre post : list string) (mol l2 tok : string) (v : Q)
        (c : Conformer) :
  readlines text = pre ++ mol :: l2 :: post ->
  Forall (fun l => outer_plain 0 l = true) pre ->
  contains "$molecule" mol = true ->
  length (split l2) = 2%nat ->
  nth_error (split l2) 1 = Some tok -> float_of tok = Some v ->
  py_int v <> 0%Z ->
  loadConformer text symmetry 0 optical symfromlog label = Ret c ->
  spinMultiplicity c = py_int v.
Proof.
  intros E Hpre Hm Hlen Ht Hv Hnz. unfold loadConformer. rewrite E.
  rewrite conformer_loop_skip; [|reflexivity|exact Hpre|fuel_arith].
  rewrite (conformer_loop_molecule _ _ _ _ _ _ tok v); auto; [|fuel_arith].
  destruct (conformer_loop _ _ _ _) as [st| | |] eqn:Hl; cbn [bind];
    try discriminate.
  intros [= <-]. cbn [spinMultiplicity].
  apply conformer_loop_spin in Hl; [exact Hl | exact Hnz].
Qed.

(* ================================================================== *)
(** ** More on [loadScanEnergies] *)

Lemma scan_loop_no_banner (f : list string) :
  forall (fuel : nat) (Vlist angle : list Q) (line : string),
    Forall (fun l => contains "Summary of potential scan:" l = false)
           (line :: f) ->
    (length f < fuel)%nat ->
    scan_loop fuel Vlist angle line f = Ret (Vlist, angle).
Proof.
  induction f as [|l f IH]; intros fuel Vlist angle line H Hfuel;
    (destruct fuel as [|fuel]; [lia|]); inversion H as [|? ? Hl Hf]; subst;
    cbn [scan_loop]; rewrite Hl; cbn [bind]; [reflexivity|].
  destruct (contains "SCF failed to converge" l); [reflexivity|].
  apply IH; [exact Hf | simpl in Hfuel; lia].
Qed.

(** A log with no summary of a potential scan gives no energies, so
    that [loadScanEnergies] never returns on it: once the check of the
    conformer energies is passed, the least of no energies is asked
    for at line 362, a ValueError. *)
Theorem loadScanEnergies_no_summary (path text : string) :
  contains "Summary of potential scan:" text = false ->
  (forall r, loadScanEnergies path text <> Ret r)
  /\ (check_conformer_energy [] path = Ret tt ->
      loadScanEnergies path text = Raise ValueError).
Proof.
  intros H. apply absent_readlines in H.
  assert (E : read_scan text = Ret ([], [])).
  { unfold read_scan. destruct (readlines text) as [|line f]; [reflexivity|].
    apply scan_loop_no_banner; [exact H | lia]. }
  unfold loadScanEnergies. rewrite E. cbn [bind]. split.
  - intros r. destruct (check_conformer_energy [] path) as [[]| | |];
      cbn [bind normalize_energies numpy_min]; discriminate.
  - intros ->. reflexivity.
Qed.

Lemma scan_rows_table (d : string) (post : list string) :
  contains dashes17 d = true ->
  forall (rows : list string) (table : list (Q * Q)),
    Forall2 scan_row rows table ->
    forall (Vlist angle : list Q) (line : string) (f : list string),
      line :: f = rows ++ d :: post ->
      scan_rows Vlist angle line f
      = Ret (Vlist ++ map snd table, angle ++ map fst table, post).
Proof.
  intros Hd. induction 1 as [|row av rows table Hrow _ IH];
    intros Vlist angle line f E.
  - injection E as -> ->. cbn [map]. rewrite !app_nil_r.
    destruct post; cbn [scan_rows]; now rewrite Hd.
  - injection E as -> ->.
    destruct Hrow as (Hno & values & Hv & Ha & He).
    destruct (rows ++ d :: post) as [|l2 f2] eqn:E2;
      [now destruct rows|].
    cbn [scan_rows]. rewrite Hno, Hv. cbn [bind]. unfold index.
    rewrite Ha, He. cbn [bind].
    rewrite (IH _ _ l2 f2 eq_refl). cbn [map].
    now rewrite <- !app_assoc.
Qed.

Lemma scan_loop_skip (pre : list string) :
  forall (fuel : nat) (Vlist angle : list Q) (line next : string)
         (f : list string),
    Forall (fun l => contains "Summary of potential scan:" l = false)
           (line :: pre) ->
    Forall (fun l => contains "SCF failed to converge" l = false)
           (pre ++ [next]) ->
    (length pre < fuel)%nat ->
    scan_loop fuel Vlist angle line (pre ++ next :: f)
    = scan_loop (fuel - S (length pre)) Vlist angle next f.
Proof.
  induction pre as [|l pre IH]; intros fuel Vlist angle line next f Hb Hs Hfuel;
    (destruct fuel as [|fuel]; [simpl in Hfuel; lia|]);
    inversion Hb as [|? ? Hl Hb']; inversion Hs as [|? ? Hl2 Hs']; subst;
    cbn [scan_loop app length Nat.sub]; rewrite Hl; cbn [bind]; rewrite Hl2.
  - now rewrite Nat.sub_0_r.
  - apply IH; [exact Hb' | exact Hs' | simpl in Hfuel; lia].
Qed.

Lemma scan_loop_table (fuel : nat) (b d : string) (rows post : list string)
      (table : list (Q * Q)) :
  contains "Summary of potential scan:" b = true ->
  Forall2 scan_row rows table ->
  contains dashes17 d = true ->
  Forall (fun l => contains "Summary of potential scan:" l = false) post ->
  (S (length post) <= fuel)%nat ->
  scan_loop fuel [] [] b (rows ++ d :: post)
  = Ret (map snd table, map fst table).
Proof.
  intros Hb Hrows Hd Hpost Hfuel. destruct fuel as [|fuel]; [lia|].
  cbn [scan_loop]. rewrite Hb.
  destruct (rows ++ d :: post) as [|l f] eqn:E; [now destruct rows|].
  cbn [readline].
  rewrite (scan_rows_table _ post Hd _ _ Hrows [] [] l f (eq_sym E)).
  cbn [bind app]. destruct post as [|p post]; [reflexivity|].
  destruct (contains "SCF failed to converge" p); [reflexivity|].
  apply scan_loop_no_banner; [exact Hpost | simpl in Hfuel; lia].
Qed.

(** On a log with one summary of a potential scan, and no SCF failure,
    the energies are the second numbers of the rows of the table, in
    the order of the rows, less the least of them and converted to
    J/mol; the angles read from the rows are not returned: the angles
    returned are spaced evenly from 0, by the number of rows alone. *)
Theorem loadScanEnergies_single_table
        (path text : string) (pre rows post : list string) (b d : string)
        (table : list (Q * Q)) :
  readlines text = pre ++ b :: rows ++ d :: post ->
  contains "SCF failed to converge" text = false ->
  Forall (fun l => contains "Summary of potential scan:" l = false)
         (pre ++ post) ->
  contains "Summary of potential scan:" b = true ->
  Forall2 scan_row rows table ->
  contains dashes17 d = true ->
  (2 <= length table)%nat ->
  check_conformer_energy (map snd table) path = Ret tt ->
  exists Vmin,
    In Vmin (map snd table)
    /\ Forall (fun v => Vmin <= v) (map snd table)
    /\ loadScanEnergies path text
       = Ret (map (fun av => (snd av - Vmin) * (E_h * Na)) table,
              numpy_arange 0.0 (2 * math_pi + 0.00001)
                (2 * math_pi / inject_Z (Z.of_nat (length table - 1)))).
Proof.
  intros E Hscf Hnb Hb Hrows Hd Hlen Hcheck.
  apply Forall_app in Hnb. destruct Hnb as [Hpre Hpost].
  apply absent_readlines in Hscf. rewrite E in Hscf.
  assert (Hread : read_scan text = Ret (map snd table, map fst table)).
  { unfold read_scan. rewrite E. destruct pre as [|l0 pre].
    - cbn [app]. apply scan_loop_table; auto. fuel_arith.
    - cbn [app]. inversion Hscf as [|? ? _ Hscf']; subst.
      rewrite scan_loop_skip; [|exact Hpre| |fuel_arith].
      + apply scan_loop_table; auto. fuel_arith.
      + apply Forall_app. apply Forall_app in Hscf'.
        destruct Hscf' as [H1 H2]. split; [exact H1|].
        inversion H2; subst. now constructor. }
  unfold loadScanEnergies. rewrite Hread. cbn [bind]. rewrite Hcheck.
  cbn [bind]. unfold normalize_energies.
  destruct (numpy_min (map snd table)) as [Vmin| | |] eqn:Hmin;
    try (destruct table; [simpl in Hlen; lia | discriminate]).
  destruct (numpy_min_spec _ _ Hmin) as [Hin Hle].
  exists Vmin. split; [exact Hin|]. split; [exact Hle|].
  cbn [bind]. unfold scan_angles. rewrite !length_map, !map_map.
  destruct (length table - 1 =? 0)%nat eqn:En;
    [apply Nat.eqb_eq in En; lia|].
  reflexivity.
Qed.

Lemma Qceiling_unique (x : Q) (n : Z) :
  inject_Z n - 1 < x -> x <= inject_Z n -> Qceiling x = n.
Proof.
  intros Hlo Hhi.
  pose proof (Qle_ceiling x) as H1. pose proof (Qceiling_lt x) as H2.
  assert (Ha : (n - 1 < Qceiling x)%Z).
  { rewrite Zlt_Qlt. unfold Z.sub. rewrite inject_Z_plus.
    apply Qlt_le_trans with x; [exact Hlo | exact H1]. }
  assert (Hb : (Qceiling x - 1 < n)%Z).
  { rewrite Zlt_Qlt. apply Qlt_le_trans with x; [exact H2 | exact Hhi]. }
  lia.
Qed.

Lemma full_turn_steps (K : Q) :
  3 <= math_pi -> 1 <= K -> K <= 600000 ->
  K < (2 * math_pi + 0.00001 - 0.0) / (2 * math_pi / K) <= K + 1.
Proof.
  intros Hpi HK1 HK2.
  assert (Hx : (2 * math_pi + 0.00001 - 0.0) / (2 * math_pi / K)
               == K + 0.00001 * K / (2 * math_pi)).
  { field. split; lra. }
  assert (Hpos : 0 < 0.00001 * K / (2 * math_pi)).
  { apply Qlt_shift_div_l; lra. }
  assert (Hle : 0.00001 * K / (2 * math_pi) <= 1).
  { apply Qle_shift_div_r; lra. }
  rewrite Hx. split; lra.
Qed.

Lemma arange_points (k : nat) :
  3 <= math_pi -> (1 <= Z.of_nat k <= 600000)%Z ->
  Z.to_nat (math_ceil ((2 * math_pi + 0.00001 - 0.0)
                       / (2 * math_pi / inject_Z (Z.of_nat k)))) = S k.
Proof.
  intros Hpi Hk. unfold math_ceil.
  assert (HK1 : 1 <= inject_Z (Z.of_nat k)).
  { change 1 with (inject_Z 1). rewrite <- Zle_Qle. lia. }
  assert (HK2 : inject_Z (Z.of_nat k) <= 600000).
  { change 600000 with (inject_Z 600000). rewrite <- Zle_Qle. lia. }
  destruct (full_turn_steps _ Hpi HK1 HK2) as [Hlo Hhi].
  rewrite (Qceiling_unique _ (Z.of_nat k + 1)).
  - lia.
  - rewrite inject_Z_plus. change (inject_Z 1) with 1.
    revert Hlo. generalize (inject_Z (Z.of_nat k)). intros K.
    generalize ((2 * math_pi + 0.00001 - 0.0) / (2 * math_pi / K)).
    intros x Hx. lra.
  - rewrite inject_Z_plus. change (inject_Z 1) with 1. exact Hhi.
Qed.

(** The angles [loadScanEnergies] returns are as many as the energies
    (at least two, and up to 600001 of them, [math.pi] being at least
    3): the end point of the range of line 364 is 0.00001 past a full
    turn, so the last angle is the full turn itself.  The angle of
    index [i] is [i] steps of a full turn over the number of energies
    less one. *)
Theorem loadScanEnergies_angle_grid
        (path text : string) (Vlist angle : list Q) :
  3 <= math_pi ->
  (Z.of_nat (length Vlist) <= 600001)%Z ->
  loadScanEnergies path text = Ret (Vlist, angle) ->
  (2 <= length Vlist)%nat
  /\ length angle = length Vlist
  /\ forall i, (i < length Vlist)%nat ->
               nth_error angle i
               = Some (0.0 + inject_Z (Z.of_nat i)
                             * (2 * math_pi
                                / inject_Z (Z.of_nat (length Vlist - 1)))).
Proof.
  intros Hpi Hmax. unfold loadScanEnergies.
  destruct (read_scan text) as [[raw angle0]| | |]; cbn [bind];
    try discriminate.
  destruct (check_conformer_energy raw path); cbn [bind]; try discriminate.
  destruct (normalize_energies raw) as [V| | |]; cbn [bind];
    try discriminate.
  unfold scan_angles.
  destruct (length V - 1 =? 0)%nat eqn:En; cbn [bind]; [discriminate|].
  intros [= -> <-]. apply Nat.eqb_neq in En.
  assert (Hn : Z.to_nat (math_ceil ((2 * math_pi + 0.00001 - 0.0)
                 / (2 * math_pi / inject_Z (Z.of_nat (length Vlist - 1)))))
               = length Vlist).
  { rewrite arange_points; [lia | exact Hpi | lia]. }
  split; [lia|]. unfold numpy_arange. rewrite Hn. split.
  - now rewrite length_map, length_seq.
  - intros i Hi. rewrite nth_error_map.
    rewrite nth_error_seq.
    destruct (Nat.ltb_spec i (length Vlist)) as [_|H]; [|lia].
    reflexivity.
Qed.

Lemma scan_loop_stop (mid : list string) :
  forall (fuel : nat) (Vlist angle : list Q) (line s : string)
         (rest : list string),
    Forall (fun l => contains "Summary of potential scan:" l = false)
           (line :: mid) ->
    Forall (fun l => contains "SCF failed to converge" l = false) mid ->
    contains "SCF failed to converge" s = true ->
    (length mid < fuel)%nat ->
    scan_loop fuel Vlist angle line (mid ++ s :: rest) = Ret (Vlist, angle).
Proof.
  induction mid as [|l mid IH]; intros fuel Vlist angle line s rest Hb Hs Hscf Hfuel;
    (destruct fuel as [|fuel]; [simpl in Hfuel; lia|]);
    inversion Hb as [|? ? Hl Hb']; subst;
    cbn [scan_loop app]; rewrite Hl; cbn [bind].
  - now rewrite Hscf.
  - inversion Hs as [|? ? Hl2 Hs']; subst. rewrite Hl2.
    apply IH; auto. simpl in Hfuel. lia.
Qed.

(** The reading of a scan stops at a line that holds "SCF failed to
    converge": a table that was read before it is returned as if the
    log ended there, and what follows the line, tables included, is not
    read. *)
Theorem loadScanEnergies_scf_failure
        (path text : string) (pre rows mid rest : list string) (b d s : string)
        (table : list (Q * Q)) :
  readlines text = pre ++ b :: rows ++ d :: mid ++ s :: rest ->
  Forall (fun l => contains "Summary of potential scan:" l = false)
         (pre ++ mid) ->
  Forall (fun l => contains "SCF failed to converge" l = false)
         (pre ++ b :: mid) ->
  contains "Summary of potential scan:" b = true ->
  Forall2 scan_row rows table ->
  contains dashes17 d = true ->
  contains "SCF failed to converge" s = true ->
  loadScanEnergies path text
  = (_ <- check_conformer_energy (map snd table) path ;;
     Vlist <- normalize_energies (map snd table) ;;
     angle <- scan_angles (length Vlist) ;;
     Ret (Vlist, angle)).
Proof.
  intros E Hnb Hns Hb Hrows Hd Hscf.
  apply Forall_app in Hnb. destruct Hnb as [Hpre Hmid].
  apply Forall_app in Hns. destruct Hns as [Hspre Hsb].
  inversion Hsb as [|? ? Hsb1 Hsmid]; subst.
  assert (Htable : forall fuel,
             (S (length mid) < fuel)%nat ->
             scan_loop fuel [] [] b (rows ++ d :: mid ++ s :: rest)
             = Ret (map snd table, map fst table)).
  { intros fuel Hfuel. destruct fuel as [|fuel]; [lia|].
    cbn [scan_loop]. rewrite Hb.
    destruct (rows ++ d :: mid ++ s :: rest) as [|l f] eqn:El;
      [now destruct rows|].
    cbn [readline].
    rewrite (scan_rows_table _ (mid ++ s :: rest) Hd _ _ Hrows [] [] l f
                             (eq_sym El)).
    cbn [bind app]. destruct mid as [|m mid].
    - cbn [app]. now rewrite Hscf.
    - cbn [app]. inversion Hsmid as [|? ? Hm Hsmid']; subst. rewrite Hm.
      apply scan_loop_stop; auto. simpl in Hfuel. lia. }
  assert (Hread : read_scan text = Ret (map snd table, map fst table)).
  { unfold read_scan. rewrite E. destruct pre as [|l0 pre].
    - cbn [app]. apply Htable. fuel_arith.
    - cbn [app]. inversion Hspre as [|? ? _ Hspre']; subst.
      rewrite scan_loop_skip; [|exact Hpre| |fuel_arith].
      + apply Htable. fuel_arith.
      + apply Forall_app. split; [exact Hspre'|]. now constructor. }
  unfold loadScanEnergies. now rewrite Hread.
Qed.

(* ================================================================== *)
(** ** More on [loadGeometry] and [loadNegativeFrequency] *)

Lemma read_atoms_rows (closing : list string) :
  closed_or_end closing ->
  forall (rows : list string) (parsed : list (string * list Q))
         (atom : list string) (coord : list (list Q)) (flag : bool),
    Forall (fun l => contains dashes12 l = false) rows ->
    mapM parse_atom_row rows = Ret parsed ->
    read_atoms (rows ++ closing) (atom, coord, flag)
    = Ret (atom ++ map fst parsed, coord ++ map snd parsed,
           match rows with [] => flag | _ => true end).
Proof.
  intros Hc. induction rows as [|r rows IH]; intros parsed atom coord flag Hrows.
  - intros [= <-]. cbn [app map]. rewrite !app_nil_r.
    destruct closing as [|d closing]; [reflexivity|].
    cbn [read_atoms]. cbn [closed_or_end] in Hc. now rewrite Hc.
  - inversion Hrows as [|? ? Hr Hrows']; subst.
    cbn [mapM app read_atoms]. rewrite Hr. cbn [negb].
    destruct (parse_atom_row r) as [[a c]| | |]; cbn [bind]; try discriminate.
    destruct (mapM parse_atom_row rows) as [ps| | |] eqn:E; cbn [bind];
      try discriminate.
    intros [= <-]. rewrite (IH ps _ _ true Hrows' eq_refl).
    cbn [map fst snd]. rewrite <- !app_assoc. cbn [app].
    now destruct rows.
Qed.

(** Of the geometry blocks of a finished log, [loadGeometry] returns
    the last one: the coordinates of its rows, and the numbers and the
    masses of their elements, in the order of the rows.  What comes
    before the banner of that block has no part in the result.  The
    rows start three lines after the banner and end at a line with
    twelve dashes, or at the end of the log. *)
Theorem loadGeometry_last_block
        (path text : string) (pre rows closing : list string)
        (b h1 h2 : string)
        (parsed : list (string * list Q)) (elems : list (Q * Z)) :
  splitlines text = pre ++ b :: h1 :: h2 :: rows ++ closing ->
  contains completion_banner text = true ->
  contains geometry_banner b = true ->
  Forall (fun l => contains geometry_banner l = false)
         (h1 :: h2 :: rows ++ closing) ->
  Forall (fun l => contains dashes12 l = false) rows ->
  closed_or_end closing ->
  rows <> [] ->
  mapM parse_atom_row rows = Ret parsed ->
  Forall (fun r => length (snd r) = 3%nat) parsed ->
  mapM get_element_mass (map fst parsed) = Ret elems ->
  loadGeometry path text
  = Ret (map snd parsed, map snd elems, map fst elems).
Proof.
  intros E Hdone Hb Hback Hrows Hc Hne Hparsed Hthree Helems.
  unfold loadGeometry.
  apply (present_splitlines completion_banner text eq_refl) in Hdone;
    [|discriminate].
  apply completed_job_iff in Hdone. rewrite Hdone. cbn [negb].
  rewrite E. set (ls := pre ++ b :: h1 :: h2 :: rows ++ closing).
  assert (Hls : ls = (pre ++ [b]) ++ h1 :: h2 :: rows ++ closing)
    by (unfold ls; now rewrite <- app_assoc).
  assert (Hfind : find_geometry ls (length ls) ([], [], false)
                  = Ret (map fst parsed, map snd parsed, true)).
  { rewrite Hls at 2. rewrite length_app.
    rewrite Hls at 1. rewrite (find_geometry_skip_back _ _ _ Hback) by lia.
    rewrite <- Hls. rewrite length_app, Nat.add_comm. cbn [length Nat.add].
    cbn [find_geometry].
    assert (Hnth : nth (length pre) ls EmptyString = b).
    { unfold ls. rewrite app_nth2 by lia. now rewrite Nat.sub_diag. }
    rewrite Hnth, Hb.
    assert (Hskip : skipn (length pre + 3) ls = rows ++ closing).
    { unfold ls. rewrite skipn_app, skipn_all2 by lia.
      replace (length pre + 3 - length pre)%nat with 3%nat by lia.
      reflexivity. }
    rewrite Hskip,
      (read_atoms_rows closing Hc rows parsed [] [] false Hrows Hparsed).
    cbn [bind app]. destruct rows; [congruence | reflexivity]. }
  rewrite Hfind. cbn [bind].
  rewrite (element_masses_spec _ _ Helems). cbn [bind app].
  rewrite (numpy_array2_rectangular 3) by now apply Forall_map.
  cbn [bind].
  assert (Hlen : length parsed = length rows) by now apply mapM_length in Hparsed.
  assert (Hlen' : length elems = length parsed)
    by (apply mapM_length in Helems; now rewrite length_map in Helems).
  rewrite !length_map.
  destruct rows as [|r rows]; [congruence|].
  destruct parsed as [|p parsed]; [discriminate|].
  destruct elems as [|e elems]; [discriminate|]. reflexivity.
Qed.

Lemma first_frequency_app (pre : list string) (rest : list string) :
  Forall (fun l => contains frequency_marker l = false) pre ->
  first_frequency (pre ++ rest) = first_frequency rest.
Proof.
  induction 1 as [|l pre Hl _ IH]; [reflexivity|].
  cbn [app first_frequency]. now rewrite Hl.
Qed.

(** What [loadNegativeFrequency] does is settled by the first line
    with the frequency marker: a line with the marker alone raises
    IndexError, a second token that is not a number raises ValueError,
    whatever the lines after it hold. *)
Theorem loadNegativeFrequency_malformed_line
        (path text : string) (pre post : list string) (line : string) :
  readlines text = pre ++ line :: post ->
  Forall (fun l => contains frequency_marker l = false) pre ->
  contains frequency_marker line = true ->
  ((length (split line) < 2)%nat ->
   loadNegativeFrequency path text = Raise IndexError)
  /\ (forall tok, nth_error (split line) 1 = Some tok ->
                  float_of tok = None ->
                  loadNegativeFrequency path text = Raise ValueError).
Proof.
  intros E Hpre Hline. unfold loadNegativeFrequency.
  rewrite E, (first_frequency_app _ _ Hpre). cbn [first_frequency].
  rewrite Hline. unfold index. split.
  - intros Hlen.
    assert (H : nth_error (split line) 1 = None)
      by (apply nth_error_None; lia).
    now rewrite H.
  - intros tok -> Hv. cbn [bind]. unfold float. now rewrite Hv.
Qed.

(* ================================================================== *)
(** ** More on [loadForceConstantMatrix]: the entries of the matrix *)

Lemma for_range_from_steps {St : Type} (P : nat -> St -> Prop)
      (body : nat -> St -> outcome St) (i0 n0 : nat) :
  (forall i s s', (i0 <= i < i0 + n0)%nat -> P i s -> body i s = Ret s' ->
                  P (S i) s') ->
  forall n i s s',
    (i0 <= i)%nat -> (i + n <= i0 + n0)%nat ->
    P i s -> for_range_from i n body s = Ret s' -> P (i + n)%nat s'.
Proof.
  intros Hbody. induction n as [|n IH]; intros i s s' Hlo Hhi Hs;
    cbn [for_range_from].
  - intros [= <-]. now rewrite Nat.add_0_r.
  - destruct (body i s) as [s1| | |] eqn:E; cbn [bind]; try discriminate.
    intros H. rewrite <- Nat.add_succ_comm.
    apply (IH (S i) s1 s'); [lia | lia | | exact H].
    apply (Hbody i s s1); [lia | exact Hs | exact E].
Qed.

Lemma list_set_nth_error {A : Type} (l : list A) (i : nat) (v : A)
      (l' : list A) :
  list_set l i v = Some l' ->
  forall i', nth_error l' i' = if (i' =? i)%nat then Some v else nth_error l i'.
Proof.
  revert i l'; induction l as [|x l IH]; intros i l'; cbn [list_set];
    [destruct i; discriminate|].
  destruct i as [|i].
  - intros [= <-] [|i']; reflexivity.
  - destruct (list_set l i v) as [l1|] eqn:E; [|discriminate].
    intros [= <-] [|i']; [reflexivity|]. cbn [nth_error Nat.eqb].
    now apply IH.
Qed.

Lemma matrix_set_get (F F' : matrix) (j c : nat) (v : Q) :
  matrix_set F j c v = Ret F' ->
  forall j' c',
    matrix_get F' j' c'
    = if ((j' =? j) && (c' =? c))%nat then Some v else matrix_get F j' c'.
Proof.
  unfold matrix_set, index, setitem, matrix_get.
  destruct (nth_error F j) as [row|] eqn:Ej; cbn [bind]; [|discriminate].
  destruct (list_set row c v) as [row'|] eqn:Er; cbn [bind]; [|discriminate].
  destruct (list_set F j row') as [F1|] eqn:EF; cbn [bind]; [|discriminate].
  intros [= <-] j' c'. rewrite (list_set_nth_error _ _ _ _ EF).
  destruct (Nat.eqb_spec j' j) as [->|Hj]; cbn [andb].
  - rewrite (list_set_nth_error _ _ _ _ Er), Ej. reflexivity.
  - reflexivity.
Qed.

(** Lines 103-105 on one data line. *)
Lemma read_hessian_row_get (i j : nat) (data : list string) (F F' : matrix) :
  read_hessian_row i j data F = Ret F' ->
  forall j' c',
    matrix_get F' j' c'
    = if ((j' =? j) && (i * 6 <=? c') && (c' <? i * 6 + (length data - 1)))%nat
      then tok_value data (c' - i * 6 + 1)
      else matrix_get F j' c'.
Proof.
  unfold read_hessian_row, for_range. intros H.
  set (P := fun (k : nat) (F1 : matrix) =>
              forall j' c',
                matrix_get F1 j' c'
                = if ((j' =? j) && (i * 6 <=? c') && (c' <? i * 6 + k))%nat
                  then tok_value data (c' - i * 6 + 1)
                  else matrix_get F j' c').
  assert (Hinit : P 0%nat F) by (intros j' c'; nat_cases).
  refine (for_range_from_steps P _ 0 (length data - 1) _
                               _ 0%nat F F' (le_n _) (le_n _) Hinit H).
  clear H Hinit. intros k F1 F2 Hk HF1. unfold index.
  destruct (nth_error data (k + 1)) as [tok|] eqn:Et; cbn [bind];
    [|discriminate].
  unfold float. destruct (float_of tok) as [v|] eqn:Ev; cbn [bind];
    [|discriminate].
  intros Hset j' c'. rewrite (matrix_set_get _ _ _ _ _ Hset), HF1.
  destruct (Nat.eqb_spec j' j) as [->|Hj]; cbn [andb]; [|reflexivity].
  destruct (Nat.eqb_spec c' (i * 6 + k)) as [->|Hc].
  - replace (i * 6 + k - i * 6 + 1)%nat with (k + 1)%nat by lia.
    unfold tok_value. rewrite Et, Ev. nat_cases.
  - nat_cases.
Qed.

Lemma readline_nth (f : list string) :
  readline f = (nth 0 f EmptyString, skipn 1 f).
Proof. now destruct f. Qed.

Lemma skipn_skipn_add {A : Type} (a b : nat) (l : list A) :
  skipn a (skipn b l) = skipn (b + a) l.
Proof.
  revert l; induction b as [|b IH]; intros l; [reflexivity|].
  destruct l as [|x l]; [now rewrite !skipn_nil|]. cbn [Nat.add skipn].
  apply IH.
Qed.

Lemma nth_skipn {A : Type} (a b : nat) (l : list A) (d : A) :
  nth a (skipn b l) d = nth (b + a) l d.
Proof.
  revert l; induction b as [|b IH]; intros l; [reflexivity|].
  destruct l as [|x l]; [now destruct a|]. cbn [Nat.add skipn nth].
  apply IH.
Qed.

(** Lines 101-105 on one band: [Nrows] data lines from [f1] on. *)
Lemma read_band_get (Nrows i : nat) (F0 F' : matrix) (f1 f' : list string) :
  for_range Nrows
    (fun j '(F, f) =>
       let (line, f) := readline f in
       F' <- read_hessian_row i j (split line) F ;;
       Ret (F', f))
    (F0, f1) = Ret (F', f') ->
  f' = skipn Nrows f1
  /\ forall j' c',
      matrix_get F' j' c'
      = if ((j' <? Nrows) && (i * 6 <=? c')
            && (c' <? i * 6 + (length (split (nth j' f1 EmptyString)) - 1)))%nat
        then tok_value (split (nth j' f1 EmptyString)) (c' - i * 6 + 1)
        else matrix_get F0 j' c'.
Proof.
  unfold for_range. intros H.
  set (P := fun (j : nat) (s : matrix * list string) =>
              snd s = skipn j f1
              /\ forall j' c',
                  matrix_get (fst s) j' c'
                  = if ((j' <? j) && (i * 6 <=? c')
                        && (c' <? i * 6
                                  + (length (split (nth j' f1 EmptyString)) - 1)))%nat
                    then tok_value (split (nth j' f1 EmptyString))
                                   (c' - i * 6 + 1)
                    else matrix_get F0 j' c').
  assert (Hinit : P 0%nat (F0, f1)).
  { split; [reflexivity|]. intros j' c'. cbn [fst]. nat_cases. }
  refine (for_range_from_steps P _ 0 Nrows _
                               _ 0%nat (F0, f1) (F', f') (le_n _) (le_n _)
                               Hinit H).
  clear H Hinit. intros j [F1 f2] s' Hj [Hf2 HF1]. cbn [fst snd] in Hf2, HF1.
  rewrite readline_nth.
  destruct (read_hessian_row i j (split (nth 0 f2 EmptyString)) F1)
    as [F2| | |] eqn:Erow; cbn [bind]; try discriminate.
  intros [= <-]. subst f2. split; cbn [fst snd].
  - change (skipn 1 (skipn j f1) = skipn (S j) f1).
    rewrite skipn_skipn_add. f_equal. lia.
  - intros j' c'. rewrite (read_hessian_row_get _ _ _ _ _ Erow), HF1.
    rewrite nth_skipn, Nat.add_0_r.
    destruct (Nat.eqb_spec j' j) as [->|Hne]; cbn [andb]; nat_cases.
Qed.

Lemma hessian_bands_cover (Nrows : nat) : (Nrows <= 6 * hessian_bands Nrows)%nat.
Proof.
  unfold hessian_bands, math_ceil.
  pose proof (Qle_ceiling (inject_Z (Z.of_nat Nrows) / 6.0)) as H.
  assert (H6 : inject_Z (Z.of_nat Nrows)
               <= inject_Z (6 * Qceiling (inject_Z (Z.of_nat Nrows) / 6.0))).
  { rewrite inject_Z_mult. revert H.
    generalize (inject_Z (Qceiling (inject_Z (Z.of_nat Nrows) / 6.0))).
    generalize (inject_Z (Z.of_nat Nrows)). intros x y H.
    change (inject_Z 6) with 6.
    assert (Hx : x == x / 6.0 * 6) by field. rewrite Hx.
    apply Qle_trans with (y * 6); [|rewrite Qmult_comm; apply Qle_refl].
    apply Qmult_le_compat_r; [exact H | discriminate]. }
  rewrite <- Zle_Qle in H6. lia.
Qed.

Lemma numpy_zeros_get (n j c : nat) :
  (j < n)%nat -> (c < n)%nat -> matrix_get (numpy_zeros n n) j c = Some 0.
Proof.
  intros Hj Hc. unfold matrix_get, numpy_zeros.
  rewrite (nth_error_repeat _ Hj). now apply nth_error_repeat.
Qed.

Lemma matrix_scale_get (k : Q) (F : matrix) (j c : nat) :
  matrix_get (matrix_scale k F) j c
  = option_map (fun x => x * k) (matrix_get F j c).
Proof.
  unfold matrix_get, matrix_scale. rewrite nth_error_map.
  destruct (nth_error F j) as [row|]; cbn [option_map]; [|reflexivity].
  now rewrite nth_error_map.
Qed.

(** Lines 97-105: where the block ends, and what each entry of the
    matrix is, the data lines holding a row number and at most six
    values each. *)
Lemma fill_hessian_get (Nrows : nat) (f : list string) (F : matrix)
      (rest : list string) :
  fill_hessian Nrows f = Ret (F, rest) ->
  (forall i j, (i < hessian_bands Nrows)%nat -> (j < Nrows)%nat ->
               (length (split (nth (i * (Nrows + 1) + 1 + j) f EmptyString))
                <= 7)%nat) ->
  rest = skipn (hessian_bands Nrows * (Nrows + 1)) f
  /\ forall j c, (j < Nrows)%nat -> (c < Nrows)%nat ->
                 matrix_get F j c = hessian_entry Nrows f j c.
Proof.
  unfold fill_hessian, for_range. fold (hessian_bands Nrows). intros H H7.
  set (P := fun (i : nat) (s : matrix * list string) =>
              snd s = skipn (i * (Nrows + 1)) f
              /\ forall j c,
                  matrix_get (fst s) j c
                  = if ((j <? Nrows) && (c / 6 <? i)
                        && (c mod 6 + 1
                            <? length (split (nth ((c / 6) * (Nrows + 1) + 1 + j)
                                                   f EmptyString))))%nat
                    then hessian_entry Nrows f j c
                    else matrix_get (numpy_zeros Nrows Nrows) j c).
  assert (Hinit : P 0%nat (numpy_zeros Nrows Nrows, f)).
  { split; [reflexivity|]. intros j c. cbn [fst]. nat_cases. }
  assert (Hend : P (0 + hessian_bands Nrows)%nat (F, rest)).
  { refine (for_range_from_steps P _ 0 (hessian_bands Nrows) _
                                 _ 0%nat _ _ (le_n _) (le_n _) Hinit H).
    clear H Hinit. intros i [F1 f1] s' Hi [Hf1 HF1].
    cbn [fst snd] in Hf1, HF1. rewrite readline_nth. intros Hband.
    destruct s' as [F2 f2].
    apply read_band_get in Hband. destruct Hband as [Hf2 HF2].
    subst f1. split; cbn [fst snd].
    - rewrite Hf2, !skipn_skipn_add. f_equal. lia.
    - intros j c. rewrite HF2, HF1. rewrite nth_skipn, nth_skipn.
      pose proof (Nat.div_mod_eq c 6) as Hdm.
      pose proof (Nat.mod_upper_bound c 6 ltac:(lia)) as Hr.
      destruct (Nat.ltb_spec j Nrows) as [Hj|Hj]; cbn [andb];
        [|reflexivity].
      assert (Hlen := H7 i j ltac:(lia) Hj).
      replace (i * (Nrows + 1) + (1 + j))%nat
        with (i * (Nrows + 1) + 1 + j)%nat in * by lia.
      destruct (lt_eq_lt_dec (c / 6) i) as [[Hq|Hq]|Hq].
      + destruct (Nat.leb_spec (i * 6) c) as [Hle|_]; [lia|]. cbn [andb].
        destruct (Nat.ltb_spec (c / 6) i) as [_|]; [|lia].
        destruct (Nat.ltb_spec (c / 6) (S i)) as [_|]; [|lia].
        reflexivity.
      + destruct (Nat.leb_spec (i * 6) c) as [_|]; [|lia]. cbn [andb].
        destruct (Nat.ltb_spec (c / 6) i) as [|_]; [lia|].
        destruct (Nat.ltb_spec (c / 6) (S i)) as [_|]; [|lia].
        cbn [andb]. unfold hessian_entry. rewrite Hq.
        replace (c - i * 6 + 1)%nat with (c mod 6 + 1)%nat by lia.
        nat_cases.
      + destruct (Nat.ltb_spec (c / 6) i) as [|_]; [lia|].
        destruct (Nat.ltb_spec (c / 6) (S i)) as [|_]; [lia|].
        cbn [andb]. nat_cases. }
  destruct Hend as [Hrest Hget]. cbn [fst snd Nat.add] in Hrest, Hget.
  split; [exact Hrest|]. intros j c Hj Hc. rewrite Hget.
  pose proof (hessian_bands_cover Nrows) as Hcover.
  pose proof (Nat.div_mod_eq c 6) as Hdm.
  destruct (Nat.ltb_spec j Nrows) as [_|]; [|lia].
  destruct (Nat.ltb_spec (c / 6) (hessian_bands Nrows)) as [_|]; [|lia].
  cbn [andb].
  destruct (Nat.ltb_spec (c mod 6 + 1)
              (length (split (nth ((c / 6) * (Nrows + 1) + 1 + j)
                                  f EmptyString)))) as [_|Hshort];
    [reflexivity|].
  rewrite (numpy_zeros_get _ _ _ Hj Hc). unfold hessian_entry, tok_value.
  apply nth_error_None in Hshort. now rewrite Hshort.
Qed.

(** Where the block ends does not depend on what its lines hold. *)
Lemma fill_hessian_rest (Nrows : nat) (f : list string) (F : matrix)
      (rest : list string) :
  fill_hessian Nrows f = Ret (F, rest) ->
  rest = skipn (hessian_bands Nrows * (Nrows + 1)) f.
Proof.
  unfold fill_hessian, for_range. fold (hessian_bands Nrows). intros H.
  set (P := fun (i : nat) (s : matrix * list string) =>
              snd s = skipn (i * (Nrows + 1)) f).
  assert (Hinit : P 0%nat (numpy_zeros Nrows Nrows, f)) by reflexivity.
  assert (Hend : P (0 + hessian_bands Nrows)%nat (F, rest)).
  { refine (for_range_from_steps P _ 0 (hessian_bands Nrows) _
                                 _ 0%nat _ _ (le_n _) (le_n _) Hinit H).
    clear H Hinit. intros i [F1 f1] [F2 f2] Hi Hf1. unfold P in Hf1.
    cbn [snd] in Hf1.
    rewrite readline_nth. intros Hband.
    apply read_band_get in Hband. destruct Hband as [Hf2 _].
    subst f1. unfold P. cbn [snd].
    rewrite Hf2, !skipn_skipn_add. f_equal. lia. }
  exact Hend.
Qed.

(** The matrix [loadForceConstantMatrix] returns is read from the
    lines after a Hessian banner that no banner follows: with [N] atoms
    counted, the entry of row [j] and column [c] is 4.35974417e-18 /
    5.291772108e-11**2 times the value that stands in the band [c / 6]
    of the block (a header line and [3N] data lines per band), on the
    data line [j] of the band, after the row number and [c mod 6] other
    values, the lines of the block holding a row number and at most
    six values each.  A data line too short for the entry leaves it
    zero. *)
Theorem loadForceConstantMatrix_entries
        (text : string) (N : nat) (M : matrix) :
  getNumberOfAtoms text = Ret N ->
  loadForceConstantMatrix text = Ret (Some M) ->
  exists pre b block,
    readlines text = pre ++ b :: block
    /\ is_hessian_banner b = true
    /\ Forall (fun l => is_hessian_banner l = false)
              (skipn (hessian_bands (N * 3) * (N * 3 + 1)) block)
    /\ (Forall (fun l => (length (split l) <= 7)%nat)
               (firstn (hessian_bands (N * 3) * (N * 3 + 1)) block) ->
        forall j c, (j < N * 3)%nat -> (c < N * 3)%nat ->
                    matrix_get M j c
                    = option_map (fun v => v * hessian_factor)
                                 (hessian_entry (N * 3) block j c)).
Proof.
  intros HN. unfold loadForceConstantMatrix. rewrite HN. cbn [bind].
  intros H.
  destruct (hessian_loop_last _ _ _ _ _ H) as [[[=] _] | Hlast].
  destruct Hlast as (pre & b & block & F & rest & E & Hb & Hf & [= ->] & Hno).
  exists pre, b, block. split; [exact E|]. split; [exact Hb|].
  assert (H7 : Forall (fun l => (length (split l) <= 7)%nat)
                      (firstn (hessian_bands (N * 3) * (N * 3 + 1)) block) ->
               forall i j, (i < hessian_bands (N * 3))%nat -> (j < N * 3)%nat ->
                 (length (split (nth (i * (N * 3 + 1) + 1 + j) block
                                     EmptyString)) <= 7)%nat).
  { intros Hall i j Hi Hj.
    destruct (Nat.lt_ge_cases (i * (N * 3 + 1) + 1 + j) (length block))
      as [Hin|Hout].
    - rewrite Forall_forall in Hall. apply Hall.
      rewrite <- (firstn_skipn (hessian_bands (N * 3) * (N * 3 + 1)) block)
        at 1.
      assert (Hlt : (i * (N * 3 + 1) + 1 + j
                     < length (firstn (hessian_bands (N * 3) * (N * 3 + 1))
                                      block))%nat).
      { rewrite length_firstn. nia. }
      rewrite app_nth1 by exact Hlt. now apply nth_In.
    - rewrite nth_overflow by exact Hout. cbn. lia. }
  split.
  - now rewrite <- (fill_hessian_rest _ _ _ _ Hf).
  - intros Hall j c Hj Hc. rewrite matrix_scale_get.
    destruct (fill_hessian_get _ _ _ _ Hf (H7 Hall)) as [_ Hget].
    now rewrite (Hget j c Hj Hc).
Qed.

(* ================================================================== *)
(** ** The atom count, the geometry and the Hessian together *)

(** The search of lines 142-154 ends on the last block that has
    rows. *)
Lemma find_geometry_last_block
      (pre rows closing : list string) (b h1 h2 : string)
      (parsed : list (string * list Q)) :
  contains geometry_banner b = true ->
  Forall (fun l => contains geometry_banner l = false)
         (h1 :: h2 :: rows ++ closing) ->
  Forall (fun l => contains dashes12 l = false) rows ->
  closed_or_end closing ->
  rows <> [] ->
  mapM parse_atom_row rows = Ret parsed ->
  let log := pre ++ b :: h1 :: h2 :: rows ++ closing in
  find_geometry log (length log) ([], [], false)
  = Ret (map fst parsed, map snd parsed, true).
Proof.
  intros Hb Hback Hrows Hc Hne Hparsed log.
  assert (Hlog : log = (pre ++ [b]) ++ h1 :: h2 :: rows ++ closing)
    by (unfold log; now rewrite <- app_assoc).
  rewrite Hlog at 2. rewrite length_app.
  rewrite Hlog at 1. rewrite (find_geometry_skip_back _ _ _ Hback) by lia.
  rewrite <- Hlog. rewrite length_app, Nat.add_comm. cbn [length Nat.add].
  cbn [find_geometry].
  assert (Hnth : nth (length pre) log EmptyString = b).
  { unfold log. rewrite app_nth2 by lia. now rewrite Nat.sub_diag. }
  rewrite Hnth, Hb.
  assert (Hskip : skipn (length pre + 3) log = rows ++ closing).
  { unfold log. rewrite skipn_app, skipn_all2 by lia.
    replace (length pre + 3 - length pre)%nat with 3%nat by lia.
    reflexivity. }
  rewrite Hskip,
    (read_atoms_rows closing Hc rows parsed [] [] false Hrows Hparsed).
  cbn [bind app]. destruct rows; [congruence | reflexivity].
Qed.

(** C7, as amended.  [getNumberOfAtoms] counts the rows of the first
    geometry block of the log (the lines from the third line after the
    first banner to the first line with fifty-two dashes), and on a
    finished log [loadGeometry] returns the atoms of the last one (the
    lines from the third line after the last banner to the first line
    with twelve dashes, or to the end of the log; each row holds a
    known element symbol and three coordinates).  So the atom count is
    the number of atoms [loadGeometry] parses exactly when these two
    blocks have the same number of rows, as they do when the log holds
    one block, or several blocks of one molecule.  On every log, the
    matrix [loadForceConstantMatrix] returns, if any, is square of
    three times the atom count. *)
Theorem atom_count_first_and_last_block (path text : string) :
  (forall N F,
      getNumberOfAtoms text = Ret N ->
      loadForceConstantMatrix text = Ret (Some F) ->
      square (N * 3) F)
  /\ (forall (pre1 post1 rows1 : list string) (b1 h1 h2 d1 : string)
             (pre2 rows2 closing : list string) (b2 g1 g2 : string)
             (parsed : list (string * list Q)) (elems : list (Q * Z)),
         readlines text = pre1 ++ b1 :: h1 :: h2 :: rows1 ++ d1 :: post1 ->
         Forall (fun l => contains geometry_banner l = false) pre1 ->
         contains geometry_banner b1 = true ->
         Forall (fun l => contains dashes52 l = false) rows1 ->
         contains dashes52 d1 = true ->
         rows1 <> [] ->
         splitlines text = pre2 ++ b2 :: g1 :: g2 :: rows2 ++ closing ->
         contains completion_banner text = true ->
         contains geometry_banner b2 = true ->
         Forall (fun l => contains geometry_banner l = false)
                (g1 :: g2 :: rows2 ++ closing) ->
         Forall (fun l => contains dashes12 l = false) rows2 ->
         closed_or_end closing ->
         rows2 <> [] ->
         mapM parse_atom_row rows2 = Ret parsed ->
         Forall (fun r => length (snd r) = 3%nat) parsed ->
         mapM get_element_mass (map fst parsed) = Ret elems ->
         exists coord number mass,
           getNumberOfAtoms text = Ret (length rows1)
           /\ loadGeometry path text = Ret (coord, number, mass)
           /\ length coord = length rows2
           /\ length number = length rows2
           /\ length mass = length rows2
           /\ (getNumberOfAtoms text = Ret (length coord)
               <-> length rows1 = length rows2)).
Proof.
  split; [intros N F; apply loadForceConstantMatrix_square|].
  intros pre1 post1 rows1 b1 h1 h2 d1 pre2 rows2 closing b2 g1 g2 parsed elems
         E1 Hpre1 Hb1 Hrows1 Hd1 Hne1 E2 Hdone Hb2 Hback Hrows2 Hc Hne2
         Hparsed Hthree Helems.
  assert (Hatoms : getNumberOfAtoms text = Ret (length rows1)).
  { unfold getNumberOfAtoms. rewrite E1.
    now apply getNumberOfAtoms_single_block. }
  assert (Hlen : length parsed = length rows2)
    by now apply mapM_length in Hparsed.
  assert (Hlen' : length elems = length parsed)
    by (apply mapM_length in Helems; now rewrite length_map in Helems).
  assert (Hgeo : loadGeometry path text
                 = Ret (map snd parsed, map snd elems, map fst elems)).
  { unfold loadGeometry.
    apply (present_splitlines completion_banner text eq_refl) in Hdone;
      [|discriminate].
    apply completed_job_iff in Hdone. rewrite Hdone. cbn [negb].
    rewrite E2.
    rewrite (find_geometry_last_block pre2 rows2 closing b2 g1 g2 parsed
                                      Hb2 Hback Hrows2 Hc Hne2 Hparsed).
    cbn [bind]. rewrite (element_masses_spec _ _ Helems). cbn [bind app].
    rewrite (numpy_array2_rectangular 3) by now apply Forall_map.
    cbn [bind]. rewrite !length_map.
    destruct rows2 as [|r rows2]; [congruence|].
    destruct parsed as [|p parsed]; [discriminate|].
    destruct elems as [|e elems]; [discriminate|]. reflexivity. }
  exists (map snd parsed), (map snd elems), (map fst elems).
  split; [exact Hatoms|]. split; [exact Hgeo|].
  rewrite !length_map. split; [exact Hlen|].
  split; [now rewrite Hlen'|]. split; [now rewrite Hlen'|].
  rewrite Hatoms, Hlen. split.
  - now intros [= ->].
  - now intros ->.
Qed.

End QchemLog.

(* ================================================================== *)
(** ** The properties on the sample logs *)

Open Scope string_scope.

(** On the transition-state log the first marked line gives -513.25,
    which is returned; on the stable-species log it gives 204.10, and
    the call raises. *)
Lemma loadNegativeFrequency_first_marker_witness :
  loadNegativeFrequency parse_decimal "ts.out" ts_log = Ret (-513.25)
  /\ loadNegativeFrequency parse_decimal "stable.out" stable_log
     = Raise (InputError (msg_no_imaginary ++ "stable.out")).
Proof.
  split.
  - refine (proj2 (loadNegativeFrequency_first_marker
                     parse_decimal "ts.out" ts_log
                     (firstn 1 (readlines ts_log)) (skipn 2 (readlines ts_log))
                     (nth 1 (readlines ts_log) "") "-513.25" (-513.25)
                     _ _ _ _ _) _);
      try (vm_compute; reflexivity).
    vm_compute. repeat constructor.
  - refine (proj2 (proj1 (loadNegativeFrequency_first_marker
                     parse_decimal "stable.out" stable_log
                     (firstn 1 (readlines stable_log))
                     (skipn 2 (readlines stable_log))
                     (nth 1 (readlines stable_log) "") "204.10" 204.10
                     _ _ _ _ _)) _);
      try (vm_compute; reflexivity).
    + vm_compute. repeat constructor.
    + discriminate.
Defined.

(** The geometry log of water holds no frequency marker. *)
Lemma loadNegativeFrequency_no_marker_witness :
  loadNegativeFrequency parse_decimal "water.out" water_log
  = Raise UnboundLocalError.
Proof.
  apply (proj1 (loadNegativeFrequency_no_marker
                  parse_decimal "water.out" water_log eq_refl)).
Defined.

(** The conformer of the linear molecule. *)
Lemma loadConformer_E0_zero_witness :
  exists c,
    loadConformer parse_decimal rmg_a0 sqrt_exact linear_log None 0 1 false ""
    = Ret c
    /\ fst (E0 c) == 0.
Proof.
  eexists. split; [vm_compute; reflexivity|].
  eapply (proj2 (loadConformer_E0_zero
                   parse_decimal rmg_a0 sqrt_exact linear_log None 0 1 false ""
                   _ _)).
  Unshelve. vm_compute. reflexivity.
Defined.

(** The scan of three points. *)
Lemma loadScanEnergies_normalized_witness :
  exists Vlist angle,
    loadScanEnergies parse_decimal rmg_E_h rmg_Na float_pi accept_scan
                     "scan.out" scan_log = Ret (Vlist, angle)
    /\ length Vlist = 3%nat
    /\ Forall (fun v => 0 <= v) Vlist
    /\ Exists (fun v => v == 0) Vlist.
Proof.
  assert (HE : 0 <= rmg_E_h) by discriminate.
  assert (HN : 0 <= rmg_Na) by discriminate.
  assert (Hrun : exists Vlist angle,
             loadScanEnergies parse_decimal rmg_E_h rmg_Na float_pi accept_scan
                              "scan.out" scan_log = Ret (Vlist, angle)
             /\ length Vlist = 3%nat)
    by (eexists; eexists; split; vm_compute; reflexivity).
  destruct Hrun as (Vlist & angle & Hrun & Hlen).
  destruct (proj2 (loadScanEnergies_normalized
                     parse_decimal rmg_E_h rmg_Na float_pi accept_scan
                     "scan.out" scan_log HE HN) Vlist angle Hrun)
    as (raw & angle0 & _ & _ & _ & Hpos & Hzero).
  exists Vlist, angle. split; [exact Hrun|]. split; [exact Hlen|].
  split; [exact Hpos | exact Hzero].
Defined.

(** The scan of a single point. *)
Lemma loadScanEnergies_single_row_witness :
  loadScanEnergies parse_decimal rmg_E_h rmg_Na float_pi accept_scan
                   "scan.out" single_point_scan_log = Raise ZeroDivisionError.
Proof.
  refine (loadScanEnergies_single_row
            parse_decimal rmg_E_h rmg_Na float_pi accept_scan
            "scan.out" single_point_scan_log (-154.5020) [0.0000] _ _);
    vm_compute; reflexivity.
Defined.

(** The truncated log has a geometry block and no completion banner;
    the scan log has the banner and no geometry block. *)
Lemma loadGeometry_errors_witness :
  loadGeometry parse_decimal element_table "truncated.out" truncated_log
  = Raise (InputError (msg_incomplete ++ "truncated.out"))
  /\ loadGeometry parse_decimal element_table "scan.out" scan_log
     = Raise (InputError (msg_no_atoms ++ "scan.out")).
Proof.
  split.
  - apply (proj1 (loadGeometry_errors parse_decimal element_table
                    "truncated.out" truncated_log)).
    reflexivity.
  - apply (proj2 (loadGeometry_errors parse_decimal element_table
                    "scan.out" scan_log)).
    + reflexivity.
    + reflexivity.
Defined.

(** The rotor of the linear molecule: its eigenvalue line gives
    0.00000, 30.25000 and 30.25000. *)
Lemma loadConformer_rotor_classification_witness :
  exists c m,
    loadConformer parse_decimal rmg_a0 sqrt_exact linear_log None 0 1 false ""
    = Ret c
    /\ In m (modes c)
    /\ is_rotor m = true
    /\ exists i0 i1 i2 sym,
        recorded parse_decimal (readlines linear_log) [i0; i1; i2]
        /\ classified rmg_a0 sqrt_exact i0 i1 i2 sym m.
Proof.
  eexists. eexists. split; [vm_compute; reflexivity|].
  split; [right; left; reflexivity|]. split; [reflexivity|].
  refine (proj2 (loadConformer_rotor_classification
                   parse_decimal rmg_a0 sqrt_exact linear_log None 0 1 false ""
                   sqrt_exact_square) _ _ _ _ _).
  - vm_compute. reflexivity.
  - right. left. reflexivity.
  - reflexivity.
Defined.

(** The frequencies of the linear molecule: the block accumulates
    -513.25, 204.10, 310.77 and 2100.50, and the first one goes. *)
Lemma loadConformer_frequencies_witness :
  exists c raw,
    loadConformer parse_decimal rmg_a0 sqrt_exact linear_log None 0 1 false ""
    = Ret c
    /\ In (HarmonicOscillator [204.10; 310.77; 2100.50]) (modes c)
    /\ accumulated parse_decimal (readlines linear_log) raw
    /\ [204.10; 310.77; 2100.50] = finalized raw
    /\ Forall (fun x => 0 <= x) [204.10; 310.77; 2100.50].
Proof.
  assert (Hc : exists c,
             loadConformer parse_decimal rmg_a0 sqrt_exact linear_log
                           None 0 1 false "" = Ret c
             /\ In (HarmonicOscillator [204.10; 310.77; 2100.50]) (modes c)).
  { eexists. split; [vm_compute; reflexivity|].
    right. right. left. reflexivity. }
  destruct Hc as (c & Hc & Hin).
  destruct (loadConformer_frequencies
              parse_decimal rmg_a0 sqrt_exact linear_log None 0 1 false ""
              c [204.10; 310.77; 2100.50] Hc Hin)
    as (raw & Hacc & _ & Hfin & _).
  exists c, raw.
  split; [exact Hc|]. split; [exact Hin|]. split; [exact Hacc|].
  split; [exact Hfin|]. repeat constructor; discriminate.
Defined.

(** The optimization of water in two steps: the first block and the
    last one have three rows each. *)
Lemma atom_count_first_and_last_block_witness :
  getNumberOfAtoms optimization_log = Ret 3%nat
  /\ (exists coord number mass,
         loadGeometry parse_decimal element_table "opt.out" optimization_log
         = Ret (coord, number, mass)
         /\ length coord = 3%nat /\ length number = 3%nat
         /\ length mass = 3%nat
         /\ getNumberOfAtoms optimization_log = Ret (length coord))
  /\ (forall F,
         loadForceConstantMatrix parse_decimal optimization_log = Ret (Some F) ->
         square 9 F).
Proof.
  destruct (proj2 (atom_count_first_and_last_block
                     parse_decimal element_table "opt.out" optimization_log)
                  [] (skipn 7 (readlines optimization_log))
                  (firstn 3 (skipn 3 (readlines optimization_log)))
                  (nth 0 (readlines optimization_log) "")
                  (nth 1 (readlines optimization_log) "")
                  (nth 2 (readlines optimization_log) "")
                  (nth 6 (readlines optimization_log) "")
                  (firstn 7 (splitlines optimization_log))
                  (firstn 3 (skipn 10 (splitlines optimization_log)))
                  (skipn 13 (splitlines optimization_log))
                  (nth 7 (splitlines optimization_log) "")
                  (nth 8 (splitlines optimization_log) "")
                  (nth 9 (splitlines optimization_log) "")
                  [("O", [0.0000000000; 0.0000000000; 0.1200]);
                   ("H", [0.0000000000; 0.7600000000; -0.4700]);
                   ("H", [0.0000000000; -0.7600000000; -0.4700])]
                  [(15.99491461957, 8%Z); (1.00782503224, 1%Z);
                   (1.00782503224, 1%Z)])
    as (coord & number & mass & HN & HG & H1 & H2 & H3 & Hsame);
    try lazymatch goal with
      | |- Forall _ _ => vm_compute; repeat constructor
      | |- closed_or_end _ => vm_compute; reflexivity
      | |- _ <> _ => discriminate
      | |- _ = _ => vm_compute; reflexivity
      end.
  split; [exact HN|]. split.
  - exists coord, number, mass. split; [exact HG|].
    split; [exact H1|]. split; [exact H2|]. split; [exact H3|].
    apply Hsame. reflexivity.
  - intros F.
    exact (proj1 (atom_count_first_and_last_block
                    parse_decimal element_table "opt.out" optimization_log)
                 3%nat F HN).
Defined.

(** The Hessian log: the matrix returned is a block after a banner
    that no banner follows. *)
Lemma loadForceConstantMatrix_last_block_witness :
  exists M pre b post F rest,
    loadForceConstantMatrix parse_decimal hessian_log = Ret (Some M)
    /\ readlines hessian_log = (pre ++ b :: post)%list
    /\ is_hessian_banner b = true
    /\ fill_hessian parse_decimal 3 post = Ret (F, rest)
    /\ M = matrix_scale hessian_factor F
    /\ Forall (fun l => is_hessian_banner l = false) rest.
Proof.
  assert (HM : exists M,
             loadForceConstantMatrix parse_decimal hessian_log = Ret (Some M))
    by (eexists; vm_compute; reflexivity).
  destruct HM as [M HM].
  destruct (proj2 (loadForceConstantMatrix_last_block
                     parse_decimal hessian_log 1 eq_refl) M HM)
    as (pre & b & post & F & rest & H).
  exists M, pre, b, post, F, rest. split; [exact HM | exact H].
Defined.

(** C1 as stated fails.  The eigenvalue line of [unsorted_inertia_log]
    records 1.0, 0.0 and 2.0: the smallest recorded eigenvalue is zero,
    and the rotor is nonlinear, because line 242 tests the first one.
    The eigenvalue line of [negative_inertia_log] records 0.0, -1.0 and
    -1.0: the moment of the linear rotor is not [-1.0] times the
    conversion factor (it is the factor itself). *)
Lemma smallest_eigenvalue_counterexample :
  (recorded parse_decimal (readlines unsorted_inertia_log) [1.0; 0.0; 2.0]
   /\ numpy_min [1.0; 0.0; 2.0] = Ret 0.0
   /\ exists inertia sym,
       loadConformer parse_decimal rmg_a0 sqrt_exact unsorted_inertia_log
                     None 0 1 false ""
       = Ret (mkConformer (0.0 * 0.001, "kJ/mol")
                          [NonlinearRotor inertia sym] 0 1))
  /\ (recorded parse_decimal (readlines negative_inertia_log)
               [0.0; -1.0; -1.0]
      /\ exists moment sym,
          loadConformer parse_decimal rmg_a0 sqrt_exact negative_inertia_log
                        None 0 1 false ""
          = Ret (mkConformer (0.0 * 0.001, "kJ/mol")
                             [LinearRotor moment sym] 0 1)
          /\ ~ moment == -1.0 * inertia_factor rmg_a0).
Proof.
  split; split.
  - exists (nth 1 (readlines unsorted_inertia_log) "").
    split; [vm_compute; auto|]. split; vm_compute; reflexivity.
  - split; [vm_compute; reflexivity|].
    eexists. eexists. vm_compute. reflexivity.
  - exists (nth 1 (readlines negative_inertia_log) "").
    split; [vm_compute; auto|]. split; vm_compute; reflexivity.
  - eexists. eexists. split; [vm_compute; reflexivity|].
    vm_compute. discriminate.
Qed.

(** C4 as stated fails.  The frequency block of [two_imaginary_log]
    accumulates -500.0, -100.0 and 200.0; only the first value is
    stripped, and the frequency set of the conformer holds -100.0. *)
Lemma second_imaginary_frequency_counterexample :
  exists c,
    loadConformer parse_decimal rmg_a0 sqrt_exact two_imaginary_log
                  None 0 1 false "" = Ret c
    /\ In (HarmonicOscillator [-100.0; 200.0]) (modes c)
    /\ -100.0 < 0.
Proof.
  eexists. split; [vm_compute; reflexivity|].
  split; [right; left; reflexivity | reflexivity].
Qed.

(** C7 as stated fails.  [two_job_log] holds the geometry of a hydrogen
    atom and then the geometry of water: [getNumberOfAtoms] counts the
    first block, one atom, and [loadGeometry] returns the last one,
    three atoms. *)
Lemma first_and_last_block_counterexample :
  getNumberOfAtoms two_job_log = Ret 1%nat
  /\ exists coord number mass,
      loadGeometry parse_decimal element_table "two.out" two_job_log
      = Ret (coord, number, mass)
      /\ length coord = 3%nat /\ length number = 3%nat
      /\ length mass = 3%nat.
Proof.
  split; [vm_compute; reflexivity|].
  eexists. eexists. eexists. split; [vm_compute; reflexivity|].
  repeat split.
Qed.

(* ================================================================== *)
(** ** The further properties on the sample logs *)

(** The scan log holds no geometry block. *)
Lemma getNumberOfAtoms_no_block_witness :
  getNumberOfAtoms scan_log = Ret 0%nat.
Proof. apply (getNumberOfAtoms_no_block scan_log). reflexivity. Defined.

(** The first block of the file of two jobs has one row. *)
Lemma getNumberOfAtoms_first_block_witness :
  getNumberOfAtoms two_job_log = Ret 1%nat.
Proof.
  refine (getNumberOfAtoms_first_block
            two_job_log [] (skipn 5 (readlines two_job_log))
            [nth 3 (readlines two_job_log) ""]
            (nth 0 (readlines two_job_log) "")
            (nth 1 (readlines two_job_log) "")
            (nth 2 (readlines two_job_log) "")
            (nth 4 (readlines two_job_log) "")
            _ _ _ _ _ _);
    lazymatch goal with
    | |- Forall _ _ => vm_compute; repeat constructor
    | |- _ <> _ => discriminate
    | |- _ = _ => vm_compute; reflexivity
    end.
Defined.

(** The block of the truncated log is never closed. *)
Lemma getNumberOfAtoms_open_block_witness :
  getNumberOfAtoms truncated_log = Diverge
  /\ loadForceConstantMatrix parse_decimal truncated_log = Diverge.
Proof.
  refine (getNumberOfAtoms_open_block
            parse_decimal truncated_log []
            (skipn 1 (readlines truncated_log))
            (nth 0 (readlines truncated_log) "") _ _ _ _);
    lazymatch goal with
    | |- Forall _ _ => vm_compute; repeat constructor
    | |- _ = _ => vm_compute; reflexivity
    end.
Defined.

(** A Hessian with no geometry block before it. *)
Lemma loadForceConstantMatrix_no_atoms_witness :
  loadForceConstantMatrix parse_decimal hessian_only_log = Ret (Some []).
Proof.
  refine (loadForceConstantMatrix_no_atoms
            parse_decimal hessian_only_log
            (nth 0 (readlines hessian_only_log) "") _ _ _).
  - vm_compute. reflexivity.
  - vm_compute. auto.
  - vm_compute. reflexivity.
Defined.

(** The Hessian log: the entry of row 1 and column 2 of the matrix is
    the fourth token of the third line after the last banner,
    converted. *)
Lemma loadForceConstantMatrix_entries_witness :
  exists M pre b block,
    loadForceConstantMatrix parse_decimal hessian_log = Ret (Some M)
    /\ readlines hessian_log = (pre ++ b :: block)%list
    /\ is_hessian_banner b = true
    /\ matrix_get M 1 2
       = option_map (fun v => v * hessian_factor)
                    (hessian_entry parse_decimal 3 block 1 2).
Proof.
  assert (HM : exists M,
             loadForceConstantMatrix parse_decimal hessian_log = Ret (Some M))
    by (eexists; vm_compute; reflexivity).
  destruct HM as [M HM].
  destruct (loadForceConstantMatrix_entries
              parse_decimal hessian_log 1 M eq_refl HM)
    as (pre & b & block & E & Hb & _ & Hget).
  exists M, pre, b, block. split; [exact HM|]. split; [exact E|].
  split; [exact Hb|]. apply Hget.
  - assert (Hall : forallb (fun l => (length (split l) <=? 7)%nat)
                           (readlines hessian_log) = true)
      by (vm_compute; reflexivity).
    rewrite forallb_forall in Hall. apply Forall_forall. intros l Hl.
    apply Nat.leb_le, Hall. rewrite E. apply in_or_app. right. right.
    rewrite <- (firstn_skipn (hessian_bands 3 * (3 + 1)) block).
    apply in_or_app. now left.
  - cbn. lia.
  - cbn. lia.
Defined.

(** The last of the two energies of the energy log. *)
Lemma loadEnergy_last_match_witness :
  loadEnergy parse_decimal rmg_E_h rmg_Na energy_log 1
  = Ret (-154.6000 * rmg_E_h * rmg_Na)
  /\ loadEnergy parse_decimal rmg_E_h rmg_Na scan_log 1
     = Raise (InputError msg_no_energy).
Proof.
  split.
  - refine (proj1 (loadEnergy_last_match
                     parse_decimal rmg_E_h rmg_Na energy_log 1)
                  (firstn 1 (readlines energy_log))
                  (skipn 2 (readlines energy_log))
                  (nth 1 (readlines energy_log) "")
                  "-154.6000" (-154.6000) _ _ _ _ _ _);
      lazymatch goal with
      | |- Forall (well_marked _ _ _) _ =>
          repeat constructor; intros _;
          exists "-154.5020", (-154.5020); split; vm_compute; reflexivity
      | |- Forall _ _ => vm_compute; repeat constructor
      | |- _ = _ => vm_compute; reflexivity
      end.
  - apply (proj2 (loadEnergy_last_match
                    parse_decimal rmg_E_h rmg_Na scan_log 1)).
    reflexivity.
Defined.

(** The first energy line of the malformed log has three tokens. *)
Lemma loadEnergy_malformed_line_witness :
  loadEnergy parse_decimal rmg_E_h rmg_Na malformed_energy_log 1
  = Raise IndexError.
Proof.
  refine (proj1 (loadEnergy_malformed_line
                   parse_decimal rmg_E_h rmg_Na malformed_energy_log 1
                   [] (skipn 1 (readlines malformed_energy_log))
                   (nth 0 (readlines malformed_energy_log) "") _ _ _) _).
  - vm_compute. reflexivity.
  - constructor.
  - vm_compute. reflexivity.
  - vm_compute. lia.
Defined.

(** The zero-point energy of the energy log, 20.5 kcal/mol. *)
Lemma loadZeroPointEnergy_last_match_witness :
  loadZeroPointEnergy parse_decimal energy_log 1 = Ret (20.5 * 4184)
  /\ loadZeroPointEnergy parse_decimal scan_log 1
     = Raise (InputError msg_no_zpe).
Proof.
  split.
  - refine (proj1 (loadZeroPointEnergy_last_match
                     parse_decimal energy_log 1)
                  (firstn 2 (readlines energy_log))
                  (skipn 3 (readlines energy_log))
                  (nth 2 (readlines energy_log) "")
                  "20.5" 20.5 _ _ _ _ _ _);
      lazymatch goal with
      | |- Forall (well_marked _ _ _) _ =>
          repeat constructor; intros H; vm_compute in H; discriminate
      | |- Forall _ _ => vm_compute; repeat constructor
      | |- _ = _ => vm_compute; reflexivity
      end.
  - apply (proj2 (loadZeroPointEnergy_last_match
                    parse_decimal scan_log 1)).
    reflexivity.
Defined.

(** The linear molecule, read with a spin multiplicity of 2 and three
    optical isomers. *)
Lemma loadConformer_caller_arguments_witness :
  exists c,
    loadConformer parse_decimal rmg_a0 sqrt_exact linear_log None 2 3 false ""
    = Ret c
    /\ opticalIsomers c = 3%Z /\ spinMultiplicity c = 2%Z.
Proof.
  assert (Hc : exists c,
             loadConformer parse_decimal rmg_a0 sqrt_exact linear_log
                           None 2 3 false "" = Ret c)
    by (eexists; vm_compute; reflexivity).
  destruct Hc as [c Hc]. exists c. split; [exact Hc|].
  destruct (loadConformer_caller_arguments
              parse_decimal rmg_a0 sqrt_exact linear_log None 2 3 false ""
              c Hc) as [Ho Hs].
  split; [exact Ho | apply Hs; discriminate].
Defined.

(** The linear molecule, read with the symmetry number 4: the log
    says 2. *)
Lemma loadConformer_caller_symmetry_witness :
  exists c m,
    loadConformer parse_decimal rmg_a0 sqrt_exact linear_log (Some 4%Z) 0 1
                  false "" = Ret c
    /\ In m (modes c)
    /\ rotor_symmetry m = Some 4%Z.
Proof.
  assert (Hc : exists c m,
             loadConformer parse_decimal rmg_a0 sqrt_exact linear_log
                           (Some 4%Z) 0 1 false "" = Ret c
             /\ In m (modes c) /\ is_rotor m = true).
  { eexists. eexists. split; [vm_compute; reflexivity|].
    split; [right; left; reflexivity | reflexivity]. }
  destruct Hc as (c & m & Hc & Hin & Hr). exists c, m.
  split; [exact Hc|]. split; [exact Hin|].
  exact (loadConformer_caller_symmetry
           parse_decimal rmg_a0 sqrt_exact linear_log (Some 4%Z) 0 1 ""
           c m Hc Hin Hr).
Defined.

(** The modes of the linear molecule: one translation, one rotor, one
    oscillator. *)
Lemma loadConformer_modes_grouped_witness :
  exists c translations rotors oscillators,
    loadConformer parse_decimal rmg_a0 sqrt_exact linear_log None 0 1 false ""
    = Ret c
    /\ modes c = (translations ++ rotors ++ oscillators)%list
    /\ Forall (fun m => exists mass, m = IdealGasTranslation mass) translations
    /\ Forall (fun m => is_rotor m = true) rotors
    /\ Forall (fun m => exists fs, m = HarmonicOscillator fs) oscillators.
Proof.
  assert (Hc : exists c,
             loadConformer parse_decimal rmg_a0 sqrt_exact linear_log
                           None 0 1 false "" = Ret c)
    by (eexists; vm_compute; reflexivity).
  destruct Hc as [c Hc].
  destruct (loadConformer_modes_grouped
              parse_decimal rmg_a0 sqrt_exact linear_log None 0 1 false ""
              c Hc) as (t & r & o & H).
  exists c, t, r, o. split; [exact Hc | exact H].
Defined.

(** The geometry log of water holds no vibrational analysis. *)
Lemma loadConformer_no_analysis_witness :
  loadConformer parse_decimal rmg_a0 sqrt_exact water_log None 2 1 false ""
  = Ret (mkConformer (0.0 * 0.001, "kJ/mol") [] 2 1).
Proof.
  apply (proj2 (loadConformer_no_analysis
                  parse_decimal rmg_a0 sqrt_exact water_log None 2 1 false ""
                  eq_refl)).
  discriminate.
Defined.

(** The log that stops inside its frequency block. *)
Lemma loadConformer_open_frequency_block_witness :
  loadConformer parse_decimal rmg_a0 sqrt_exact open_frequency_log
                None 0 1 false "" = Diverge.
Proof.
  refine (loadConformer_open_frequency_block
            parse_decimal rmg_a0 sqrt_exact open_frequency_log
            None 0 1 false ""
            [] [] (skipn 2 (readlines open_frequency_log))
            (nth 0 (readlines open_frequency_log) "")
            (nth 1 (readlines open_frequency_log) "")
            [204.10; 310.77]
            _ _ _ _ _ _ _ _ _);
    lazymatch goal with
    | |- Forall _ _ => vm_compute; repeat constructor
    | |- _ = _ => vm_compute; reflexivity
    end.
Defined.

(** The frequency block with no frequency line. *)
Lemma loadConformer_empty_frequency_block_witness :
  loadConformer parse_decimal rmg_a0 sqrt_exact empty_frequency_log
                None 0 1 false "" = Raise IndexError.
Proof.
  refine (loadConformer_empty_frequency_block
            parse_decimal rmg_a0 sqrt_exact empty_frequency_log
            None 0 1 false ""
            [] [] [] (skipn 3 (readlines empty_frequency_log))
            (nth 0 (readlines empty_frequency_log) "")
            (nth 1 (readlines empty_frequency_log) "")
            (nth 2 (readlines empty_frequency_log) "")
            _ _ _ _ _ _ _ _ _ _);
    lazymatch goal with
    | |- Forall _ _ => vm_compute; repeat constructor
    | |- _ = _ => vm_compute; reflexivity
    end.
Defined.

(** The linear molecule, line by line, read with a spin multiplicity
    of 2 and the symmetry number of the log. *)
Lemma loadConformer_section_layout_witness :
  loadConformer parse_decimal rmg_a0 sqrt_exact linear_log None 2 1 true ""
  = Ret (mkConformer
           (0.0 * 0.001, "kJ/mol")
           [IdealGasTranslation 28.006148;
            rotor_of rmg_a0 sqrt_exact 0.00000 30.25000 30.25000 2;
            HarmonicOscillator (finalized [-513.25; 204.10; 310.77; 2100.50])]
           2 1).
Proof.
  refine (loadConformer_section_layout
            parse_decimal rmg_a0 sqrt_exact linear_log None 2 1 true ""
            (firstn 3 (readlines linear_log)) []
            (firstn 4 (skipn 5 (readlines linear_log)))
            [nth 11 (readlines linear_log) ""] [] [] [] []
            (nth 3 (readlines linear_log) "")
            (nth 4 (readlines linear_log) "")
            (nth 9 (readlines linear_log) "")
            (nth 10 (readlines linear_log) "")
            (nth 12 (readlines linear_log) "")
            (nth 13 (readlines linear_log) "")
            (nth 14 (readlines linear_log) "")
            (nth 15 (readlines linear_log) "")
            [-513.25; 204.10; 310.77; 2100.50]
            "28.006148" "2" 28.006148 2 0.00000 30.25000 30.25000
            _ _ _ _ _ _ _ _ _ _ _ _ _ _ _ _ _ _ _ _ _ _ _ _ _ _ _ _ _);
    lazymatch goal with
    | |- Forall _ _ => vm_compute; repeat constructor
    | |- _ <> _ => discriminate
    | |- _ = _ => vm_compute; reflexivity
    end.
Defined.

(** The linear molecule, read with no spin multiplicity: the line
    after [$molecule] gives 2. *)
Lemma loadConformer_spin_from_log_witness :
  exists c,
    loadConformer parse_decimal rmg_a0 sqrt_exact linear_log None 0 1 false ""
    = Ret c
    /\ spinMultiplicity c = 2%Z.
Proof.
  assert (Hc : exists c,
             loadConformer parse_decimal rmg_a0 sqrt_exact linear_log
                           None 0 1 false "" = Ret c)
    by (eexists; vm_compute; reflexivity).
  destruct Hc as [c Hc]. exists c. split; [exact Hc|].
  refine (loadConformer_spin_from_log
            parse_decimal rmg_a0 sqrt_exact linear_log None 1 false ""
            [] (skipn 2 (readlines linear_log))
            (nth 0 (readlines linear_log) "")
            (nth 1 (readlines linear_log) "") "2" 2 c
            _ _ _ _ _ _ _ Hc);
    lazymatch goal with
    | |- Forall _ _ => constructor
    | |- _ <> _ => discriminate
    | |- _ = _ => vm_compute; reflexivity
    end.
Defined.

(** The geometry log of water holds no summary of a scan. *)
Lemma loadScanEnergies_no_summary_witness :
  loadScanEnergies parse_decimal rmg_E_h rmg_Na float_pi accept_scan
                   "water.out" water_log = Raise ValueError.
Proof.
  apply (proj2 (loadScanEnergies_no_summary
                  parse_decimal rmg_E_h rmg_Na float_pi accept_scan
                  "water.out" water_log eq_refl)).
  reflexivity.
Defined.

(** The scan of three points: the least energy is the first one. *)
Lemma loadScanEnergies_single_table_witness :
  exists Vmin,
    In Vmin [-154.5020; -154.5000; -154.5010]
    /\ loadScanEnergies parse_decimal rmg_E_h rmg_Na float_pi accept_scan
                        "scan.out" scan_log
       = Ret (map (fun av => (snd av - Vmin) * (rmg_E_h * rmg_Na))
                  [(0.0000, -154.5020); (180.0000, -154.5000);
                   (360.0000, -154.5010)],
              numpy_arange 0.0 (2 * float_pi + 0.00001)
                           (2 * float_pi / inject_Z (Z.of_nat (3 - 1)))).
Proof.
  destruct (loadScanEnergies_single_table
              parse_decimal rmg_E_h rmg_Na float_pi accept_scan
              "scan.out" scan_log
              [] (firstn 3 (skipn 1 (readlines scan_log)))
              (skipn 5 (readlines scan_log))
              (nth 0 (readlines scan_log) "")
              (nth 4 (readlines scan_log) "")
              [(0.0000, -154.5020); (180.0000, -154.5000);
               (360.0000, -154.5010)])
    as (Vmin & Hin & _ & Hrun);
    try lazymatch goal with
      | |- Forall2 _ _ _ =>
          repeat constructor;
          try (eexists; split; [|split]; vm_compute; reflexivity)
      | |- Forall _ _ => vm_compute; repeat constructor
      | |- (_ <= _)%nat => cbn; lia
      | |- _ = _ => vm_compute; reflexivity
      end.
  exists Vmin. split; [exact Hin | exact Hrun].
Defined.

(** The scan of three points has three angles: 0, half a turn and a
    full turn. *)
Lemma loadScanEnergies_angle_grid_witness :
  exists Vlist angle,
    loadScanEnergies parse_decimal rmg_E_h rmg_Na float_pi accept_scan
                     "scan.out" scan_log = Ret (Vlist, angle)
    /\ length Vlist = 3%nat
    /\ length angle = length Vlist
    /\ nth_error angle 2
       = Some (0.0 + inject_Z 2 * (2 * float_pi / inject_Z 2)).
Proof.
  assert (Hrun : exists Vlist angle,
             loadScanEnergies parse_decimal rmg_E_h rmg_Na float_pi accept_scan
                              "scan.out" scan_log = Ret (Vlist, angle)
             /\ length Vlist = 3%nat)
    by (eexists; eexists; split; vm_compute; reflexivity).
  destruct Hrun as (Vlist & angle & Hrun & Hlen).
  assert (Hpi : 3 <= float_pi) by discriminate.
  assert (Hmax : (Z.of_nat (length Vlist) <= 600001)%Z)
    by (rewrite Hlen; discriminate).
  destruct (loadScanEnergies_angle_grid
              parse_decimal rmg_E_h rmg_Na float_pi accept_scan
              "scan.out" scan_log Vlist angle Hpi Hmax Hrun)
    as (_ & Hsame & Hnth).
  exists Vlist, angle. split; [exact Hrun|]. split; [exact Hlen|].
  split; [exact Hsame|].
  specialize (Hnth 2%nat). rewrite Hlen in Hnth. apply Hnth. lia.
Defined.

(** The file of two jobs: the geometry returned is the second one,
    water. *)
Lemma loadGeometry_last_block_witness :
  loadGeometry parse_decimal element_table "two.out" two_job_log
  = Ret ([[0.0000000000; 0.0000000000; 0.1173];
          [0.0000000000; 0.7572000000; -0.4692];
          [0.0000000000; -0.7572000000; -0.4692]],
         [8%Z; 1%Z; 1%Z],
         [15.99491461957; 1.00782503224; 1.00782503224]).
Proof.
  refine (loadGeometry_last_block
            parse_decimal element_table "two.out" two_job_log
            (firstn 5 (splitlines two_job_log))
            (firstn 3 (skipn 8 (splitlines two_job_log)))
            (skipn 11 (splitlines two_job_log))
            (nth 5 (splitlines two_job_log) "")
            (nth 6 (splitlines two_job_log) "")
            (nth 7 (splitlines two_job_log) "")
            [("O", [0.0000000000; 0.0000000000; 0.1173]);
             ("H", [0.0000000000; 0.7572000000; -0.4692]);
             ("H", [0.0000000000; -0.7572000000; -0.4692])]
            [(15.99491461957, 8%Z); (1.00782503224, 1%Z); (1.00782503224, 1%Z)]
            _ _ _ _ _ _ _ _ _ _);
    lazymatch goal with
    | |- Forall _ _ => vm_compute; repeat constructor
    | |- closed_or_end _ => vm_compute; reflexivity
    | |- _ <> _ => discriminate
    | |- _ = _ => vm_compute; reflexivity
    end.
Defined.

(** A frequency line cut after its marker, and one whose value is a
    run of stars. *)
Lemma loadNegativeFrequency_malformed_line_witness :
  loadNegativeFrequency parse_decimal "cut.out" malformed_frequency_log
  = Raise IndexError
  /\ loadNegativeFrequency parse_decimal "stars.out" starred_frequency_log
     = Raise ValueError.
Proof.
  split.
  - refine (proj1 (loadNegativeFrequency_malformed_line
                     parse_decimal "cut.out" malformed_frequency_log
                     (firstn 1 (readlines malformed_frequency_log))
                     (skipn 2 (readlines malformed_frequency_log))
                     (nth 1 (readlines malformed_frequency_log) "")
                     _ _ _) _).
    + vm_compute. reflexivity.
    + vm_compute. repeat constructor.
    + vm_compute. reflexivity.
    + vm_compute. lia.
  - refine (proj2 (loadNegativeFrequency_malformed_line
                     parse_decimal "stars.out" starred_frequency_log
                     (firstn 1 (readlines starred_frequency_log))
                     (skipn 2 (readlines starred_frequency_log))
                     (nth 1 (readlines starred_frequency_log) "")
                     _ _ _) "*******" _ _).
    + vm_compute. reflexivity.
    + vm_compute. repeat constructor.
    + vm_compute. reflexivity.
    + vm_compute. reflexivity.
    + vm_compute. reflexivity.
Defined.

(** The scan that fails after its first table: two energies are
    returned, the third one is not read. *)
Lemma loadScanEnergies_scf_failure_witness :
  exists Vlist angle,
    loadScanEnergies parse_decimal rmg_E_h rmg_Na float_pi accept_scan
                     "failed.out" scf_failure_log = Ret (Vlist, angle)
    /\ length Vlist = 2%nat.
Proof.
  eexists. eexists. split.
  - rewrite (loadScanEnergies_scf_failure
               parse_decimal rmg_E_h rmg_Na float_pi accept_scan
               "failed.out" scf_failure_log
               [] (firstn 2 (skipn 1 (readlines scf_failure_log))) []
               (skipn 5 (readlines scf_failure_log))
               (nth 0 (readlines scf_failure_log) "")
               (nth 3 (readlines scf_failure_log) "")
               (nth 4 (readlines scf_failure_log) "")
               [(0.0000, -154.5020); (360.0000, -154.5000)]);
      lazymatch goal with
      | |- Forall2 _ _ _ =>
          repeat constructor;
          try (eexists; split; [|split]; vm_compute; reflexivity)
      | |- Forall _ _ => vm_compute; repeat constructor
      | |- _ = _ => vm_compute; reflexivity
      end.
  - reflexivity.
Defined.

Close Scope string_scope.
